(** * Order feed synchronisation of the relayer: model and properties

    The development follows the three source files of the repository:

    - [Module Seaport]      the order parser of [utils/seaport.ts];
    - [Module SeaportSync]  the fetch operations and the collection refresh
                            of the Seaport sync job (fetchOrders, fetchAllOrders,
                            fetchListingsBySlug, fetchCollectionOffers,
                            refreshCollectionsToFetchOffers);
    - [Module Realtime]     the self-rearming realtime worker.

    JavaScript values are modelled as the TypeScript types give them: a
    [string | null | undefined] is an [option string], a thrown exception is
    the [Throw] completion of a computation.  The outside world (HTTP feed,
    database, queue, cache, lock) is an explicit state with a chronological
    trace of the calls made to it; what the outside answers is an input of
    the model.  Informational [logger] calls return nothing to the program
    and are left out of the traces; error logs of the sequential code that
    the properties speak of are kept. *)

From Stdlib Require Import ZArith Ascii DecimalString.
From stdpp Require Import base option list strings gmap.

Local Open Scope Z_scope.

(* ================================================================== *)
(** * JavaScript basics *)
(* ================================================================== *)

Module JS.

(** A thrown value.  The code inspects one thing only of an error:
    [error.response?.status]. *)
Record Error := mkError {
  message : string;
  response_status : option Z
}.

(** Completion of a computation: a value or a thrown error. *)
Inductive Completion (A : Type) : Type :=
| Normal (a : A)
| Throw (e : Error).
Arguments Normal {A} a.
Arguments Throw {A} e.

#[global] Instance completion_ret : MRet Completion := @Normal.
#[global] Instance completion_bind : MBind Completion :=
  λ A B f c, match c with Normal a => f a | Throw e => Throw e end.

#[global] Instance completion_fmap : FMap Completion :=
  λ A B f c, match c with Normal a => Normal (f a) | Throw e => Throw e end.

(** [try { body } catch (error) { handler }] on pure completions. *)
Definition try_catch {A} (body : Completion A) (handler : Error → Completion A)
  : Completion A :=
  match body with
  | Normal a => Normal a
  | Throw e => handler e
  end.

(** Truthiness of a string: only the empty string is falsy. *)
Definition truthy (s : string) : bool :=
  match s with
  | EmptyString => false
  | String _ _ => true
  end.

(** Truthiness of a [string | null | undefined]. *)
Definition truthy_opt (s : option string) : bool :=
  match s with
  | Some s => truthy s
  | None => false
  end.

(** Truthiness of an optional number: [undefined], [0] are falsy. *)
Definition truthy_num (n : option Z) : bool :=
  match n with
  | Some n => negb (n =? 0)
  | None => false
  end.

(** [String.prototype.toLowerCase] on the ASCII range, which covers the
    hexadecimal hashes and addresses the sync handles; other bytes are
    left as they are. *)
Definition lower_ascii (c : ascii) : ascii :=
  let n := nat_of_ascii c in
  if ((65 <=? n)%nat && (n <=? 90)%nat)%bool then ascii_of_nat (n + 32) else c.

Fixpoint toLowerCase (s : string) : string :=
  match s with
  | EmptyString => EmptyString
  | String c s' => String (lower_ascii c) (toLowerCase s')
  end.

(** Template-literal conversion of an integer: [`${n}`]. *)
Definition number_to_string (n : Z) : string :=
  NilZero.string_of_int (Z.to_int n).

(** The TypeError of reading a property of [undefined]. *)
Definition TypeError (what : string) : Error :=
  {| message := what; response_status := None |}.

(** ** Computations on a state

    [Eff S A]: a computation that reads and writes a state [S] and
    completes with an [A] or throws.  The state written before a throw
    stays written, as the assignments of a [try] block do. *)
Definition Eff (S A : Type) : Type := S → Completion A * S.

#[global] Instance eff_ret {S} : MRet (Eff S) := λ A a s, (Normal a, s).
#[global] Instance eff_bind {S} : MBind (Eff S) :=
  λ A B f m s,
    match m s with
    | (Normal a, s') => f a s'
    | (Throw e, s') => (Throw e, s')
    end.

Definition throw {S A} (e : Error) : Eff S A := λ s, (Throw e, s).

Definition get {S} : Eff S S := λ s, (Normal s, s).

Definition modify {S} (f : S → S) : Eff S unit := λ s, (Normal (), f s).

(** A pure completion inside a computation. *)
Definition lift {S A} (c : Completion A) : Eff S A := λ s, (c, s).

(** [try { body } catch (error) { handler }]. *)
Definition try_catch_eff {S A} (body : Eff S A) (handler : Error → Eff S A)
  : Eff S A :=
  λ s,
    match body s with
    | (Normal a, s') => (Normal a, s')
    | (Throw e, s') => handler e s'
    end.

(** ** The text of a URL

    A string stands for the UTF-8 bytes of the JavaScript string.
    [URLSearchParams.prototype.toString] and [decodeURI] are modelled on
    these bytes. *)

(** The value of a byte. *)
Definition code (b : ascii) : nat := nat_of_ascii b.

(** Upper-case hexadecimal digit of a value below 16. *)
Definition hex_digit (n : nat) : ascii :=
  if (n <? 10)%nat then ascii_of_nat (48 + n) else ascii_of_nat (55 + n).

(** Value of a hexadecimal digit of either case. *)
Definition hex_value (c : ascii) : option nat :=
  let n := code c in
  if ((48 <=? n) && (n <=? 57))%nat then Some (n - 48)%nat
  else if ((65 <=? n) && (n <=? 70))%nat then Some (n - 55)%nat
  else if ((97 <=? n) && (n <=? 102))%nat then Some (n - 87)%nat
  else None.

(** [%XX] of a byte. *)
Definition percent_encode (b : ascii) : string :=
  String "%" (String (hex_digit (code b / 16)) (String (hex_digit (code b mod 16)) "")).

(** Number of leading one bits of a byte, up to five. *)
Definition leading_ones (b : ascii) : nat :=
  if (code b <? 128)%nat then 0
  else if (code b <? 192)%nat then 1
  else if (code b <? 224)%nat then 2
  else if (code b <? 240)%nat then 3
  else if (code b <? 248)%nat then 4
  else 5.

(** A continuation byte [10xxxxxx]. *)
Definition is_continuation (b : ascii) : bool := (leading_ones b =? 1)%nat.

(** Whether the bytes are the UTF-8 encoding of one code point outside
    the ASCII range: no overlong form, no surrogate, nothing above
    U+10FFFF. *)
Definition utf8_valid (octets : list ascii) : bool :=
  match octets with
  | [b1; b2] =>
      (leading_ones b1 =? 2)%nat && (194 <=? code b1)%nat && is_continuation b2
  | [b1; b2; b3] =>
      (leading_ones b1 =? 3)%nat && is_continuation b2 && is_continuation b3
      && implb (code b1 =? 224)%nat (160 <=? code b2)%nat
      && implb (code b1 =? 237)%nat (code b2 <=? 159)%nat
  | [b1; b2; b3; b4] =>
      (leading_ones b1 =? 4)%nat && (code b1 <=? 244)%nat
      && is_continuation b2 && is_continuation b3 && is_continuation b4
      && implb (code b1 =? 240)%nat (144 <=? code b2)%nat
      && implb (code b1 =? 244)%nat (code b2 <=? 143)%nat
  | _ => false
  end.

(** The characters [URLSearchParams] leaves as they are: ASCII letters
    and digits, and [*-._]. *)
Definition urlencoded_safe (b : ascii) : bool :=
  let n := code b in
  (((48 <=? n) && (n <=? 57)) || ((65 <=? n) && (n <=? 90))
   || ((97 <=? n) && (n <=? 122))
   || (n =? 42) || (n =? 45) || (n =? 46) || (n =? 95))%nat.

(** The serialisation of one ASCII byte of a name or value: a space
    becomes [+], every byte outside the safe set is percent-encoded. *)
Definition urlencode_octet (b : ascii) : string :=
  if urlencoded_safe b then String b ""
  else if (code b =? 32)%nat then "+"
  else percent_encode b.

(** U+FFFD, percent-encoded. *)
Definition replacement : string := "%EF%BF%BD".

(** The serialisation of a name or value: the bytes of its UTF-8
    encoding, percent-encoded.  A byte that starts no code point is
    serialised as U+FFFD, as a lone surrogate of the JavaScript string
    is. *)
Fixpoint urlencode (s : string) : string :=
  match s with
  | EmptyString => EmptyString
  | String b1 r1 =>
      if (code b1 <? 128)%nat then urlencode_octet b1 +:+ urlencode r1
      else
        match r1 with
        | String b2 r2 =>
            if utf8_valid [b1; b2]
            then percent_encode b1 +:+ percent_encode b2 +:+ urlencode r2
            else
              match r2 with
              | String b3 r3 =>
                  if utf8_valid [b1; b2; b3]
                  then percent_encode b1 +:+ percent_encode b2 +:+ percent_encode b3
                       +:+ urlencode r3
                  else
                    match r3 with
                    | String b4 r4 =>
                        if utf8_valid [b1; b2; b3; b4]
                        then percent_encode b1 +:+ percent_encode b2
                             +:+ percent_encode b3 +:+ percent_encode b4
                             +:+ urlencode r4
                        else replacement +:+ urlencode r1
                    | EmptyString => replacement +:+ urlencode r1
                    end
              | EmptyString => replacement +:+ urlencode r1
              end
        | EmptyString => replacement +:+ urlencode r1
        end
  end.

(** [URLSearchParams.prototype.toString]: [name=value] joined by [&]. *)
Fixpoint toString (queryParams : list (string * string)) : string :=
  match queryParams with
  | [] => ""
  | [(name, value)] => urlencode name +:+ "=" +:+ urlencode value
  | (name, value) :: rest =>
      urlencode name +:+ "=" +:+ urlencode value +:+ "&" +:+ toString rest
  end.

(** The URIError of [decodeURI]. *)
Definition URIError : Error :=
  {| message := "URI malformed"; response_status := None |}.

(** The characters [decodeURI] leaves escaped: the reserved set of a URI
    and [#]. *)
Definition uri_reserved (b : ascii) : bool :=
  let n := code b in
  ((n =? 59) || (n =? 47) || (n =? 63) || (n =? 58) || (n =? 64) || (n =? 38)
   || (n =? 61) || (n =? 43) || (n =? 36) || (n =? 44) || (n =? 35))%nat.

(** Where [decodeURI] stands inside an escape sequence. *)
Inductive Phase := Outside | AfterPercent | AfterHigh (h : ascii).

(** The state of [decodeURI] between two characters: the text decoded so
    far, the position inside an escape, the bytes read of a code point of
    several bytes and the number of bytes it still needs. *)
Record Decoder := mkDecoder {
  decoded : string;
  phase : Phase;
  octets : list ascii;
  need : nat
}.

(** Between two code points, with [text] decoded. *)
Definition ready (text : string) : Decoder :=
  {| decoded := text; phase := Outside; octets := []; need := 0 |}.

(** An escape [%hl] of the byte [b] has been read.  An ASCII byte is
    decoded unless it is reserved, in which case the escape stays; a
    leading byte opens a code point of two to four bytes; the bytes that
    follow must be continuation bytes; the code point must be valid. *)
Definition complete_octet (d : Decoder) (h l b : ascii) : Completion Decoder :=
  match need d with
  | O =>
      if (code b <? 128)%nat then
        Normal (ready (decoded d +:+
                       (if uri_reserved b then String "%" (String h (String l ""))
                        else String b "")))
      else if ((2 <=? leading_ones b) && (leading_ones b <=? 4))%nat then
        Normal {| decoded := decoded d; phase := Outside; octets := [b];
                  need := leading_ones b - 1 |}
      else Throw URIError
  | S k =>
      if is_continuation b then
        match k with
        | O =>
            if utf8_valid (octets d ++ [b])
            then Normal (ready (decoded d +:+ String.string_of_list_ascii (octets d ++ [b])))
            else Throw URIError
        | S _ =>
            Normal {| decoded := decoded d; phase := Outside;
                      octets := octets d ++ [b]; need := k |}
        end
      else Throw URIError
  end.

(** One character of the input. *)
Definition decode_step (d : Decoder) (c : ascii) : Completion Decoder :=
  match phase d with
  | Outside =>
      if decide (c = "%"%char) then
        Normal {| decoded := decoded d; phase := AfterPercent;
                  octets := octets d; need := need d |}
      else
        match need d with
        | O => Normal {| decoded := decoded d +:+ String c ""; phase := Outside;
                         octets := octets d; need := 0 |}
        | S _ => Throw URIError
        end
  | AfterPercent =>
      match hex_value c with
      | Some _ => Normal {| decoded := decoded d; phase := AfterHigh c;
                            octets := octets d; need := need d |}
      | None => Throw URIError
      end
  | AfterHigh h =>
      match hex_value h, hex_value c with
      | Some hv, Some lv => complete_octet d h c (ascii_of_nat (16 * hv + lv))
      | _, _ => Throw URIError
      end
  end.

Fixpoint decode_run (d : Decoder) (s : string) : Completion Decoder :=
  match s with
  | EmptyString => Normal d
  | String c s' => d' ← decode_step d c; decode_run d' s'
  end.

(** [decodeURI]: the input must not end inside an escape or a code
    point. *)
Definition decodeURI (s : string) : Completion string :=
  d ← decode_run (ready "") s;
  match phase d, need d with
  | Outside, O => Normal (decoded d)
  | _, _ => Throw URIError
  end.

(** A text of safe characters only. *)
Fixpoint all_safe (s : string) : bool :=
  match s with
  | EmptyString => true
  | String c s' => urlencoded_safe c && all_safe s'
  end.

(** [s] is decoded to [t] whatever comes before and after it. *)
Definition decodes (s t : string) : Prop :=
  ∀ text rest, decode_run (ready text) (s +:+ rest) = decode_run (ready (text +:+ t)) rest.

End JS.
Import JS.

(* ================================================================== *)
(** * utils/seaport.ts *)
(* ================================================================== *)

Module Seaport.

(** [Sdk.SeaportBase.Types.OfferItem] and [ConsiderationItem]. *)
Record OfferItem := mkOfferItem {
  offer_itemType : Z;
  token : string;
  offer_identifierOrCriteria : string;
  offer_startAmount : string;
  offer_endAmount : string
}.

Record ConsiderationItem := mkConsiderationItem {
  cons_itemType : Z;
  cons_token : string;
  cons_identifierOrCriteria : string;
  cons_startAmount : string;
  cons_endAmount : string;
  recipient : string
}.

Record Parameters := mkParameters {
  offerer : string;
  zone : string;
  zoneHash : string;
  conduitKey : string;
  salt : string;
  consideration : list ConsiderationItem;
  offer : list OfferItem;
  counter : Z;
  orderType : Z;
  startTime : Z;
  endTime : Z
}.

Record ProtocolData := mkProtocolData {
  parameters : Parameters;
  signature : string
}.

Record Maker := mkMaker { address : string }.

(** [SeaportOrder]: one record of the upstream feed. *)
Record SeaportOrder := mkSeaportOrder {
  created_date : string;
  order_hash : string;
  maker : Maker;
  protocol_address : string;
  protocol_data : ProtocolData;
  client_signature : string
}.

(** The object literal [orderComponent] handed to the order constructor,
    typed by the library as [OrderComponents]. *)
Record OrderComponents := mkOrderComponents {
  oc_endTime : Z;
  oc_startTime : Z;
  oc_consideration : list ConsiderationItem;
  oc_offer : list OfferItem;
  oc_conduitKey : string;
  oc_salt : string;
  oc_zone : string;
  oc_zoneHash : string;
  oc_offerer : string;
  oc_counter : string;
  oc_orderType : Z;
  oc_signature : option string
}.

(** ["seaport-v1.4" | "seaport-v1.5"] *)
Inductive Kind := SeaportV14 | SeaportV15.

#[global] Instance Kind_eq_dec : EqDecision Kind.
Proof. solve_decision. Defined.

(** What [order.getInfo()] gives when it gives something; the sync reads
    the contract only. *)
Record BaseOrderInfo := mkBaseOrderInfo { contract : string }.

(** The order-protocol library [@reservoir0x/sdk], an external
    collaborator: its order class, the per-chain exchange address table
    of each protocol version, and the constructor, which may throw. *)
Class Sdk := {
  Order : Type;
  Exchange : Kind → Z → option string;
  newOrder : Kind → Z → OrderComponents → Completion Order;
  params : Order → OrderComponents;
  getInfo : Order → option BaseOrderInfo
}.

(** [config]: the chain the process serves, and whether it runs the
    realtime worker. *)
Record Config := mkConfig {
  chainId : Z;
  doRealtimeWork : bool
}.

(** ** buildFetchOrdersURL *)

Inductive Side := sell | buy.

#[global] Instance Side_eq_dec : EqDecision Side.
Proof. solve_decision. Defined.

Inductive OrderDirection := asc | desc.

Record FetchOrdersParams := mkFetchOrdersParams {
  p_overrideBaseUrl : option string;
  p_side : Side;
  p_orderBy : option string;
  p_orderDirection : option OrderDirection;
  p_contract : option string;
  p_limit : option Z;
  p_cursor : option string;
  p_listedBefore : option Z;
  p_listedAfter : option Z
}.

(** The URL of an orders request: the text [buildFetchOrdersURL]
    returns. *)
Definition OrdersUrl : Type := string.

Definition direction_to_string (d : OrderDirection) : string :=
  match d with asc => "asc" | desc => "desc" end.

(** [if (v) queryParams.append(key, String(v))] *)
Definition append_if {A} (v : option A) (is_truthy : option A → bool)
  (key : string) (show : A → string) : list (string * string) :=
  match v with
  | Some a => if is_truthy v then [(key, show a)] else []
  | None => []
  end.

Section WithSdk.
Context `{Sdk} (config : Config).

Record Parsed := mkParsed { kind : Kind; order : Order }.

(** The object literal [orderComponent] built at the head of the [try]
    block of [parseSeaportOrder]. *)
Definition orderComponent (seaportOrder : SeaportOrder) : OrderComponents :=
  let p := parameters (protocol_data seaportOrder) in
  {| oc_endTime := endTime p;
     oc_startTime := startTime p;
     oc_consideration := consideration p;
     oc_offer := offer p;
     oc_conduitKey := conduitKey p;
     oc_salt := salt p;
     oc_zone := zone p;
     oc_zoneHash := zoneHash p;
     oc_offerer := offerer p;
     oc_counter := number_to_string (counter p);
     oc_orderType := orderType p;
     oc_signature :=
       if truthy (signature (protocol_data seaportOrder))
       then Some (signature (protocol_data seaportOrder)) else None |}.

(** The [try] block of [parseSeaportOrder]: the protocol version is
    chosen by strict equality of the record's protocol address with the
    exchange address of the chain. *)
Definition parseSeaportOrder_try (seaportOrder : SeaportOrder)
  : Completion (option Parsed) :=
  if decide (Some (protocol_address seaportOrder)
             = Exchange SeaportV14 (chainId config)) then
    o ← newOrder SeaportV14 (chainId config) (orderComponent seaportOrder);
    mret (Some {| kind := SeaportV14; order := o |})
  else if decide (Some (protocol_address seaportOrder)
                  = Exchange SeaportV15 (chainId config)) then
    o ← newOrder SeaportV15 (chainId config) (orderComponent seaportOrder);
    mret (Some {| kind := SeaportV15; order := o |})
  else mret None.

(** [parseSeaportOrder]: the [catch] logs and falls through to the end
    of the function, which returns [undefined]. *)
Definition parseSeaportOrder (seaportOrder : SeaportOrder)
  : Completion (option Parsed) :=
  try_catch (parseSeaportOrder_try seaportOrder)
            (λ error, (* logger.error *) mret None).

(** The query of [buildFetchOrdersURL]: each parameter is appended when
    it is truthy, in this order. *)
Definition queryParams (params : FetchOrdersParams) : list (string * string) :=
  append_if (p_orderBy params) truthy_opt "order_by" id
  ++ append_if (p_limit params) truthy_num "limit" number_to_string
  ++ append_if (p_orderDirection params) (λ _, true)
       "order_direction" direction_to_string
  ++ append_if (p_cursor params) truthy_opt "cursor" id
  ++ append_if (p_listedBefore params) truthy_num
       "listed_before" number_to_string
  ++ append_if (p_listedAfter params) truthy_num
       "listed_after" number_to_string
  ++ append_if (p_contract params) truthy_opt
       "asset_contract_address" id.

(** [baseApiUrl]: the base, the network and the endpoint of the side. *)
Definition baseApiUrl (baseUrl network : string) (side : Side) : string :=
  baseUrl +:+ "/v2/orders/" +:+ network +:+ "/seaport/"
  +:+ match side with sell => "listings" | buy => "offers" end.

(** [buildFetchOrdersURL]: hostname and network by chain; an unknown chain
    throws.  The result is [decodeURI] of the path, [?] and the
    serialised query. *)
Definition buildFetchOrdersURL (params : FetchOrdersParams) : Completion OrdersUrl :=
  hn ← (if decide (chainId config = 1) then mret ("api.opensea.io", "ethereum")
        else if decide (chainId config = 5) then mret ("testnets-api.opensea.io", "goerli")
        else if decide (chainId config = 10) then mret ("api.opensea.io", "optimism")
        else if decide (chainId config = 137) then mret ("api.opensea.io", "matic")
        else if decide (chainId config = 42161) then mret ("api.opensea.io", "arbitrum")
        else Throw {| message := "Unsupported chain"; response_status := None |});
  let baseUrl := default ("https://" +:+ hn.1) (p_overrideBaseUrl params) in
  decodeURI (baseApiUrl baseUrl hn.2 (p_side params) +:+ "?"
             +:+ toString (queryParams params)).

End WithSdk.

End Seaport.

(* ================================================================== *)
(** * The Seaport sync job: fetch operations *)
(* ================================================================== *)

Module SeaportSync.
Import Seaport.

Definition MAX_FETCH_OFFERS_COLLECTIONS : Z := 1000.

(** ** Rows, queue messages and the outside world *)

(** A row of [orders_v23], as [handleOrder] pushes it to [values].
    [created_at] keeps the text the [Date] is built from. *)
Record Row := mkRow {
  hash : string;
  target : string;
  row_maker : string;
  created_at : string;
  data : ProtocolData;
  source : string
}.

(** An element of [parsedOrders], the batch handed to the relay queue. *)
Record RelayOrder := mkRelayOrder {
  relay_kind : Kind;
  relay_data : OrderComponents
}.

(** [response.data] of a feed request: the page of records and the
    continuation token. *)
Record Response := mkResponse {
  orders : list SeaportOrder;
  next : option string
}.

Inductive Request :=
| GetOrders (url : OrdersUrl)
| GetUrl (url : string).

(** The calls made to the outside, as the trace records them. *)
Inductive Event :=
| EvRequest (req : Request)
| EvSleep (ms : Z)
| EvInsert (values : list Row)
| EvEnqueue (parsedOrders : list RelayOrder) (prioritized : bool).

(** The outside world of a fetch: the table [orders_v23], keyed by its
    unique column, and the trace of calls in the order they were made. *)
Record World := mkWorld {
  store : gmap string Row;
  trace : list Event
}.

Definition record (ev : Event) (w : World) : World :=
  {| store := store w; trace := trace w ++ [ev] |}.

(** What the outside does during one page: the answer of the feed, and
    whether the database statement or the enqueue call fails. *)
Record Round := mkRound {
  reply : Completion Response;
  db_fault : option Error;
  queue_fault : option Error
}.

(** ** The dedup persistence gate *)

(** Modelled from the spec: the declaration of table [orders_v23] is not
    part of the sources; its unique key, on which [ON CONFLICT] decides, is
    [hash].  One row of [INSERT ... ON CONFLICT DO NOTHING RETURNING 1]: a
    row whose hash is present is dropped, a new one is written and
    returned. *)
Definition insert_row (acc : gmap string Row * nat) (r : Row)
  : gmap string Row * nat :=
  match acc.1 !! hash r with
  | Some _ => acc
  | None => (<[hash r := r]> acc.1, S acc.2)
  end.

(** The whole statement: the table after it, and the number of rows it
    returns. *)
Definition insertOnConflictDoNothing (values : list Row) (table : gmap string Row)
  : gmap string Row * nat :=
  foldl insert_row (table, 0%nat) values.

(** ** Calls to the outside *)

(** [axios.request] / [axios.get]: the call is made, the outside answers. *)
Definition axios_request (req : Request) (answer : Completion Response)
  : Eff World Response :=
  λ w, (answer, record (EvRequest req) w).

(** [db.manyOrNone(insert(values) + " ON CONFLICT DO NOTHING RETURNING 1")];
    the result is the number of returned rows.  A failing statement
    commits nothing. *)
Definition manyOrNone (values : list Row) (fault : option Error) : Eff World nat :=
  λ w,
    match fault with
    | Some e => (Throw e, record (EvInsert values) w)
    | None =>
        let r := insertOnConflictDoNothing values (store w) in
        (Normal r.2, {| store := r.1; trace := trace w ++ [EvInsert values] |})
    end.

Definition addToRelayOrdersQueue (parsedOrders : list RelayOrder)
  (prioritized : bool) (fault : option Error) : Eff World unit :=
  λ w,
    (match fault with Some e => Throw e | None => Normal () end,
     record (EvEnqueue parsedOrders prioritized) w).

(** [await new Promise((resolve) => setTimeout(resolve, ms))] *)
Definition setTimeout (ms : Z) : Eff World unit :=
  λ w, (Normal (), record (EvSleep ms) w).

Section WithSdk.
Context `{Sdk} (config : Config).

(** ** handleOrder *)

(** The two arrays the handlers of a page push to. *)
Definition Arrays : Type := list RelayOrder * list Row.

(** [parsed?.order.getInfo()?.contract] *)
Definition info_contract (parsed : option Parsed) : option string :=
  p ← parsed; i ← getInfo (order p); Some (contract i).

Definition missing_token : Error :=
  TypeError "Cannot read properties of undefined (reading 'token')".

(** [order.protocol_data.parameters.offer[0].token]: indexing an empty
    offer list gives [undefined], whose [token] cannot be read. *)
Definition first_offer_token (o : SeaportOrder) : Completion string :=
  match offer (parameters (protocol_data o)) with
  | item :: _ => Normal (token item)
  | [] => Throw missing_token
  end.

(** [if (parsed) parsedOrders.push({ kind, data: parsed.order.params })] *)
Definition push_parsed (parsed : option Parsed) (parsedOrders : list RelayOrder)
  : list RelayOrder :=
  match parsed with
  | Some p => parsedOrders ++ [{| relay_kind := kind p; relay_data := params (order p) |}]
  | None => parsedOrders
  end.

(** [handleOrder] of [fetchOrders], and with the same text of
    [fetchListingsBySlug] and [fetchCollectionOffers]:
    [target: parsed?.order.getInfo()?.contract.toLowerCase()
             || order...offer[0].token.toLowerCase()]. *)
Definition handleOrder (o : SeaportOrder) (arrays : Arrays) : Completion Arrays :=
  parsed ← parseSeaportOrder config o;
  let parsedOrders := push_parsed parsed arrays.1 in
  target ← (let lhs := toLowerCase <$> info_contract parsed in
            if truthy_opt lhs then Normal (default "" lhs)
            else toLowerCase <$> first_offer_token o);
  mret (parsedOrders,
        arrays.2 ++ [{| hash := toLowerCase (order_hash o);
                        target := target;
                        row_maker := toLowerCase (address (Seaport.maker o));
                        created_at := created_date o;
                        data := protocol_data o;
                        source := "opensea" |}]).

(** [handleOrder] of [fetchAllOrders]:
    [hash: order.order_hash],
    [target: (parsed?.order.getInfo()?.contract || order...offer[0].token)
             .toLowerCase()]. *)
Definition handleOrder_all (o : SeaportOrder) (arrays : Arrays) : Completion Arrays :=
  parsed ← parseSeaportOrder config o;
  let parsedOrders := push_parsed parsed arrays.1 in
  target ← (let lhs := info_contract parsed in
            toLowerCase <$> (if truthy_opt lhs then Normal (default "" lhs)
                             else first_offer_token o));
  mret (parsedOrders,
        arrays.2 ++ [{| hash := order_hash o;
                        target := target;
                        row_maker := toLowerCase (address (Seaport.maker o));
                        created_at := created_date o;
                        data := protocol_data o;
                        source := "opensea" |}]).

(** [await Promise.all(orders.map((order) => plimit(() => handleOrder(order))))]:
    the page is a barrier, every handler has run before the program goes
    on, and the first handler that throws makes the whole [await] throw.
    A handler does nothing to the outside; its pushes are taken in page
    order. *)
Fixpoint fanOut (handle : SeaportOrder → Arrays → Completion Arrays)
  (orders : list SeaportOrder) (arrays : Arrays) : Completion Arrays :=
  match orders with
  | [] => mret arrays
  | o :: rest => arrays' ← handle o arrays; fanOut handle rest arrays'
  end.

(** ** fetchOrders *)

Record Details := mkDetails {
  apiKey : option string;
  overrideBaseUrl : option string;
  d_contract : option string;
  maxOrders : option Z
}.

(** The variables of a run of [fetchOrders], with the outside world. *)
Record Frame := mkFrame {
  cursor : option string;
  total : Z;
  done : bool;
  world : World
}.

Definition set_cursor (c : option string) : Eff Frame unit :=
  modify (λ f, {| cursor := c; total := total f; done := done f; world := world f |}).

Definition set_total (n : Z) : Eff Frame unit :=
  modify (λ f, {| cursor := cursor f; total := n; done := done f; world := world f |}).

Definition set_done (b : bool) : Eff Frame unit :=
  modify (λ f, {| cursor := cursor f; total := total f; done := b; world := world f |}).

(** A call to the outside made from within a run. *)
Definition in_world {A} (m : Eff World A) : Eff Frame A :=
  λ f, let r := m (world f) in
       (r.1, {| cursor := cursor f; total := total f; done := done f; world := r.2 |}).

Definition limit : Z := 50.

(** [!done && (details?.maxOrders ? total < details.maxOrders : true)] *)
Definition loop_condition (details : option Details) (f : Frame) : bool :=
  negb (done f)
  && (if truthy_num (details ≫= maxOrders)
      then total f <? default 0 (details ≫= maxOrders)
      else true).

(** The URL of the page request, built before the [try] block. *)
Definition fetchOrders_url (side : Side) (details : option Details) (f : Frame)
  : Completion OrdersUrl :=
  buildFetchOrdersURL config
    {| p_overrideBaseUrl := details ≫= overrideBaseUrl;
       p_side := side;
       p_orderBy := Some "created_date";
       p_orderDirection := Some desc;
       p_contract := details ≫= d_contract;
       p_limit := Some limit;
       p_cursor := cursor f;
       p_listedBefore := None;
       p_listedAfter := None |}.

(** The [try] block of the loop body. *)
Definition fetchOrders_try (url : OrdersUrl) (round : Round) : Eff Frame unit :=
  response ← in_world (axios_request (GetOrders url) (reply round));
  set_cursor (next response);;
  let orders := orders response in
  f ← get;
  set_total (total f + Z.of_nat (length orders));;
  arrays ← lift (fanOut handleOrder orders ([], []));
  let parsedOrders := arrays.1 in
  let values := arrays.2 in
  (if (0 <? length values)%nat then
     result ← in_world (manyOrNone values (db_fault round));
     (* If result is empty, all transactions already exists *)
     if (result =? 0)%nat then set_done true else mret ()
   else mret ());;
  (if (0 <? length parsedOrders)%nat then
     in_world (addToRelayOrdersQueue parsedOrders true (queue_fault round))
   else mret ()).

(** The [catch] block: a 429 with a truthy [cursor] waits and goes on to
    the next evaluation of the loop condition ([continue]); everything
    else is thrown again. *)
Definition fetchOrders_catch (error : Error) : Eff Frame unit :=
  if decide (response_status error = Some 429) then
    f ← get;
    if truthy_opt (cursor f) then in_world (setTimeout 5000)
    else throw error
  else throw error.

(** How a run ends: it returns, it throws, or it is waiting for a page
    that the given answers of the outside do not cover. *)
Inductive Outcome :=
| Returned
| Threw (e : Error)
| AwaitingPage.

(** The [while] loop.  [script] lists what the outside does at each page
    request to come; the loop hands back what it has not used. *)
Fixpoint fetchOrders_loop (side : Side) (details : option Details)
  (script : list Round) (f : Frame) : Outcome * Frame * list Round :=
  if loop_condition details f then
    match fetchOrders_url side details f with
    | Throw e => (Threw e, f, script)
    | Normal url =>
        match script with
        | [] => (AwaitingPage, f, [])
        | round :: rest =>
            match try_catch_eff (fetchOrders_try url round) fetchOrders_catch f with
            | (Normal _, f') => fetchOrders_loop side details rest f'
            | (Throw e, f') => (Threw e, f', rest)
            end
        end
    end
  else (Returned, f, script).

Definition fetchOrders (side : Side) (details : option Details)
  (script : list Round) (w : World) : Outcome * Frame * list Round :=
  fetchOrders_loop side details script
    {| cursor := None; total := 0; done := false; world := w |}.

(** ** fetchAllOrders *)

(** The URL of the request, built before the [try] block. *)
Definition fetchAllOrders_url (fromTimestamp toTimestamp : option Z)
  (cursor : option string) : Completion OrdersUrl :=
  buildFetchOrdersURL config
    {| p_overrideBaseUrl := None;
       p_side := sell;
       p_orderBy := Some "created_date";
       p_orderDirection := Some desc;
       p_contract := None;
       p_limit := Some limit;
       p_cursor := cursor;
       p_listedBefore := toTimestamp;
       p_listedAfter := fromTimestamp |}.

Definition fetchAllOrders (fromTimestamp toTimestamp : option Z)
  (cursor : option string) (round : Round) : Eff World (option string) :=
  url ← lift (fetchAllOrders_url fromTimestamp toTimestamp cursor);
  try_catch_eff
    (response ← axios_request (GetOrders url) (reply round);
     let orders := orders response in
     arrays ← lift (fanOut handleOrder_all orders ([], []));
     let parsedOrders := arrays.1 in
     let values := arrays.2 in
     (if (0 <? length values)%nat then
        result ← manyOrNone values (db_fault round); mret ()
      else mret ());;
     (if (0 <? length parsedOrders)%nat then
        addToRelayOrdersQueue parsedOrders true (queue_fault round)
      else mret ());;
     mret (next response))
    (λ error, throw error).

(** ** fetchListingsBySlug *)

Definition fetchListingsBySlug (slug : string) (round : Round) : Eff World unit :=
  let url :=
    if decide (chainId config = 5)
    then "https://testnets-api.opensea.io/api/v2/listings/collection/" +:+ slug +:+ "/all"
    else "https://api.opensea.io/api/v2/listings/collection/" +:+ slug +:+ "/all" in
  try_catch_eff
    (response ← axios_request (GetUrl url) (reply round);
     let orders := orders response in
     arrays ← lift (fanOut handleOrder orders ([], []));
     let parsedOrders := arrays.1 in
     let values := arrays.2 in
     (if (0 <? length values)%nat then
        result ← manyOrNone values (db_fault round); mret ()
      else mret ());;
     (if (0 <? length parsedOrders)%nat then
        addToRelayOrdersQueue parsedOrders true (queue_fault round)
      else mret ()))
    (λ error, (* logger.error *) throw error).

(** ** fetchCollectionOffers *)

Definition fetchCollectionOffers (contract tokenId : string) (apiKey : string)
  (round : Round) : Eff World unit :=
  let url :=
    if decide (chainId config = 1)
    then "https://api.opensea.io/api/v1/asset/" +:+ contract +:+ "/" +:+ tokenId +:+ "/offers"
    else "https://testnets-api.opensea.io/api/v1/asset/" +:+ contract +:+ "/" +:+ tokenId
         +:+ "/offers" in
  try_catch_eff
    (response ← axios_request (GetUrl url) (reply round);
     let orders := orders response in
     arrays ← lift (fanOut handleOrder orders ([], []));
     let parsedOrders := arrays.1 in
     let values := arrays.2 in
     (if (0 <? length values)%nat then
        result ← manyOrNone values (db_fault round); mret ()
      else mret ());;
     (if (0 <? length parsedOrders)%nat then
        addToRelayOrdersQueue parsedOrders true (queue_fault round)
      else mret ()))
    (λ error, throw error).

End WithSdk.

(** ** refreshCollectionsToFetchOffers *)

(** An entry of [response.data.collections] of the ranking source. *)
Record Collection := mkCollection {
  id : string;
  primaryContract : string
}.

Record CollectionsResponse := mkCollectionsResponse {
  collections : list Collection;
  continuation : option string
}.

(** [FetchOffersCollection]: the probe recorded for a collection.
    [tokenId] is [undefined] when the sample is drawn from no tokens. *)
Record FetchOffersCollection := mkFetchOffersCollection {
  collection : string;
  foc_contract : string;
  tokenId : option string
}.

(** The calls of a refresh.  An error log is recorded with its component
    and the text of its message up to the error it reports. *)
Inductive RefreshEvent :=
| EvGetCollections (pageSize : Z) (continuation : option string)
| EvGetTokenIds (collection : string) (pageSize : Z)
| EvLogError (component : string) (message : string)
| EvAdd (toAdd : list FetchOffersCollection) (flag : bool).

(** What the outside does during a refresh: the answer of the ranking
    source to the [i]-th request, the answer of the token source for the
    [k]-th collection, the random draw of [_.sample] for it, and whether
    storing the probes fails. *)
Record Indexer := mkIndexer {
  collections_v5 : nat → option string → Completion CollectionsResponse;
  tokens_ids_v1 : nat → string → Completion (list string);
  random : nat → nat;
  add_fault : option Error
}.

Definition log_error (component message : string) : Eff (list RefreshEvent) unit :=
  λ t, (Normal (), t ++ [EvLogError component message]).

(** The ranking request: the continuation goes into the URL when it is
    truthy. *)
Definition get_collections (env : Indexer) (i : nat) (continuation : option string)
  : Eff (list RefreshEvent) CollectionsResponse :=
  let c := if truthy_opt continuation then continuation else None in
  λ t, (collections_v5 env i c, t ++ [EvGetCollections 20 c]).

Definition get_token_ids (env : Indexer) (k : nat) (c : Collection)
  : Eff (list RefreshEvent) (list string) :=
  λ t, (tokens_ids_v1 env k (id c), t ++ [EvGetTokenIds (id c) 50]).

Definition add (env : Indexer) (toAdd : list FetchOffersCollection) (flag : bool)
  : Eff (list RefreshEvent) unit :=
  λ t, (match add_fault env with Some e => Throw e | None => Normal () end,
        t ++ [EvAdd toAdd flag]).

(** [_.sample(tokens)] with the random number [r] drawn for it. *)
Definition sample (r : nat) (tokens : list string) : option string :=
  match length tokens with
  | O => None
  | S _ => tokens !! (r mod length tokens)%nat
  end.

(** [Math.ceil(a / b)] on integers, [b] positive. *)
Definition ceil_div (a b : Z) : Z := - ((- a) / b).

(** [for (let i = 0; i < Math.ceil(MAX_FETCH_OFFERS_COLLECTIONS / 20); i++)]:
    [todo] counts the iterations left. *)
Fixpoint collect_pages (env : Indexer) (todo i : nat)
  (continuation : option string) (collections : list Collection)
  : Eff (list RefreshEvent) (list Collection) :=
  match todo with
  | O => mret collections
  | S todo' =>
      response ← get_collections env i continuation;
      let collections := collections ++ SeaportSync.collections response in
      let continuation := SeaportSync.continuation response in
      if (length (SeaportSync.collections response) <? 20)%nat
      then mret collections
      else collect_pages env todo' (S i) continuation collections
  end.

(** [for (const collection of collections) { try { ... } catch { ... } }] *)
Fixpoint sample_collections (env : Indexer) (k : nat) (collections : list Collection)
  (fetchOffersCollectionToAdd : list FetchOffersCollection)
  : Eff (list RefreshEvent) (list FetchOffersCollection) :=
  match collections with
  | [] => mret fetchOffersCollectionToAdd
  | c :: rest =>
      toAdd ← try_catch_eff
        (tokens ← get_token_ids env k c;
         mret (fetchOffersCollectionToAdd
               ++ [{| collection := id c;
                      foc_contract := primaryContract c;
                      tokenId := sample (random env k) tokens |}]))
        (λ error,
           log_error "refresh_collections"
             ("Failed to refresh collection. collectionId=" +:+ id c);;
           mret fetchOffersCollectionToAdd);
      sample_collections env (S k) rest toAdd
  end.

Definition refreshCollectionsToFetchOffers (env : Indexer)
  : Eff (list RefreshEvent) unit :=
  try_catch_eff
    (collections ←
       collect_pages env (Z.to_nat (ceil_div MAX_FETCH_OFFERS_COLLECTIONS 20))
         0%nat None [];
     if (0 <? length collections)%nat then
       toAdd ← sample_collections env 0%nat collections [];
       add env toAdd true
     else mret ())
    (λ error, log_error "refresh_collections" "Failed.").

(** ** Reading traces *)

Definition is_request (ev : Event) : bool :=
  match ev with EvRequest _ => true | _ => false end.

Definition is_insert (ev : Event) : bool :=
  match ev with EvInsert _ => true | _ => false end.

Definition is_get_collections (ev : RefreshEvent) : bool :=
  match ev with EvGetCollections _ _ => true | _ => false end.

Definition is_get_token_ids (ev : RefreshEvent) : bool :=
  match ev with EvGetTokenIds _ _ => true | _ => false end.

(** The frame [f] with the events [evs] appended to the trace of its
    world. *)
Definition after (evs : list Event) (f : Frame) : Frame :=
  {| cursor := cursor f; total := total f; done := done f;
     world := {| store := store (world f); trace := trace (world f) ++ evs |} |}.

(** [n] rounds of request and wait. *)
Fixpoint retries (n : nat) (url : OrdersUrl) : list Event :=
  match n with
  | O => []
  | S n' => EvRequest (GetOrders url) :: EvSleep 5000 :: retries n' url
  end.

(** ** More readings of traces *)

Definition is_enqueue (ev : Event) : bool :=
  match ev with EvEnqueue _ _ => true | _ => false end.

Definition is_sleep (ev : Event) : bool :=
  match ev with EvSleep _ => true | _ => false end.

Definition is_add (ev : RefreshEvent) : bool :=
  match ev with EvAdd _ _ => true | _ => false end.

(** A string without capital letters. *)
Definition lowercase (s : string) : Prop := toLowerCase s = s.

(** A row whose hash, target and maker are in lower case and whose source
    is "opensea". *)
Definition row_lowercase (r : Row) : Prop :=
  lowercase (hash r) ∧ lowercase (target r) ∧ lowercase (row_maker r)
  ∧ source r = "opensea".

(** What a one-page fetch calls, and what it does to the table, by the
    handler it uses: one request first, then no request and no wait, at
    most one insert and one enqueue; the table is as it was, or is what the
    insert of the rows of the page made of it. *)
Definition one_page_shape (handle : SeaportOrder → Arrays → Completion Arrays)
  (round : Round) (w w' : World) : Prop :=
  ∃ req evs,
    trace w' = trace w ++ EvRequest req :: evs
    ∧ List.filter is_request evs = []
    ∧ List.filter is_sleep evs = []
    ∧ (length (List.filter is_insert evs) ≤ 1)%nat
    ∧ (length (List.filter is_enqueue evs) ≤ 1)%nat
    ∧ (store w' = store w
       ∨ ∃ response parsedOrders values,
           reply round = Normal response
           ∧ fanOut handle (orders response) ([], []) = Normal (parsedOrders, values)
           ∧ store w' = (insertOnConflictDoNothing values (store w)).1).

(** The probes of the collections whose token request succeeds, in the
    order of the ranking; [k] is the position of the first collection. *)
Fixpoint probes_of (env : Indexer) (k : nat) (collections : list Collection)
  : list FetchOffersCollection :=
  match collections with
  | [] => []
  | c :: rest =>
      match tokens_ids_v1 env k (id c) with
      | Normal tokens =>
          {| collection := id c; foc_contract := primaryContract c;
             tokenId := sample (random env k) tokens |} :: probes_of env (S k) rest
      | Throw _ => probes_of env (S k) rest
      end
  end.

(** ** getCollectionsToFetchOffers *)

Inductive CollectionsEvent :=
| EvCount
| EvGetAll
| EvRefresh (ev : RefreshEvent)
| EvLogGetCollectionsFailed.

(** What the stored probe set answers during one call: to [count()] and
    to [getAll()]. *)
Record ProbeStore := mkProbeStore {
  count_answer : Completion Z;
  getAll_answer : Completion (list FetchOffersCollection)
}.

Definition count (ps : ProbeStore) : Eff (list CollectionsEvent) Z :=
  λ t, (count_answer ps, t ++ [EvCount]).

Definition getAll (ps : ProbeStore)
  : Eff (list CollectionsEvent) (list FetchOffersCollection) :=
  λ t, (getAll_answer ps, t ++ [EvGetAll]).

(** The refresh run from within the call: its calls are recorded in order
    after those already made. *)
Definition refresh_within (env : Indexer) : Eff (list CollectionsEvent) unit :=
  λ t, let r := refreshCollectionsToFetchOffers env [] in
       (r.1, t ++ (EvRefresh <$> r.2)).

Definition getCollectionsToFetchOffers (ps : ProbeStore) (env : Indexer)
  : Eff (list CollectionsEvent) (list FetchOffersCollection) :=
  try_catch_eff
    (fetchOffersCollectionsCount ← count ps;
     (if decide (fetchOffersCollectionsCount = 0) then refresh_within env
      else mret ());;
     getAll ps)
    (λ error, λ t, (Normal [], t ++ [EvLogGetCollectionsFailed])).

End SeaportSync.

(* ================================================================== *)
(** * The realtime worker *)
(* ================================================================== *)

Module Realtime.
Import Seaport.

Definition REALTIME_QUEUE_NAME : string := "realtime-coinbase-sync".

Definition cacheKey : string := "coinbase-sync-last".

Record Job := mkJob { attemptsMade : nat }.

Inductive Event :=
| EvRedisGet (key : string)
| EvFetchOrdersByPageToken (side : Side) (pageToken : string)
| EvRedisSet (key value : string)
| EvLogError (component : string)
| EvReleaseLock (name : string) (flag : bool).

(** The keyed cache and the trace of calls. *)
Record World := mkWorld {
  cache : gmap string string;
  trace : list Event
}.

Definition record (ev : Event) (w : World) : World :=
  {| cache := cache w; trace := trace w ++ [ev] |}.

(** What the outside does during one run: whether the cache read or write
    fails, and what [fetchOrdersByPageToken] of the sync's [utils], which
    is not part of the sources, completes with for a side and a starting
    token: the first element of the array it returns ([None] for [null]
    or [undefined]), or a throw. *)
Record Env := mkEnv {
  get_fault : option Error;
  fetchOrdersByPageToken : Side → string → Completion (option string);
  set_fault : option Error
}.

Definition redis_get (env : Env) (key : string) : Eff World (option string) :=
  λ w, (match get_fault env with Some e => Throw e | None => Normal (cache w !! key) end,
        record (EvRedisGet key) w).

(** [redis.set]: overwrites the value of the key; a failing call writes
    nothing. *)
Definition redis_set (env : Env) (key value : string) : Eff World unit :=
  λ w,
    match set_fault env with
    | Some e => (Throw e, record (EvRedisSet key value) w)
    | None =>
        (Normal (),
         {| cache := <[key := value]> (cache w);
            trace := trace w ++ [EvRedisSet key value] |})
    end.

Definition call_fetchOrdersByPageToken (env : Env) (side : Side) (pageToken : string)
  : Eff World (option string) :=
  λ w, (fetchOrdersByPageToken env side pageToken,
        record (EvFetchOrdersByPageToken side pageToken) w).

Definition log_error (component : string) : Eff World unit :=
  λ w, (Normal (), record (EvLogError component) w).

Definition releaseLock (name : string) (flag : bool) : Eff World unit :=
  λ w, (Normal (), record (EvReleaseLock name flag) w).

(** The processor of the worker: the whole body is one [try], whose
    [catch] logs. *)
Definition processor (env : Env) (job : Job) : Eff World unit :=
  try_catch_eff
    (pageTokenCache ← redis_get env cacheKey;
     let pageTokenCache := default "" pageTokenCache in
     newPageToken ← call_fetchOrdersByPageToken env sell pageTokenCache;
     (* Set the new pageToken for the next job *)
     match newPageToken with
     | Some t => if truthy t then redis_set env cacheKey t else mret ()
     | None => mret ()
     end)
    (λ error, log_error REALTIME_QUEUE_NAME).

(** [realtimeWorker.on("completed", ...)] *)
Definition on_completed (job : Job) : Eff World unit :=
  (* Release the lock to allow the next sync *)
  releaseLock "coinbase-sync-lock" false.

Inductive JobState := completed | failed (e : Error).

(** One job taken by the worker: the queue library runs the processor and
    emits "completed" when it resolves, "failed" when it rejects; only
    "completed" has a listener. *)
Definition run_job (env : Env) (job : Job) (w : World) : JobState * World :=
  match processor env job w with
  | (Normal _, w') => (completed, (on_completed job w').2)
  | (Throw e, w') => (failed e, w')
  end.

(** The worker exists in a process only [if (config.doRealtimeWork)]. *)
Definition realtimeWorker (config : Config) (env : Env) (job : Job) (w : World)
  : option (JobState * World) :=
  if doRealtimeWork config then Some (run_job env job w) else None.

End Realtime.

(* ================================================================== *)
(** * A concrete library and concrete records *)
(* ================================================================== *)

Module Fixture.
Import Seaport SeaportSync.

Definition exchange_v14 : string := "0x00000000000001ad428e4906ae43d8f9852d0dd6".
Definition exchange_v15 : string := "0x00000000000000adc04c56bf30ac9d3c0aaf14dc".

(** A small order library: both protocol versions are deployed on chain 1;
    an order is its components; construction refuses an order that offers
    nothing; the contract of an order is the token of its first offer
    item. *)
Definition sdk : Sdk :=
  {| Order := OrderComponents;
     Exchange := λ k c,
       if decide (c = 1)
       then Some (match k with SeaportV14 => exchange_v14 | SeaportV15 => exchange_v15 end)
       else None;
     newOrder := λ k c oc,
       match oc_offer oc with
       | [] => Throw {| message := "Could not detect order kind"; response_status := None |}
       | _ :: _ => Normal oc
       end;
     params := λ o, o;
     getInfo := λ o,
       match oc_offer o with
       | item :: _ => Some {| contract := token item |}
       | [] => None
       end |}.

Definition mainnet : Config := {| chainId := 1; doRealtimeWork := true |}.

Definition nft (tok : string) : OfferItem :=
  {| offer_itemType := 2; token := tok; offer_identifierOrCriteria := "1";
     offer_startAmount := "1"; offer_endAmount := "1" |}.

Definition record_of (h addr : string) (items : list OfferItem) : SeaportOrder :=
  {| created_date := "2023-05-01T00:00:00";
     order_hash := h;
     Seaport.maker := {| address := "0xMaKeR" |};
     protocol_address := addr;
     protocol_data :=
       {| parameters :=
            {| offerer := "0xMaKeR"; zone := "0x00"; zoneHash := "0x00";
               conduitKey := "0x00"; salt := "1"; consideration := [];
               offer := items; counter := 0; orderType := 0;
               startTime := 0; endTime := 10 |};
          signature := "0xsig" |};
     client_signature := "" |}.

(** A record of protocol version 1.5 with one offer item. *)
Definition good : SeaportOrder := record_of "0xAA01" exchange_v15 [nft "0xC0FFEE"].

(** A record signed for an address that is no known exchange. *)
Definition unknown : SeaportOrder := record_of "0xBB02" "0xdeadbeef" [nft "0xF00D"].

(** The same with nothing on offer. *)
Definition unknown_empty : SeaportOrder := record_of "0xCC03" "0xdeadbeef" [].

(** A record of a known protocol version that the library refuses. *)
Definition refused : SeaportOrder := record_of "0xDD04" exchange_v14 [].

Definition page (l : list SeaportOrder) (c : option string) : Round :=
  {| reply := Normal {| orders := l; next := c |};
     db_fault := None; queue_fault := None |}.

Definition error_429 : Error :=
  {| message := "Request failed with status code 429"; response_status := Some 429 |}.

Definition error_500 : Error :=
  {| message := "Request failed with status code 500"; response_status := Some 500 |}.

Definition rate_limited : Round :=
  {| reply := Throw error_429; db_fault := None; queue_fault := None |}.

Definition server_error : Round :=
  {| reply := Throw error_500; db_fault := None; queue_fault := None |}.

Definition empty_world : World := {| store := ∅; trace := [] |}.

Definition row_of (h tgt : string) : Row :=
  {| hash := h; target := tgt; row_maker := "0xmaker";
     created_at := "2023-05-01T00:00:00";
     data := protocol_data good; source := "opensea" |}.

(** A table that holds one row. *)
Definition one_row_table : gmap string Row := {[ "0xaa01" := row_of "0xaa01" "0xc0ffee" ]}.

(** A world in which the rows of [good] and [unknown] are stored. *)
Definition synced_world : World :=
  {| store := <["0xbb02" := row_of "0xbb02" "0xf00d"]> one_row_table; trace := [] |}.

(** The URL of the first listings request on chain 1, and of the request
    that carries a cursor. *)
Definition first_page_url : OrdersUrl :=
  "https://api.opensea.io/v2/orders/ethereum/seaport/listings?order_by=created_date&limit=50&order_direction=desc".

Definition page_url (c : string) : OrdersUrl :=
  first_page_url +:+ "&cursor=" +:+ c.

(** A request for offers on one contract, with a cursor that holds a
    space, a [%] and a [/]. *)
Definition offers_by_contract : FetchOrdersParams :=
  {| p_overrideBaseUrl := None; p_side := buy; p_orderBy := None;
     p_orderDirection := None; p_contract := Some "0xc0ffee"; p_limit := Some 50;
     p_cursor := Some "a b%41/c"; p_listedBefore := None; p_listedAfter := None |}.

(** A request whose override of the base holds a stray [%]. *)
Definition stray_percent_override : FetchOrdersParams :=
  {| p_overrideBaseUrl := Some "http://h/%"; p_side := sell; p_orderBy := None;
     p_orderDirection := None; p_contract := None; p_limit := None;
     p_cursor := None; p_listedBefore := None; p_listedAfter := None |}.

(** A run that has read one page and holds its cursor. *)
Definition second_page_frame : Frame :=
  {| cursor := Some "c1"; total := 50; done := false; world := empty_world |}.

(** A run whose cursor holds a space, a [%] and a [/]. *)
Definition escaped_cursor_frame : Frame :=
  {| cursor := Some "a b%41/c"; total := 50; done := false; world := empty_world |}.

Definition first_page_frame (w : World) : Frame :=
  {| cursor := None; total := 0; done := false; world := w |}.

(** The ranking of the fixture: one short page of two collections. *)
Definition ranked : list Collection :=
  [{| id := "punks"; primaryContract := "0xb47e" |};
   {| id := "azuki"; primaryContract := "0xed5a" |}].

(** An indexer that ranks these two collections, fails on the tokens of
    the first and knows two tokens of the second; every draw is 0. *)
Definition indexer : Indexer :=
  {| collections_v5 := λ i c, Normal {| collections := ranked; continuation := None |};
     tokens_ids_v1 := λ k c, match k with
                             | O => Throw error_500
                             | S _ => Normal ["7"; "8"]
                             end;
     random := λ k, 0%nat;
     add_fault := None |}.




(** A realtime run in which the cache works and the fetch completes as
    given. *)
Definition sync_env (outcome : Completion (option string)) : Realtime.Env :=
  {| Realtime.get_fault := None;
     Realtime.fetchOrdersByPageToken := λ _ _, outcome;
     Realtime.set_fault := None |}.

Definition cold_cache : Realtime.World :=
  {| Realtime.cache := ∅; Realtime.trace := [] |}.

Definition first_job : Realtime.Job := {| Realtime.attemptsMade := 0 |}.

(** A chain the URL builder does not know. *)
Definition bsc : Config := {| chainId := 56; doRealtimeWork := false |}.

(** A run capped at 50 records. *)
Definition capped : Details :=
  {| apiKey := None; overrideBaseUrl := None; d_contract := None; maxOrders := Some 50 |}.

Definition uncapped (m : option Z) : Details :=
  {| apiKey := None; overrideBaseUrl := None; d_contract := None; maxOrders := m |}.

(** An indexer whose ranking source is down. *)
Definition ranking_down : Indexer :=
  {| collections_v5 := λ i c, Throw error_500;
     tokens_ids_v1 := λ k c, Normal ["7"; "8"];
     random := λ k, 0%nat;
     add_fault := None |}.

(** An indexer that ranks the two collections and fails on every token
    request. *)
Definition tokens_down : Indexer :=
  {| collections_v5 := λ i c, Normal {| collections := ranked; continuation := None |};
     tokens_ids_v1 := λ k c, Throw error_500;
     random := λ k, 0%nat;
     add_fault := None |}.

Definition azuki_probe : FetchOffersCollection :=
  {| collection := "azuki"; foc_contract := "0xed5a"; tokenId := Some "7" |}.

(** A probe set that counts [n] probes and lists one. *)
Definition probe_store (n : Z) : ProbeStore :=
  {| count_answer := Normal n; getAll_answer := Normal [azuki_probe] |}.

(** A cache that holds the token "abc123" and the value of another key. *)
Definition warm_cache : Realtime.World :=
  {| Realtime.cache := <[Realtime.cacheKey := "abc123"]> {[ "other" := "kept" ]};
     Realtime.trace := [] |}.

End Fixture.

(* ================================================================== *)
(** * Proof steps used throughout *)
(* ================================================================== *)

(** Runs a computation of [Eff] one bind at a time. *)
Ltac run_eff := unfold mbind, eff_bind; simpl.

(** Closes a goal that says a trace has grown by some events. *)
Ltac trace_grows := simpl; eexists; rewrite <- ?app_assoc; simpl; reflexivity.

(** Closes a goal that says no event of a short, explicit list is of a
    given shape. *)
Ltac not_among :=
  let Hin := fresh "Hin" in
  intros Hin; apply list_elem_of_In in Hin; simpl in Hin; intuition discriminate.

(** Closes the description of the calls of a one-page fetch: the events
    after the request, their counts, and the table. *)
Ltac page_calls :=
  simpl; eexists _, _;
  (split; [rewrite <- ?app_assoc; simpl; reflexivity|]);
  simpl; repeat split; try lia; try discriminate;
  first [by left | right; by eexists _, _, _].

(* ================================================================== *)
(** * Properties *)
(* ================================================================== *)

Import Seaport.

(** ** The order parser *)

(** ** The text of a URL *)

Section UrlText.

Lemma string_app_cons (x : ascii) (a b : string) : String x a +:+ b = String x (a +:+ b).
Proof. reflexivity. Qed.

Lemma string_app_nil_l (b : string) : "" +:+ b = b.
Proof. reflexivity. Qed.

Lemma string_app_assoc (a b c : string) : (a +:+ b) +:+ c = a +:+ (b +:+ c).
Proof.
  induction a as [|x a IH]; [reflexivity|].
  by rewrite !string_app_cons, IH.
Qed.

Lemma string_app_nil_r (a : string) : a +:+ "" = a.
Proof.
  induction a as [|x a IH]; [reflexivity|].
  by rewrite string_app_cons, IH.
Qed.

Lemma decode_run_app (d : Decoder) (a b : string) :
  decode_run d (a +:+ b) = d' ← decode_run d a; decode_run d' b.
Proof.
  revert d. induction a as [|c a IH]; intros d; [reflexivity|].
  rewrite string_app_cons. simpl.
  destruct (decode_step d c) as [d'|e]; simpl; [apply IH | reflexivity].
Qed.

Lemma decodes_run (s t text : string) :
  decodes s t → decode_run (ready text) s = Normal (ready (text +:+ t)).
Proof. intros Hd. specialize (Hd text ""). by rewrite string_app_nil_r in Hd. Qed.

Lemma decodes_decodeURI (s t : string) : decodes s t → decodeURI s = Normal t.
Proof. intros Hd. unfold decodeURI. by rewrite (decodes_run s t "" Hd). Qed.

Lemma decodes_nil : decodes "" "".
Proof. intros text rest. by rewrite string_app_nil_l, string_app_nil_r. Qed.

Lemma decodes_app (a b ta tb : string) :
  decodes a ta → decodes b tb → decodes (a +:+ b) (ta +:+ tb).
Proof.
  intros Ha Hb text rest.
  by rewrite string_app_assoc, Ha, Hb, string_app_assoc.
Qed.

(** A character other than [%] stands for itself. *)
Lemma decodes_plain (c : ascii) : c ≠ "%"%char → decodes (String c "") (String c "").
Proof.
  intros Hc text rest. rewrite string_app_cons, string_app_nil_l. simpl.
  unfold decode_step. simpl.
  by destruct (decide (c = "%"%char)).
Qed.

Lemma hex_roundtrip (b : ascii) :
  hex_value (hex_digit (code b / 16)) = Some (code b / 16)%nat
  ∧ hex_value (hex_digit (code b mod 16)) = Some (code b mod 16)%nat
  ∧ ascii_of_nat (16 * (code b / 16) + code b mod 16) = b.
Proof. destruct b as [[] [] [] [] [] [] [] []]; vm_compute; done. Qed.

Lemma decode_run_cons (d : Decoder) (c : ascii) (s : string) :
  decode_run d (String c s) = d' ← decode_step d c; decode_run d' s.
Proof. reflexivity. Qed.

Lemma bind_Normal {A B} (a : A) (k : A → Completion B) : Normal a ≫= k = k a.
Proof. reflexivity. Qed.

(** Reading the escape of a byte hands the byte to [complete_octet]. *)
Lemma decode_escape (d : Decoder) (b : ascii) (rest : string) :
  phase d = Outside →
  decode_run d (percent_encode b +:+ rest)
  = d' ← complete_octet d (hex_digit (code b / 16)) (hex_digit (code b mod 16)) b;
    decode_run d' rest.
Proof.
  intros Hp. destruct (hex_roundtrip b) as (Hh & Hl & Hb).
  destruct d as [text ph os n]. simpl in Hp. subst ph.
  unfold percent_encode. rewrite !string_app_cons, string_app_nil_l.
  rewrite decode_run_cons.
  assert (H1 : decode_step {| decoded := text; phase := Outside; octets := os; need := n |} "%"
               = Normal {| decoded := text; phase := AfterPercent; octets := os; need := n |})
    by reflexivity.
  rewrite H1, bind_Normal, decode_run_cons.
  assert (H2 : decode_step {| decoded := text; phase := AfterPercent; octets := os; need := n |}
                 (hex_digit (code b / 16))
               = Normal {| decoded := text; phase := AfterHigh (hex_digit (code b / 16));
                           octets := os; need := n |}).
  { unfold decode_step. cbn [phase]. by rewrite Hh. }
  rewrite H2, bind_Normal, decode_run_cons.
  assert (H3 : decode_step {| decoded := text; phase := AfterHigh (hex_digit (code b / 16));
                              octets := os; need := n |} (hex_digit (code b mod 16))
               = complete_octet {| decoded := text; phase := Outside; octets := os; need := n |}
                   (hex_digit (code b / 16)) (hex_digit (code b mod 16)) b).
  { unfold decode_step. cbn [phase]. by rewrite Hh, Hl, Hb. }
  by rewrite H3.
Qed.

Lemma safe_not_percent (b : ascii) : urlencoded_safe b = true → b ≠ "%"%char.
Proof. intros Hs ->. vm_compute in Hs. discriminate. Qed.

Lemma decodes_percent_ascii (b : ascii) :
  (code b < 128)%nat →
  decodes (percent_encode b) (if uri_reserved b then percent_encode b else String b "").
Proof.
  intros Hb text rest. rewrite decode_escape by reflexivity.
  unfold complete_octet. cbn [need ready decoded].
  apply Nat.ltb_lt in Hb. rewrite Hb. reflexivity.
Qed.

Lemma decodes_urlencode_octet (b : ascii) :
  (code b < 128)%nat → ∃ t, decodes (urlencode_octet b) t.
Proof.
  intros Hb. unfold urlencode_octet.
  destruct (urlencoded_safe b) eqn:Hs.
  { eexists. apply decodes_plain. by apply safe_not_percent. }
  destruct (code b =? 32)%nat.
  { eexists. by apply decodes_plain. }
  eexists. by apply decodes_percent_ascii.
Qed.

Lemma leading_ones_not_ascii (b : ascii) :
  (2 ≤ leading_ones b)%nat → (code b <? 128)%nat = false.
Proof. unfold leading_ones. destruct (code b <? 128)%nat; [lia | done]. Qed.

(** A leading byte opens a code point. *)
Lemma decode_leading (text : string) (b : ascii) (rest : string) :
  (2 ≤ leading_ones b ≤ 4)%nat →
  decode_run (ready text) (percent_encode b +:+ rest)
  = decode_run {| decoded := text; phase := Outside; octets := [b];
                  need := leading_ones b - 1 |} rest.
Proof.
  intros Hl. rewrite decode_escape by reflexivity.
  unfold complete_octet. cbn [need ready decoded].
  rewrite leading_ones_not_ascii by lia.
  replace ((2 <=? leading_ones b) && (leading_ones b <=? 4))%nat with true; [done|].
  symmetry. apply andb_true_iff. split; apply Nat.leb_le; lia.
Qed.

(** A continuation byte inside a code point. *)
Lemma decode_continuation (text : string) (os : list ascii) (k : nat) (b : ascii)
  (rest : string) :
  is_continuation b = true →
  decode_run {| decoded := text; phase := Outside; octets := os; need := S (S k) |}
    (percent_encode b +:+ rest)
  = decode_run {| decoded := text; phase := Outside; octets := os ++ [b]; need := S k |} rest.
Proof.
  intros Hc. rewrite decode_escape by reflexivity.
  unfold complete_octet. cbn [need decoded octets]. by rewrite Hc.
Qed.

(** The last byte of a valid code point. *)
Lemma decode_last (text : string) (os : list ascii) (b : ascii) (rest : string) :
  is_continuation b = true → utf8_valid (os ++ [b]) = true →
  decode_run {| decoded := text; phase := Outside; octets := os; need := 1 |}
    (percent_encode b +:+ rest)
  = decode_run (ready (text +:+ String.string_of_list_ascii (os ++ [b]))) rest.
Proof.
  intros Hc Hv. rewrite decode_escape by reflexivity.
  unfold complete_octet. cbn [need decoded octets]. by rewrite Hc, Hv.
Qed.

Lemma decodes_utf8_2 (b1 b2 : ascii) :
  utf8_valid [b1; b2] = true →
  decodes (percent_encode b1 +:+ percent_encode b2) (String b1 (String b2 "")).
Proof.
  intros Hv text rest. pose proof Hv as Hv'.
  cbn [utf8_valid] in Hv'. rewrite !andb_true_iff in Hv'.
  destruct Hv' as [[H1 _] H2]. apply Nat.eqb_eq in H1.
  rewrite string_app_assoc, decode_leading by lia. rewrite H1. cbn [Nat.sub].
  by rewrite (decode_last text [b1] b2).
Qed.

Lemma decodes_utf8_3 (b1 b2 b3 : ascii) :
  utf8_valid [b1; b2; b3] = true →
  decodes (percent_encode b1 +:+ percent_encode b2 +:+ percent_encode b3)
          (String b1 (String b2 (String b3 ""))).
Proof.
  intros Hv text rest. pose proof Hv as Hv'.
  cbn [utf8_valid] in Hv'. rewrite !andb_true_iff in Hv'.
  destruct Hv' as [[[[H1 H2] H3] _] _]. apply Nat.eqb_eq in H1.
  rewrite !string_app_assoc, decode_leading by lia. rewrite H1. cbn [Nat.sub].
  rewrite (decode_continuation text [b1] 0 b2) by done.
  by rewrite (decode_last text ([b1] ++ [b2]) b3).
Qed.

Lemma decodes_utf8_4 (b1 b2 b3 b4 : ascii) :
  utf8_valid [b1; b2; b3; b4] = true →
  decodes (percent_encode b1 +:+ percent_encode b2 +:+ percent_encode b3
           +:+ percent_encode b4)
          (String b1 (String b2 (String b3 (String b4 "")))).
Proof.
  intros Hv text rest. pose proof Hv as Hv'.
  cbn [utf8_valid] in Hv'. rewrite !andb_true_iff in Hv'.
  destruct Hv' as [[[[[[H1 _] H2] H3] H4] _] _]. apply Nat.eqb_eq in H1.
  rewrite !string_app_assoc, decode_leading by lia. rewrite H1. cbn [Nat.sub].
  rewrite (decode_continuation text [b1] 1 b2) by done.
  rewrite (decode_continuation text ([b1] ++ [b2]) 0 b3) by done.
  by rewrite (decode_last text (([b1] ++ [b2]) ++ [b3]) b4).
Qed.

Lemma decodes_replacement : ∃ t, decodes replacement t.
Proof.
  eexists.
  apply (decodes_utf8_3 (ascii_of_nat 239) (ascii_of_nat 191) (ascii_of_nat 189)).
  reflexivity.
Qed.

(** What [URLSearchParams] writes for a value, [decodeURI] reads without
    error, whatever the value. *)
Lemma urlencode_decodes_bounded (n : nat) (s : string) :
  (String.length s ≤ n)%nat → ∃ t, decodes (urlencode s) t.
Proof.
  revert s. induction n as [|n IH]; intros s Hn.
  { destruct s; [|simpl in Hn; lia]. exists "". apply decodes_nil. }
  destruct decodes_replacement as [tr Hr].
  destruct s as [|b1 r1]; [exists ""; apply decodes_nil|].
  simpl in Hn.
  destruct (IH r1 ltac:(lia)) as [t1 Ht1].
  cbn [urlencode].
  destruct (code b1 <? 128)%nat eqn:Hb1.
  { apply Nat.ltb_lt in Hb1. destruct (decodes_urlencode_octet b1 Hb1) as [t Ht].
    eexists. by apply decodes_app. }
  destruct r1 as [|b2 r2]; [eexists; by apply decodes_app|].
  simpl in Hn. destruct (IH r2 ltac:(lia)) as [t2 Ht2].
  destruct (utf8_valid [b1; b2]) eqn:Hv2.
  { eexists. rewrite <- string_app_assoc. apply decodes_app; [|exact Ht2].
    by apply decodes_utf8_2. }
  destruct r2 as [|b3 r3]; [eexists; by apply decodes_app|].
  simpl in Hn. destruct (IH r3 ltac:(lia)) as [t3 Ht3].
  destruct (utf8_valid [b1; b2; b3]) eqn:Hv3.
  { eexists. rewrite <- !string_app_assoc. apply decodes_app; [|exact Ht3].
    rewrite string_app_assoc. by apply decodes_utf8_3. }
  destruct r3 as [|b4 r4]; [eexists; by apply decodes_app|].
  simpl in Hn. destruct (IH r4 ltac:(lia)) as [t4 Ht4].
  destruct (utf8_valid [b1; b2; b3; b4]) eqn:Hv4.
  { eexists. rewrite <- !string_app_assoc. apply decodes_app; [|exact Ht4].
    rewrite !string_app_assoc. by apply decodes_utf8_4. }
  eexists. by apply decodes_app.
Qed.

Lemma urlencode_decodes (s : string) : ∃ t, decodes (urlencode s) t.
Proof. by apply (urlencode_decodes_bounded (String.length s)). Qed.

(** A text of safe characters is written and read back as it is. *)
Lemma urlencode_safe (s : string) : all_safe s = true → urlencode s = s.
Proof.
  induction s as [|c s IH]; [done|]. cbn [all_safe]. intros [Hc Hs]%andb_true_iff.
  cbn [urlencode].
  assert (Hlt : (code c <? 128)%nat = true).
  { unfold urlencoded_safe in Hc. cbn zeta in Hc.
    apply Nat.ltb_lt. rewrite !orb_true_iff, !andb_true_iff in Hc.
    rewrite !Nat.leb_le, !Nat.eqb_eq in Hc. lia. }
  rewrite Hlt. unfold urlencode_octet. rewrite Hc.
  by rewrite string_app_cons, string_app_nil_l, IH.
Qed.

Lemma safe_decodes (s : string) : all_safe s = true → decodes s s.
Proof.
  induction s as [|c s IH]; [intros _; apply decodes_nil|].
  cbn [all_safe]. intros [Hc Hs]%andb_true_iff.
  change (String c s) with (String c "" +:+ s).
  apply decodes_app; [|by apply IH]. apply decodes_plain. by apply safe_not_percent.
Qed.

Lemma decodes_pair (name value tv : string) :
  all_safe name = true → decodes (urlencode value) tv →
  decodes (urlencode name +:+ "=" +:+ urlencode value) (name +:+ "=" +:+ tv).
Proof.
  intros Hn Hv. rewrite (urlencode_safe name Hn).
  apply decodes_app; [by apply safe_decodes|].
  apply decodes_app; [by apply decodes_plain | done].
Qed.

(** The serialised query is read without error. *)
Lemma toString_decodes (queryParams : list (string * string)) :
  ∃ t, decodes (toString queryParams) t.
Proof.
  induction queryParams as [|[name value] rest IH]; [exists ""; apply decodes_nil|].
  destruct (urlencode_decodes name) as [tn Hn].
  destruct (urlencode_decodes value) as [tv Hv].
  destruct IH as [tr Hr].
  assert (Hp : decodes (urlencode name +:+ "=" +:+ urlencode value) (tn +:+ "=" +:+ tv)).
  { apply decodes_app; [done|]. apply decodes_app; [by apply decodes_plain | done]. }
  destruct rest as [|p rest]; [by eexists|].
  cbn [toString]. cbn [toString] in Hr.
  eexists. rewrite <- !string_app_assoc. apply decodes_app; [|exact Hr].
  apply decodes_app; [|by apply (decodes_plain "&")].
  rewrite !string_app_assoc. exact Hp.
Qed.

(** The states [decodeURI] goes through hold no stale bytes. *)
Lemma decode_step_octets (d d' : Decoder) (c : ascii) :
  (need d = 0%nat → octets d = []) → decode_step d c = Normal d' →
  need d' = 0%nat → octets d' = [].
Proof.
  intros Hwf Hs. unfold decode_step in Hs.
  destruct (phase d).
  - destruct (decide (c = "%"%char)).
    + injection Hs as <-. exact Hwf.
    + destruct (need d) eqn:Hn; [|done]. injection Hs as <-. simpl. auto.
  - destruct (hex_value c); [|done]. injection Hs as <-. exact Hwf.
  - destruct (hex_value h) as [hv|]; [|done]. destruct (hex_value c) as [lv|]; [|done].
    revert Hs. generalize (ascii_of_nat (16 * hv + lv)). intros b Hs.
    unfold complete_octet in Hs.
    destruct (need d) as [|[|k]] eqn:Hn.
    + destruct (code _ <? 128)%nat; [by injection Hs as <-|].
      destruct ((2 <=? _) && _)%nat eqn:Hl; [|done]. injection Hs as <-.
      cbn [need octets]. apply andb_true_iff in Hl as [Hl _]. apply Nat.leb_le in Hl.
      intros H0. exfalso. lia.
    + destruct (is_continuation _); [|done].
      destruct (utf8_valid _); [|done]. by injection Hs as <-.
    + destruct (is_continuation _); [|done]. injection Hs as <-. cbn [need octets].
      intros H0. discriminate H0.
Qed.

Lemma decode_run_octets (s : string) (d d' : Decoder) :
  (need d = 0%nat → octets d = []) → decode_run d s = Normal d' →
  need d' = 0%nat → octets d' = [].
Proof.
  revert d. induction s as [|c s IH]; intros d Hwf Hr.
  { injection Hr as <-. exact Hwf. }
  rewrite decode_run_cons in Hr.
  destruct (decode_step d c) as [d1|e] eqn:Hs; [|done].
  rewrite bind_Normal in Hr. eapply IH; [|exact Hr].
  by eapply decode_step_octets.
Qed.

(** Every error of [decodeURI] is the URIError. *)
Lemma decode_step_error (d : Decoder) (c : ascii) (e : Error) :
  decode_step d c = Throw e → e = URIError.
Proof.
  unfold decode_step, complete_octet.
  repeat case_match; congruence.
Qed.

Lemma decode_run_error (s : string) (d : Decoder) (e : Error) :
  decode_run d s = Throw e → e = URIError.
Proof.
  revert d. induction s as [|c s IH]; intros d Hr; [done|].
  rewrite decode_run_cons in Hr.
  destruct (decode_step d c) as [d1|e1] eqn:Hs.
  - rewrite bind_Normal in Hr. by eapply IH.
  - injection Hr as <-. by eapply decode_step_error.
Qed.

(** A decoded query after a base: the whole decodes exactly when the
    base does, to the decoded base followed by [?] and the decoded
    query. *)
Lemma decodeURI_query (base query tq : string) :
  decodes query tq →
  decodeURI (base +:+ "?" +:+ query)
  = (λ b, b +:+ "?" +:+ tq) <$> decodeURI base.
Proof.
  intros Hq. unfold decodeURI. rewrite decode_run_app.
  destruct (decode_run (ready "") base) as [d|e] eqn:Hb; [|reflexivity].
  rewrite !bind_Normal.
  pose proof (decode_run_octets base (ready "") d (λ _, eq_refl) Hb) as Hos.
  destruct d as [text ph os n]. cbn [phase need decoded octets] in *.
  destruct ph as [| |h].
  - destruct n as [|n].
    + rewrite Hos by done.
      assert (Hd : decodes ("?" +:+ query) ("?" +:+ tq))
        by (apply decodes_app; [by apply decodes_plain | done]).
      fold (ready text). rewrite (decodes_run _ _ text Hd). reflexivity.
    + reflexivity.
  - reflexivity.
  - rewrite string_app_cons, decode_run_cons. unfold decode_step. cbn [phase].
    destruct (hex_value h); reflexivity.
Qed.

Lemma decodeURI_error (s : string) (e : Error) : decodeURI s = Throw e → e = URIError.
Proof.
  unfold decodeURI. destruct (decode_run (ready "") s) as [d|e'] eqn:Hr.
  - rewrite bind_Normal. repeat case_match; congruence.
  - intros [= <-]. by eapply decode_run_error.
Qed.

End UrlText.

Section ParserProperties.
Context `{Sdk} (config : Config).

Lemma parseSeaportOrder_total (o : SeaportOrder) :
  ∃ r, parseSeaportOrder config o = Normal r.
Proof.
  unfold parseSeaportOrder, try_catch.
  destruct (parseSeaportOrder_try config o) as [r|e]; eauto.
Qed.

Lemma parseSeaportOrder_no_match (o : SeaportOrder) :
  Exchange SeaportV14 (chainId config) ≠ Some (protocol_address o) →
  Exchange SeaportV15 (chainId config) ≠ Some (protocol_address o) →
  parseSeaportOrder config o = Normal None.
Proof.
  intros H14 H15. unfold parseSeaportOrder, parseSeaportOrder_try.
  destruct (decide (Some (protocol_address o) = Exchange SeaportV14 (chainId config)))
    as [E|_]; [by rewrite <- E in H14|].
  destruct (decide (Some (protocol_address o) = Exchange SeaportV15 (chainId config)))
    as [E|_]; [by rewrite <- E in H15|].
  reflexivity.
Qed.

Lemma parseSeaportOrder_construction_throws (o : SeaportOrder) (k : Kind) (e : Error) :
  Exchange k (chainId config) = Some (protocol_address o) →
  (k = SeaportV15 → Exchange SeaportV14 (chainId config) ≠ Some (protocol_address o)) →
  newOrder k (chainId config) (orderComponent o) = Throw e →
  parseSeaportOrder config o = Normal None.
Proof.
  intros Hk Hprio Hthrow. unfold parseSeaportOrder, parseSeaportOrder_try.
  destruct k.
  - rewrite decide_True by done. by rewrite Hthrow.
  - rewrite decide_False by (intros E; by apply Hprio).
    rewrite decide_True by done. by rewrite Hthrow.
Qed.

(** C5. [parseSeaportOrder] returns absent for a record whose protocol
    address is the exchange address of neither protocol version on the
    chain, returns absent when the constructor of the selected version
    throws, and in every case completes normally: no exception reaches
    the caller. *)
Theorem parseSeaportOrder_absent_never_throws (o : SeaportOrder) :
  (Exchange SeaportV14 (chainId config) ≠ Some (protocol_address o) →
   Exchange SeaportV15 (chainId config) ≠ Some (protocol_address o) →
   parseSeaportOrder config o = Normal None)
  ∧ (∀ k e,
       Exchange k (chainId config) = Some (protocol_address o) →
       (k = SeaportV15 →
        Exchange SeaportV14 (chainId config) ≠ Some (protocol_address o)) →
       newOrder k (chainId config) (orderComponent o) = Throw e →
       parseSeaportOrder config o = Normal None)
  ∧ (∃ r, parseSeaportOrder config o = Normal r).
Proof.
  split; [apply parseSeaportOrder_no_match|].
  split; [intros k e; apply parseSeaportOrder_construction_throws|].
  apply parseSeaportOrder_total.
Qed.

End ParserProperties.

Lemma parseSeaportOrder_absent_never_throws_witness :
  parseSeaportOrder (H := Fixture.sdk) Fixture.mainnet Fixture.unknown = Normal None
  ∧ parseSeaportOrder (H := Fixture.sdk) Fixture.mainnet Fixture.refused = Normal None.
Proof.
  split.
  - apply (parseSeaportOrder_absent_never_throws (H := Fixture.sdk)
             Fixture.mainnet Fixture.unknown); vm_compute; congruence.
  - destruct (parseSeaportOrder_absent_never_throws (H := Fixture.sdk)
                Fixture.mainnet Fixture.refused) as (_ & Hthrow & _).
    apply (Hthrow SeaportV14
             {| message := "Could not detect order kind"; response_status := None |});
      vm_compute; congruence.
Defined.

(** ** The dedup persistence gate *)

Import SeaportSync.

Section GateProperties.
Implicit Types (values : list Row) (table : gmap string Row) (r : Row).

(** A row already in the table stays as it is, whatever is inserted. *)
Lemma insert_preserves values : ∀ table n h r,
  table !! h = Some r →
  (foldl insert_row (table, n) values).1 !! h = Some r.
Proof.
  induction values as [|v values IH]; intros table n h r Hh; [done|].
  simpl. unfold insert_row at 2. simpl.
  destruct (table !! hash v) eqn:Hv.
  - by apply IH.
  - apply IH. rewrite lookup_insert_ne; [done|]. intros E. subst h. congruence.
Qed.

(** After the statement, the hash of every submitted row is in the table. *)
Lemma insert_covers values : ∀ table n r,
  r ∈ values →
  is_Some ((foldl insert_row (table, n) values).1 !! hash r).
Proof.
  induction values as [|v values IH]; intros table n r Hr.
  - by apply elem_of_nil in Hr.
  - simpl. apply elem_of_cons in Hr as [->|Hr];
      [|destruct (insert_row (table, n) v) as [t' n']; by apply IH].
    unfold insert_row at 2. simpl.
    destruct (table !! hash v) eqn:Hv.
    + eexists. eapply insert_preserves. exact Hv.
    + eexists. eapply insert_preserves. apply lookup_insert_eq.
Qed.

(** Rows whose hashes are all present are all skipped. *)
Lemma insert_all_present values : ∀ table n,
  (∀ r, r ∈ values → is_Some (table !! hash r)) →
  foldl insert_row (table, n) values = (table, n).
Proof.
  induction values as [|v values IH]; intros table n Hall; [done|].
  simpl. unfold insert_row at 2. simpl.
  destruct (Hall v) as [x Hx]; [by left|]. rewrite Hx.
  apply IH. intros r Hr. apply Hall. by right.
Qed.

(** The count the statement returns is the growth of the table. *)
Lemma insert_count values : ∀ table n,
  (size (foldl insert_row (table, n) values).1 + n
   = size table + (foldl insert_row (table, n) values).2)%nat.
Proof.
  induction values as [|v values IH]; intros table n; [done|].
  simpl. unfold insert_row at 2 4. simpl.
  destruct (table !! hash v) eqn:Hv; [apply IH|].
  specialize (IH (<[hash v := v]> table) (S n)).
  rewrite map_size_insert_None in IH by done. lia.
Qed.

(** C4. Submitting a batch to the gate a second time leaves the table as
    the first submission left it and reports zero newly inserted rows, on
    the statement and on the call that runs it; a row of the table is
    never changed by a submission, and a row whose hash is already present
    is skipped. *)
Theorem gate_idempotent values table :
  let once := insertOnConflictDoNothing values table in
  insertOnConflictDoNothing values once.1 = (once.1, 0%nat)
  ∧ (∀ w, store w = table →
       let first := manyOrNone values None w in
       let second := manyOrNone values None first.2 in
       first.1 = Normal once.2
       ∧ store first.2 = once.1
       ∧ second.1 = Normal 0%nat
       ∧ store second.2 = once.1)
  ∧ (∀ h r, table !! h = Some r → once.1 !! h = Some r)
  ∧ (∀ r, is_Some (table !! hash r) →
          insertOnConflictDoNothing [r] table = (table, 0%nat))
  ∧ size once.1 = (size table + once.2)%nat.
Proof.
  assert (Hagain : insertOnConflictDoNothing values
                     (insertOnConflictDoNothing values table).1
                   = ((insertOnConflictDoNothing values table).1, 0%nat)).
  { unfold insertOnConflictDoNothing.
    apply insert_all_present. intros r Hr. by apply insert_covers. }
  cbv zeta. split; [exact Hagain|]. split; [|split; [|split]].
  - intros w <-. unfold manyOrNone. simpl. by rewrite Hagain.
  - intros h r Hh. by apply insert_preserves.
  - intros r [x Hx]. unfold insertOnConflictDoNothing. simpl.
    unfold insert_row. simpl. by rewrite Hx.
  - pose proof (insert_count values table 0%nat).
    unfold insertOnConflictDoNothing. lia.
Qed.

End GateProperties.

Lemma gate_idempotent_witness :
  (insertOnConflictDoNothing
     [Fixture.row_of "0xaa01" "0xchanged"; Fixture.row_of "0xbb02" "0xf00d"]
     Fixture.one_row_table).1 !! "0xaa01"
  = Some (Fixture.row_of "0xaa01" "0xc0ffee")
  ∧ insertOnConflictDoNothing [Fixture.row_of "0xaa01" "0xchanged"] Fixture.one_row_table
    = (Fixture.one_row_table, 0%nat).
Proof.
  destruct (gate_idempotent
              [Fixture.row_of "0xaa01" "0xchanged"; Fixture.row_of "0xbb02" "0xf00d"]
              Fixture.one_row_table) as (_ & _ & Hkeep & _ & _).
  destruct (gate_idempotent [] Fixture.one_row_table) as (_ & _ & _ & Hskip & _).
  split.
  - apply Hkeep. vm_compute. reflexivity.
  - apply Hskip. vm_compute. eauto.
Defined.

(** ** The handlers of a page *)

Lemma truthy_toLowerCase (s : string) : truthy (toLowerCase s) = truthy s.
Proof. by destruct s. Qed.

Lemma truthy_opt_toLowerCase (s : option string) :
  truthy_opt (toLowerCase <$> s) = truthy_opt s.
Proof. destruct s; [apply truthy_toLowerCase|done]. Qed.

Section HandlerProperties.
Context `{Sdk} (config : Config).

(** What [handleOrder] does, by the outcome of the parse and the offer
    list of the record. *)
Lemma handleOrder_unfold (o : SeaportOrder) (parsed : option Parsed) (arrays : Arrays) :
  parseSeaportOrder config o = Normal parsed →
  handleOrder config o arrays =
    let row tg := {| hash := toLowerCase (order_hash o);
                     target := tg;
                     row_maker := toLowerCase (address (Seaport.maker o));
                     created_at := created_date o;
                     data := protocol_data o;
                     source := "opensea" |} in
    if truthy_opt (info_contract parsed)
    then Normal (push_parsed parsed arrays.1,
                 arrays.2 ++ [row (toLowerCase (default "" (info_contract parsed)))])
    else match offer (parameters (protocol_data o)) with
         | item :: _ =>
             Normal (push_parsed parsed arrays.1,
                     arrays.2 ++ [row (toLowerCase (token item))])
         | [] => Throw missing_token
         end.
Proof.
  intros Hp. unfold handleOrder. rewrite Hp. simpl.
  rewrite truthy_opt_toLowerCase.
  destruct (truthy_opt (info_contract parsed)) eqn:Ht.
  - destruct (info_contract parsed); [done|discriminate].
  - unfold first_offer_token.
    destruct (offer (parameters (protocol_data o))); reflexivity.
Qed.

Lemma handleOrder_all_unfold (o : SeaportOrder) (parsed : option Parsed)
  (arrays : Arrays) :
  parseSeaportOrder config o = Normal parsed →
  handleOrder_all config o arrays =
    let row tg := {| hash := order_hash o;
                     target := tg;
                     row_maker := toLowerCase (address (Seaport.maker o));
                     created_at := created_date o;
                     data := protocol_data o;
                     source := "opensea" |} in
    if truthy_opt (info_contract parsed)
    then Normal (push_parsed parsed arrays.1,
                 arrays.2 ++ [row (toLowerCase (default "" (info_contract parsed)))])
    else match offer (parameters (protocol_data o)) with
         | item :: _ =>
             Normal (push_parsed parsed arrays.1,
                     arrays.2 ++ [row (toLowerCase (token item))])
         | [] => Throw missing_token
         end.
Proof.
  intros Hp. unfold handleOrder_all. rewrite Hp. simpl.
  destruct (truthy_opt (info_contract parsed)) eqn:Ht.
  - destruct (info_contract parsed); [done|discriminate].
  - unfold first_offer_token.
    destruct (offer (parameters (protocol_data o))); reflexivity.
Qed.

(** The only thing a handler throws is the TypeError of the missing first
    offer item. *)
Lemma handleOrder_throws (o : SeaportOrder) (arrays : Arrays) (e : Error) :
  handleOrder config o arrays = Throw e → e = missing_token.
Proof.
  destruct (parseSeaportOrder_total config o) as [parsed Hp].
  rewrite (handleOrder_unfold o parsed arrays Hp). cbv zeta.
  destruct (truthy_opt (info_contract parsed)); [discriminate|].
  destruct (offer (parameters (protocol_data o))); [|discriminate].
  by intros [= <-].
Qed.

Lemma handleOrder_all_throws (o : SeaportOrder) (arrays : Arrays) (e : Error) :
  handleOrder_all config o arrays = Throw e → e = missing_token.
Proof.
  destruct (parseSeaportOrder_total config o) as [parsed Hp].
  rewrite (handleOrder_all_unfold o parsed arrays Hp). cbv zeta.
  destruct (truthy_opt (info_contract parsed)); [discriminate|].
  destruct (offer (parameters (protocol_data o))); [|discriminate].
  by intros [= <-].
Qed.

(** A fan-out in which some handler throws, throws. *)
Lemma fanOut_throws (handle : SeaportOrder → Arrays → Completion Arrays)
  (orders : list SeaportOrder) (o : SeaportOrder) :
  o ∈ orders →
  (∀ arrays, ∃ e, handle o arrays = Throw e) →
  ∀ arrays, ∃ e, fanOut handle orders arrays = Throw e.
Proof.
  intros Hin Hthrow. induction orders as [|o' orders IH]; intros arrays.
  - by apply elem_of_nil in Hin.
  - simpl. apply elem_of_cons in Hin as [->|Hin].
    + destruct (Hthrow arrays) as [e ->]. by exists e.
    + destruct (handle o' arrays) as [arrays'|e]; simpl; [by apply IH|by exists e].
Qed.

Lemma fanOut_throw_origin (handle : SeaportOrder → Arrays → Completion Arrays)
  (P : Error → Prop) (orders : list SeaportOrder) :
  (∀ o arrays e, handle o arrays = Throw e → P e) →
  ∀ arrays e, fanOut handle orders arrays = Throw e → P e.
Proof.
  intros Hh. induction orders as [|o orders IH]; intros arrays e; [done|].
  simpl. destruct (handle o arrays) as [arrays'|e'] eqn:E; simpl.
  - apply IH.
  - intros [= <-]. by eapply Hh.
Qed.

(** Every handler that completes pushes one row. *)
Lemma fanOut_handleOrder_rows (orders : list SeaportOrder) :
  ∀ arrays arrays',
    fanOut (handleOrder config) orders arrays = Normal arrays' →
    length arrays'.2 = (length arrays.2 + length orders)%nat.
Proof.
  induction orders as [|o orders IH]; intros arrays arrays'; simpl.
  - intros [= <-]. lia.
  - destruct (parseSeaportOrder_total config o) as [parsed Hp].
    rewrite (handleOrder_unfold o parsed arrays Hp). cbv zeta.
    destruct (truthy_opt (info_contract parsed)); simpl.
    + intros Hf. apply IH in Hf. simpl in Hf. rewrite length_app in Hf. simpl in Hf. lia.
    + destruct (offer (parameters (protocol_data o))); simpl; [discriminate|].
      intros Hf. apply IH in Hf. simpl in Hf. rewrite length_app in Hf. simpl in Hf. lia.
Qed.

End HandlerProperties.

(** ** The page loop of fetchOrders *)

Section LoopProperties.
Context `{Sdk} (config : Config).
Implicit Types (f : Frame) (round : Round) (rest : list Round) (url : OrdersUrl).

Lemma after_after (evs evs' : list Event) f :
  after evs' (after evs f) = after (evs ++ evs') f.
Proof. unfold after. simpl. by rewrite app_assoc. Qed.

(** One turn of the loop. *)
Lemma loop_step side details round rest f url :
  loop_condition details f = true →
  fetchOrders_url config side details f = Normal url →
  fetchOrders_loop config side details (round :: rest) f =
    match try_catch_eff (fetchOrders_try config url round) fetchOrders_catch f with
    | (Normal _, f') => fetchOrders_loop config side details rest f'
    | (Throw e, f') => (Threw e, f', rest)
    end.
Proof. intros Hc Hu. simpl. by rewrite Hc, Hu. Qed.

(** Once [done] is set the loop returns without a further request. *)
Lemma loop_done side details script f :
  done f = true →
  fetchOrders_loop config side details script f = (Returned, f, script).
Proof.
  intros Hd. destruct script; simpl; unfold loop_condition; by rewrite Hd.
Qed.

(** A request that fails enters the [catch] block with the variables of
    the run as they were. *)
Lemma iteration_request_fails url round f e :
  reply round = Throw e →
  try_catch_eff (fetchOrders_try config url round) fetchOrders_catch f
  = fetchOrders_catch e (after [EvRequest (GetOrders url)] f).
Proof.
  intros Hr. unfold try_catch_eff, fetchOrders_try, in_world, axios_request.
  simpl. unfold mbind, eff_bind. simpl. rewrite Hr. reflexivity.
Qed.

Lemma after_nil f : after [] f = f.
Proof. destruct f as [c t d [st tr]]. unfold after. simpl. by rewrite app_nil_r. Qed.

(** The [catch] block on a 429 with a cursor: wait, then go on. *)
Lemma catch_retry e f :
  response_status e = Some 429 →
  truthy_opt (cursor f) = true →
  fetchOrders_catch e f = (Normal (), after [EvSleep 5000] f).
Proof.
  intros Hs Hc. unfold fetchOrders_catch. rewrite decide_True by done.
  unfold mbind, eff_bind, get. simpl. rewrite Hc. reflexivity.
Qed.

(** The [catch] block otherwise: the error is thrown again. *)
Lemma catch_rethrow e f :
  response_status e ≠ Some 429 ∨ truthy_opt (cursor f) = false →
  fetchOrders_catch e f = (Throw e, f).
Proof.
  intros Hcase. unfold fetchOrders_catch.
  destruct (decide (response_status e = Some 429)) as [Hs|Hs]; [|done].
  destruct Hcase as [Hn|Hc]; [done|].
  unfold mbind, eff_bind, get. simpl. by rewrite Hc.
Qed.

Lemma retry_rounds side details round rest url e (n : nat) : ∀ f,
  loop_condition details f = true →
  fetchOrders_url config side details f = Normal url →
  reply round = Throw e →
  response_status e = Some 429 →
  truthy_opt (cursor f) = true →
  fetchOrders_loop config side details (replicate n round ++ rest) f
  = fetchOrders_loop config side details rest (after (retries n url) f).
Proof.
  induction n as [|n IH]; intros f Hc Hu Hr Hs Ht.
  - simpl. by rewrite after_nil.
  - simpl replicate. simpl app.
    rewrite (loop_step side details round _ f url Hc Hu).
    rewrite (iteration_request_fails url round f e Hr).
    rewrite catch_retry by done.
    rewrite after_after. rewrite IH by done.
    by rewrite after_after.
Qed.

Lemma catch_trace e f c f' :
  fetchOrders_catch e f = (c, f') →
  ∃ evs, trace (world f') = trace (world f) ++ evs.
Proof.
  unfold fetchOrders_catch.
  destruct (decide (response_status e = Some 429)).
  - unfold mbind, eff_bind, get. simpl.
    destruct (truthy_opt (cursor f)); intros [= <- <-].
    + by exists [EvSleep 5000].
    + exists []. by rewrite app_nil_r.
  - intros [= <- <-]. exists []. by rewrite app_nil_r.
Qed.

(** Whatever a turn of the loop does, it starts with the request and only
    adds to the trace. *)
Lemma iteration_trace url round f c f' :
  try_catch_eff (fetchOrders_try config url round) fetchOrders_catch f = (c, f') →
  ∃ evs, trace (world f') = trace (world f) ++ EvRequest (GetOrders url) :: evs.
Proof.
  unfold try_catch_eff, fetchOrders_try, in_world, axios_request, manyOrNone,
    addToRelayOrdersQueue, lift.
  unfold mbind, eff_bind. simpl.
  destruct (reply round) as [response|e]; simpl.
  2: { intros Hc. apply catch_trace in Hc as [evs ->]. simpl.
       exists evs. by rewrite <- app_assoc. }
  destruct (fanOut (handleOrder config) (orders response) ([], []))
    as [[parsedOrders values]|e]; simpl.
  2: { intros Hc. apply catch_trace in Hc as [evs ->]. simpl.
       exists evs. by rewrite <- app_assoc. }
  destruct values as [|v values]; simpl.
  - destruct parsedOrders as [|p parsedOrders]; simpl.
    + intros [= <- <-]. by exists [].
    + destruct (queue_fault round); simpl.
      * intros Hc. apply catch_trace in Hc as [evs ->]. simpl.
        trace_grows.
      * intros [= <- <-]. simpl. trace_grows.
  - destruct (db_fault round); simpl.
    + intros Hc. apply catch_trace in Hc as [evs ->]. simpl.
      trace_grows.
    + destruct ((insertOnConflictDoNothing (v :: values) (store (world f))).2 =? 0)%nat;
        simpl; destruct parsedOrders as [|p parsedOrders]; simpl;
        try destruct (queue_fault round); simpl;
        try (intros [= <- <-]; trace_grows);
        intros Hc; apply catch_trace in Hc as [evs ->]; simpl;
        trace_grows.
Qed.

Lemma loop_trace side details script : ∀ f outcome f' left,
  fetchOrders_loop config side details script f = (outcome, f', left) →
  ∃ evs, trace (world f') = trace (world f) ++ evs.
Proof.
  induction script as [|round rest IH]; intros f outcome f' left; simpl.
  - destruct (loop_condition details f);
      [destruct (fetchOrders_url config side details f)|];
      intros [= <- <- <-]; exists []; by rewrite app_nil_r.
  - destruct (loop_condition details f);
      [destruct (fetchOrders_url config side details f) as [url|e]|];
      try (intros [= <- <- <-]; exists []; by rewrite app_nil_r).
    destruct (try_catch_eff (fetchOrders_try config url round) fetchOrders_catch f)
      as [[[]|e] f1] eqn:Hit;
      apply iteration_trace in Hit as [evs1 Hevs1].
    + intros Hl. apply IH in Hl as [evs ->]. rewrite Hevs1.
      eexists. rewrite <- app_assoc. reflexivity.
    + intros [= <- <- <-]. by eexists.
Qed.
(** The first request of a run that is in the loop. *)
Lemma loop_first_request side details round rest f url outcome f' left :
  loop_condition details f = true →
  fetchOrders_url config side details f = Normal url →
  fetchOrders_loop config side details (round :: rest) f = (outcome, f', left) →
  ∃ evs, trace (world f') = trace (world f) ++ EvRequest (GetOrders url) :: evs.
Proof.
  intros Hc Hu. rewrite (loop_step side details round rest f url Hc Hu).
  destruct (try_catch_eff (fetchOrders_try config url round) fetchOrders_catch f)
    as [[[]|e1] f1] eqn:Hit;
    apply iteration_trace in Hit as [evs1 Hevs1].
  - intros Hl. apply loop_trace in Hl as [evs ->]. rewrite Hevs1.
    eexists. rewrite <- app_assoc. reflexivity.
  - intros [= <- <- <-]. by eexists.
Qed.

(** C2. A page request that fails with status 429 while [cursor] holds a
    token is followed by a wait of 5000 ms and the same request again,
    as many times as the feed keeps answering 429: the cursor, and with it
    the URL of the request, is unchanged, and the request made after the
    waits is the same request.  A 429 without a cursor, and any other
    failure, is thrown to the caller at once: no wait, no further
    request. *)
Theorem rate_limit_retry_policy side details round rest f url e :
  loop_condition details f = true →
  fetchOrders_url config side details f = Normal url →
  reply round = Throw e →
  (response_status e = Some 429 → truthy_opt (cursor f) = true →
   ∀ n : nat,
     fetchOrders_loop config side details (replicate n round ++ rest) f
     = fetchOrders_loop config side details rest (after (retries n url) f)
     ∧ cursor (after (retries n url) f) = cursor f
     ∧ fetchOrders_url config side details (after (retries n url) f) = Normal url
     ∧ loop_condition details (after (retries n url) f) = true
     ∧ ∀ round' rest' outcome f' left,
         fetchOrders_loop config side details (replicate n round ++ round' :: rest') f
         = (outcome, f', left) →
         ∃ evs,
           trace (world f')
           = trace (world f) ++ retries n url ++ EvRequest (GetOrders url) :: evs)
  ∧ (response_status e ≠ Some 429 ∨ truthy_opt (cursor f) = false →
     fetchOrders_loop config side details (round :: rest) f
     = (Threw e, after [EvRequest (GetOrders url)] f, rest)).
Proof.
  intros Hc Hu Hr. split.
  - intros Hs Ht n. split; [by eapply retry_rounds|].
    split; [done|]. split; [done|]. split; [done|].
    intros round' rest' outcome f' left.
    rewrite (retry_rounds side details round (round' :: rest') url e n f) by done.
    intros Hrun.
    apply (loop_first_request side details round' rest' _ url) in Hrun as [evs Hevs];
      [|done..].
    exists evs. rewrite Hevs. simpl. by rewrite <- app_assoc.
  - intros Hcase.
    rewrite (loop_step side details round rest f url Hc Hu).
    rewrite (iteration_request_fails url round f e Hr).
    by rewrite catch_rethrow.
Qed.

(** Whether the URL can be built depends on the chain only. *)
Lemma fetchOrders_url_builds side details f f' url :
  fetchOrders_url config side details f = Normal url →
  ∃ url', fetchOrders_url config side details f' = Normal url'.
Proof.
  unfold fetchOrders_url, buildFetchOrdersURL. intros Hb.
  match type of Hb with
  | context [toString (queryParams ?p)] =>
      destruct (toString_decodes (queryParams p)) as [tq Hq]
  end.
  match goal with
  | |- context [toString (queryParams ?p)] =>
      destruct (toString_decodes (queryParams p)) as [tq' Hq']
  end.
  revert Hb.
  repeat (destruct (decide _);
          [rewrite !bind_Normal; cbn [p_overrideBaseUrl p_side];
           rewrite (decodeURI_query _ _ _ Hq), (decodeURI_query _ _ _ Hq');
           destruct (decodeURI _); [simpl; eauto | discriminate]|]).
  discriminate.
Qed.

Lemma filter_requests_app (t t' : list Event) :
  List.filter is_request (t ++ t') = List.filter is_request t ++ List.filter is_request t'.
Proof. apply List.filter_app. Qed.

(** C1. In a turn of the loop whose page gave a non-empty batch of rows of
    which the insert returned none as new, [done] is set and the run ends
    having made the one request of that turn: what the feed would answer
    next is left unused.  A page without records sets nothing: the loop
    goes on with the next cursor and asks for a further page. *)
Theorem termination_heuristic side details round rest f url response :
  loop_condition details f = true →
  fetchOrders_url config side details f = Normal url →
  reply round = Normal response →
  (∀ parsedOrders values,
     fanOut (handleOrder config) (orders response) ([], []) = Normal (parsedOrders, values) →
     values ≠ [] →
     db_fault round = None →
     (insertOnConflictDoNothing values (store (world f))).2 = 0%nat →
     ∃ outcome f',
       fetchOrders_loop config side details (round :: rest) f = (outcome, f', rest)
       ∧ outcome ≠ AwaitingPage
       ∧ done f' = true
       ∧ List.filter is_request (trace (world f'))
         = List.filter is_request (trace (world f)) ++ [EvRequest (GetOrders url)])
  ∧ (orders response = [] →
     let f' := {| cursor := next response; total := total f; done := false;
                  world := record (EvRequest (GetOrders url)) (world f) |} in
     fetchOrders_loop config side details (round :: rest) f
     = fetchOrders_loop config side details rest f'
     ∧ loop_condition details f' = true
     ∧ fetchOrders_loop config side details [round] f = (AwaitingPage, f', [])).
Proof.
  intros Hc Hu Hr. split.
  - intros parsedOrders values Hfan Hne Hdb Hzero.
    rewrite (loop_step side details round rest f url Hc Hu).
    unfold try_catch_eff, fetchOrders_try, in_world, axios_request, manyOrNone.
    run_eff. rewrite Hr. simpl.
    unfold lift. rewrite Hfan. simpl.
    destruct values as [|v values]; [done|]. simpl.
    rewrite Hdb. simpl. rewrite Hzero. simpl.
    assert (Hends : ∀ f1 : Frame,
              done f1 = true →
              List.filter is_request (trace (world f1))
              = List.filter is_request (trace (world f)) ++ [EvRequest (GetOrders url)] →
              (∃ outcome f',
                 fetchOrders_loop config side details rest f1 = (outcome, f', rest)
                 ∧ outcome ≠ AwaitingPage ∧ done f' = true
                 ∧ List.filter is_request (trace (world f'))
                   = List.filter is_request (trace (world f))
                     ++ [EvRequest (GetOrders url)])
              ∧ ∀ e1, ∃ outcome f',
                  (Threw e1, f1, rest) = (outcome, f', rest)
                  ∧ outcome ≠ AwaitingPage ∧ done f' = true
                  ∧ List.filter is_request (trace (world f'))
                    = List.filter is_request (trace (world f))
                      ++ [EvRequest (GetOrders url)]).
    { intros f1 Hd Htr. split.
      - rewrite loop_done by done. by eexists _, _.
      - intros e1. by eexists _, _. }
    destruct parsedOrders as [|p parsedOrders]; simpl.
    + apply Hends; [done|]. simpl.
      by rewrite <- app_assoc, filter_requests_app.
    + unfold addToRelayOrdersQueue. simpl.
      destruct (queue_fault round) as [qe|]; simpl.
      * unfold fetchOrders_catch.
        destruct (decide (response_status qe = Some 429)) as [Hs|Hs].
        -- run_eff.
           destruct (truthy_opt (next response)); simpl.
           ++ apply Hends; [done|]. simpl.
              by rewrite <- !app_assoc, filter_requests_app.
           ++ unfold throw. apply Hends; [done|]. simpl.
              by rewrite <- !app_assoc, filter_requests_app.
        -- unfold throw. apply Hends; [done|]. simpl.
           by rewrite <- !app_assoc, filter_requests_app.
      * apply Hends; [done|]. simpl.
        by rewrite <- !app_assoc, filter_requests_app.
  - intros Hempty. cbv zeta.
    assert (Hd : done f = false).
    { unfold loop_condition in Hc. by destruct (done f). }
    assert (Hiter :
      try_catch_eff (fetchOrders_try config url round) fetchOrders_catch f
      = (Normal (), {| cursor := next response; total := total f; done := false;
                       world := record (EvRequest (GetOrders url)) (world f) |})).
    { unfold try_catch_eff, fetchOrders_try, in_world, axios_request.
      unfold mbind, eff_bind. simpl. rewrite Hr. simpl. rewrite Hempty. simpl.
      rewrite Hd. by rewrite Z.add_0_r. }
    assert (Hc' : loop_condition details
              {| cursor := next response; total := total f; done := false;
                 world := record (EvRequest (GetOrders url)) (world f) |} = true).
    { unfold loop_condition in *. simpl. by rewrite Hd in Hc. }
    split; [|split; [done|]].
    + rewrite (loop_step side details round rest f url Hc Hu). by rewrite Hiter.
    + rewrite (loop_step side details round [] f url Hc Hu). rewrite Hiter.
      destruct (fetchOrders_url_builds side details f
                  {| cursor := next response; total := total f; done := false;
                     world := record (EvRequest (GetOrders url)) (world f) |} url Hu)
        as [url' Hu'].
      simpl. unfold loop_condition in Hc'. simpl in Hc'.
      unfold loop_condition. simpl. rewrite Hc'. rewrite Hu'. reflexivity.
Qed.

End LoopProperties.

Lemma rate_limit_retry_policy_witness :
  fetchOrders_loop (H := Fixture.sdk) Fixture.mainnet sell None
    (replicate 2 Fixture.rate_limited ++ [Fixture.server_error]) Fixture.second_page_frame
  = fetchOrders_loop (H := Fixture.sdk) Fixture.mainnet sell None [Fixture.server_error]
      (after (retries 2 (Fixture.page_url "c1")) Fixture.second_page_frame)
  ∧ fetchOrders_loop (H := Fixture.sdk) Fixture.mainnet sell None
      [Fixture.rate_limited; Fixture.server_error] (Fixture.first_page_frame Fixture.empty_world)
    = (Threw Fixture.error_429,
       after [EvRequest (GetOrders Fixture.first_page_url)]
         (Fixture.first_page_frame Fixture.empty_world),
       [Fixture.server_error]).
Proof.
  split.
  - apply (rate_limit_retry_policy (H := Fixture.sdk) Fixture.mainnet sell None
             Fixture.rate_limited [Fixture.server_error] Fixture.second_page_frame
             (Fixture.page_url "c1") Fixture.error_429);
      reflexivity.
  - apply (rate_limit_retry_policy (H := Fixture.sdk) Fixture.mainnet sell None
             Fixture.rate_limited [Fixture.server_error]
             (Fixture.first_page_frame Fixture.empty_world)
             Fixture.first_page_url Fixture.error_429);
      try reflexivity.
    right. reflexivity.
Defined.

Lemma termination_heuristic_witness :
  (∃ outcome f',
     fetchOrders_loop (H := Fixture.sdk) Fixture.mainnet sell None
       [Fixture.page [Fixture.good; Fixture.unknown] (Some "c1"); Fixture.server_error]
       (Fixture.first_page_frame Fixture.synced_world)
     = (outcome, f', [Fixture.server_error])
     ∧ done f' = true)
  ∧ fetchOrders_loop (H := Fixture.sdk) Fixture.mainnet sell None
      [Fixture.page [] (Some "c1")] (Fixture.first_page_frame Fixture.empty_world)
    = (AwaitingPage,
       {| cursor := Some "c1"; total := 0; done := false;
          world := record (EvRequest (GetOrders Fixture.first_page_url)) Fixture.empty_world |},
       []).
Proof.
  split.
  - edestruct (termination_heuristic (H := Fixture.sdk) Fixture.mainnet sell None
                 (Fixture.page [Fixture.good; Fixture.unknown] (Some "c1"))
                 [Fixture.server_error] (Fixture.first_page_frame Fixture.synced_world)
                 Fixture.first_page_url
                 {| orders := [Fixture.good; Fixture.unknown]; next := Some "c1" |}
                 eq_refl eq_refl eq_refl) as [Hdone _].
    edestruct Hdone as (outcome & f' & Hrun & _ & Hd & _).
    + vm_compute. reflexivity.
    + discriminate.
    + reflexivity.
    + vm_compute. reflexivity.
    + exists outcome, f'. split; [exact Hrun|exact Hd].
  - edestruct (termination_heuristic (H := Fixture.sdk) Fixture.mainnet sell None
                 (Fixture.page [] (Some "c1")) [] (Fixture.first_page_frame Fixture.empty_world)
                 Fixture.first_page_url {| orders := []; next := Some "c1" |}
                 eq_refl eq_refl eq_refl) as [_ Hempty].
    destruct (Hempty eq_refl) as (_ & _ & Hrun). exact Hrun.
Defined.

(** ** Records that cannot be turned into rows *)

Section AbortProperties.
Context `{Sdk} (config : Config).

(** The handlers of a page with a record that has no contract to report
    and nothing on offer throw, whichever record throws first. *)
Lemma fanOut_missing_token (o : SeaportOrder) (parsed : option Parsed)
  (orders : list SeaportOrder) (arrays : Arrays) :
  parseSeaportOrder config o = Normal parsed →
  truthy_opt (info_contract parsed) = false →
  offer (parameters (protocol_data o)) = [] →
  o ∈ orders →
  fanOut (handleOrder config) orders arrays = Throw missing_token
  ∧ fanOut (handleOrder_all config) orders arrays = Throw missing_token.
Proof.
  intros Hp Ht Ho Hin. split.
  - destruct (fanOut_throws (handleOrder config) orders o Hin) with (arrays := arrays)
      as [e He].
    { intros a. exists missing_token.
      rewrite (handleOrder_unfold config o parsed a Hp). cbv zeta. by rewrite Ht, Ho. }
    rewrite He. f_equal.
    eapply (fanOut_throw_origin (handleOrder config) (λ e, e = missing_token));
      [apply handleOrder_throws|exact He].
  - destruct (fanOut_throws (handleOrder_all config) orders o Hin) with (arrays := arrays)
      as [e He].
    { intros a. exists missing_token.
      rewrite (handleOrder_all_unfold config o parsed a Hp). cbv zeta. by rewrite Ht, Ho. }
    rewrite He. f_equal.
    eapply (fanOut_throw_origin (handleOrder_all config) (λ e, e = missing_token));
      [apply handleOrder_all_throws|exact He].
Qed.

(** C10. For a record whose parse is absent, or whose parsed order reports
    no contract, the row takes its target from the first offer item, read
    without a guard.  With an item on offer the handler pushes the row;
    with an empty offer list the handler throws, and each of the fetch
    operations throws on a page that holds such a record, having done
    nothing but the request: no insert is made and nothing is enqueued,
    for any record of the page. *)
Theorem first_offer_item_unguarded (o : SeaportOrder) (parsed : option Parsed) :
  parseSeaportOrder config o = Normal parsed →
  truthy_opt (info_contract parsed) = false →
  (∀ item items arrays,
     offer (parameters (protocol_data o)) = item :: items →
     handleOrder config o arrays
     = Normal (push_parsed parsed arrays.1,
               arrays.2 ++ [{| hash := toLowerCase (order_hash o);
                               target := toLowerCase (token item);
                               row_maker := toLowerCase (address (Seaport.maker o));
                               created_at := created_date o;
                               data := protocol_data o; source := "opensea" |}])
     ∧ handleOrder_all config o arrays
       = Normal (push_parsed parsed arrays.1,
                 arrays.2 ++ [{| hash := order_hash o;
                                 target := toLowerCase (token item);
                                 row_maker := toLowerCase (address (Seaport.maker o));
                                 created_at := created_date o;
                                 data := protocol_data o; source := "opensea" |}]))
  ∧ (offer (parameters (protocol_data o)) = [] →
     (∀ arrays,
        handleOrder config o arrays = Throw missing_token
        ∧ handleOrder_all config o arrays = Throw missing_token)
     ∧ ∀ round response,
         reply round = Normal response →
         o ∈ orders response →
         (∀ side details rest f url,
            loop_condition details f = true →
            fetchOrders_url config side details f = Normal url →
            fetchOrders_loop config side details (round :: rest) f
            = (Threw missing_token,
               {| cursor := next response;
                  total := total f + Z.of_nat (length (orders response));
                  done := done f;
                  world := record (EvRequest (GetOrders url)) (world f) |},
               rest))
         ∧ (∀ fromTimestamp toTimestamp cursor w url,
              fetchAllOrders_url config fromTimestamp toTimestamp cursor = Normal url →
              fetchAllOrders config fromTimestamp toTimestamp cursor round w
              = (Throw missing_token, record (EvRequest (GetOrders url)) w))
         ∧ (∀ slug w,
              ∃ req,
                fetchListingsBySlug config slug round w
                = (Throw missing_token, record (EvRequest req) w))
         ∧ (∀ contract tokenId apiKey w,
              ∃ req,
                fetchCollectionOffers config contract tokenId apiKey round w
                = (Throw missing_token, record (EvRequest req) w))).
Proof.
  intros Hp Ht. split.
  - intros item items arrays Ho.
    rewrite (handleOrder_unfold config o parsed arrays Hp).
    rewrite (handleOrder_all_unfold config o parsed arrays Hp).
    cbv zeta. by rewrite Ht, Ho.
  - intros Ho. split.
    { intros arrays.
      rewrite (handleOrder_unfold config o parsed arrays Hp).
      rewrite (handleOrder_all_unfold config o parsed arrays Hp).
      cbv zeta. by rewrite Ht, Ho. }
    intros round response Hr Hin.
    destruct (fanOut_missing_token o parsed (orders response) ([], []) Hp Ht Ho Hin)
      as [Hfan Hfan_all].
    split; [|split; [|split]].
    + intros side details rest f url Hc Hu.
      rewrite (loop_step config side details round rest f url Hc Hu).
      unfold try_catch_eff, fetchOrders_try, in_world, axios_request.
      unfold mbind, eff_bind. simpl. rewrite Hr. simpl.
      unfold lift. rewrite Hfan. simpl. reflexivity.
    + intros fromTimestamp toTimestamp cursor w url Hu.
      unfold fetchAllOrders. unfold mbind at 1. unfold eff_bind, lift. rewrite Hu.
      unfold try_catch_eff, axios_request, mbind, eff_bind. simpl.
      rewrite Hr. simpl. unfold lift. rewrite Hfan_all. reflexivity.
    + intros slug w. eexists.
      unfold fetchListingsBySlug, try_catch_eff, axios_request, mbind, eff_bind. simpl.
      rewrite Hr. simpl. unfold lift. rewrite Hfan. reflexivity.
    + intros contract tokenId apiKey w. eexists.
      unfold fetchCollectionOffers, try_catch_eff, axios_request, mbind, eff_bind. simpl.
      rewrite Hr. simpl. unfold lift. rewrite Hfan. reflexivity.
Qed.

End AbortProperties.

Lemma first_offer_item_unguarded_witness :
  handleOrder (H := Fixture.sdk) Fixture.mainnet Fixture.unknown_empty ([], [])
  = Throw missing_token
  ∧ fetchOrders_loop (H := Fixture.sdk) Fixture.mainnet sell None
      [Fixture.page [Fixture.good; Fixture.unknown_empty] (Some "c1"); Fixture.server_error]
      (Fixture.first_page_frame Fixture.empty_world)
    = (Threw missing_token,
       {| cursor := Some "c1"; total := 0 + Z.of_nat 2; done := false;
          world := record (EvRequest (GetOrders Fixture.first_page_url)) Fixture.empty_world |},
       [Fixture.server_error]).
Proof.
  destruct (first_offer_item_unguarded (H := Fixture.sdk) Fixture.mainnet
              Fixture.unknown_empty None eq_refl eq_refl) as [_ Hempty].
  destruct (Hempty eq_refl) as [Hhandler Hpage].
  split; [apply Hhandler|].
  destruct (Hpage (Fixture.page [Fixture.good; Fixture.unknown_empty] (Some "c1"))
              {| orders := [Fixture.good; Fixture.unknown_empty]; next := Some "c1" |}
              eq_refl) as [Hloop _].
  { apply list_elem_of_In. simpl. tauto. }
  apply (Hloop sell None [Fixture.server_error]
           (Fixture.first_page_frame Fixture.empty_world) Fixture.first_page_url);
    reflexivity.
Defined.

(** ** Parse resilience *)

Section ResilienceProperties.
Context `{Sdk} (config : Config).

(** Two rows with fresh and distinct hashes are both written. *)
Lemma insert_two_fresh (r1 r2 : Row) (table : gmap string Row) :
  table !! hash r1 = None →
  table !! hash r2 = None →
  hash r1 ≠ hash r2 →
  insertOnConflictDoNothing [r1; r2] table
  = (<[hash r2 := r2]> (<[hash r1 := r1]> table), 2%nat).
Proof.
  intros H1 H2 Hne. unfold insertOnConflictDoNothing. simpl.
  unfold insert_row at 2. simpl. rewrite H1.
  unfold insert_row. simpl. rewrite lookup_insert_ne by done. by rewrite H2.
Qed.

(** The row of a record that parses; its target is the contract of the
    order when the library reports one, the first offer item's token
    otherwise. *)
Lemma handleOrder_parsed (o : SeaportOrder) (p : Parsed) (arrays : Arrays) :
  parseSeaportOrder config o = Normal (Some p) →
  truthy_opt (info_contract (Some p)) = true
  ∨ offer (parameters (protocol_data o)) ≠ [] →
  ∃ row,
    handleOrder config o arrays
    = Normal (arrays.1 ++ [{| relay_kind := kind p; relay_data := params (order p) |}],
              arrays.2 ++ [row])
    ∧ hash row = toLowerCase (order_hash o).
Proof.
  intros Hp Hwf. rewrite (handleOrder_unfold config o (Some p) arrays Hp). cbv zeta.
  destruct (truthy_opt (info_contract (Some p))) eqn:Ht.
  - eexists. split; reflexivity.
  - destruct Hwf as [|Hne]; [done|].
    destruct (offer (parameters (protocol_data o))); [done|].
    eexists. split; reflexivity.
Qed.

(** The row of a record whose protocol address is unknown. *)
Lemma handleOrder_unrecognized (o : SeaportOrder) (item : OfferItem)
  (items : list OfferItem) (arrays : Arrays) :
  Exchange SeaportV14 (chainId config) ≠ Some (protocol_address o) →
  Exchange SeaportV15 (chainId config) ≠ Some (protocol_address o) →
  offer (parameters (protocol_data o)) = item :: items →
  ∃ row,
    handleOrder config o arrays = Normal (arrays.1, arrays.2 ++ [row])
    ∧ hash row = toLowerCase (order_hash o)
    ∧ target row = toLowerCase (token item).
Proof.
  intros H14 H15 Ho.
  rewrite (handleOrder_unfold config o None arrays
             (parseSeaportOrder_no_match config o H14 H15)).
  cbv zeta. simpl. rewrite Ho. eexists. repeat split.
Qed.

(** The turn of the loop on a page whose handlers complete with one parsed
    order and some rows, when neither the database nor the queue fails. *)
Lemma iteration_page url round f response relay values :
  reply round = Normal response →
  fanOut (handleOrder config) (orders response) ([], []) = Normal ([relay], values) →
  values ≠ [] →
  db_fault round = None →
  queue_fault round = None →
  try_catch_eff (fetchOrders_try config url round) fetchOrders_catch f
  = (Normal (),
     {| cursor := next response;
        total := total f + Z.of_nat (length (orders response));
        done := if ((insertOnConflictDoNothing values (store (world f))).2 =? 0)%nat
                then true else done f;
        world :=
          {| store := (insertOnConflictDoNothing values (store (world f))).1;
             trace := trace (world f)
                      ++ [EvRequest (GetOrders url); EvInsert values;
                          EvEnqueue [relay] true] |} |}).
Proof.
  intros Hr Hfan Hne Hdb Hq.
  unfold try_catch_eff, fetchOrders_try, in_world, axios_request, manyOrNone.
  unfold mbind, eff_bind. simpl. rewrite Hr. simpl.
  unfold lift. rewrite Hfan. simpl.
  destruct values as [|v values]; [done|]. simpl.
  rewrite Hdb. simpl.
  destruct ((insertOnConflictDoNothing (v :: values) (store (world f))).2 =? 0)%nat;
    simpl; unfold addToRelayOrdersQueue, record; rewrite Hq; simpl;
    by rewrite <- !app_assoc.
Qed.

Lemma fresh_pair_stored (r1 r2 : Row) (table : gmap string Row) :
  table !! hash r1 = None →
  table !! hash r2 = None →
  hash r1 ≠ hash r2 →
  size (insertOnConflictDoNothing [r1; r2] table).1 = (size table + 2)%nat
  ∧ (insertOnConflictDoNothing [r1; r2] table).1 !! hash r1 = Some r1
  ∧ (insertOnConflictDoNothing [r1; r2] table).1 !! hash r2 = Some r2.
Proof.
  intros H1 H2 Hne. rewrite insert_two_fresh by done. simpl.
  split; [|split].
  - rewrite !map_size_insert_None; [lia|done|by rewrite lookup_insert_ne].
  - rewrite lookup_insert_ne by done. apply lookup_insert_eq.
  - apply lookup_insert_eq.
Qed.

(** C6. A page of fetchOrders that holds one record the parser accepts and
    one record whose protocol address is the exchange of no protocol
    version: the batch handed to the insert has exactly two rows, one per
    record, the row of the unparseable record taking the token of its
    first offer item as target; exactly one parsed order is enqueued, in
    one call; after the turn both hashes are in the table, and when both
    were new and differ the table has grown by exactly these two rows. *)
Theorem parse_resilience side details round rest f url response
  (good bad : SeaportOrder) (p : Parsed) (item : OfferItem) (items : list OfferItem) :
  loop_condition details f = true →
  fetchOrders_url config side details f = Normal url →
  reply round = Normal response →
  orders response = [good; bad] ∨ orders response = [bad; good] →
  db_fault round = None →
  queue_fault round = None →
  parseSeaportOrder config good = Normal (Some p) →
  truthy_opt (info_contract (Some p)) = true
  ∨ offer (parameters (protocol_data good)) ≠ [] →
  Exchange SeaportV14 (chainId config) ≠ Some (protocol_address bad) →
  Exchange SeaportV15 (chainId config) ≠ Some (protocol_address bad) →
  offer (parameters (protocol_data bad)) = item :: items →
  ∃ row_good row_bad values f',
    (values = [row_good; row_bad] ∨ values = [row_bad; row_good])
    ∧ hash row_good = toLowerCase (order_hash good)
    ∧ hash row_bad = toLowerCase (order_hash bad)
    ∧ target row_bad = toLowerCase (token item)
    ∧ fetchOrders_loop config side details (round :: rest) f
      = fetchOrders_loop config side details rest f'
    ∧ trace (world f')
      = trace (world f)
        ++ [EvRequest (GetOrders url);
            EvInsert values;
            EvEnqueue [{| relay_kind := kind p; relay_data := params (order p) |}] true]
    ∧ store (world f') = (insertOnConflictDoNothing values (store (world f))).1
    ∧ is_Some (store (world f') !! hash row_good)
    ∧ is_Some (store (world f') !! hash row_bad)
    ∧ (store (world f) !! hash row_good = None →
       store (world f) !! hash row_bad = None →
       hash row_good ≠ hash row_bad →
       size (store (world f')) = (size (store (world f)) + 2)%nat
       ∧ store (world f') !! hash row_good = Some row_good
       ∧ store (world f') !! hash row_bad = Some row_bad).
Proof.
  intros Hc Hu Hr Hpage Hdb Hq Hp Hwf H14 H15 Ho.
  destruct Hpage as [Hpage|Hpage].
  - destruct (handleOrder_parsed good p ([], []) Hp Hwf) as (rg & Hg & Hhg).
    simpl in Hg.
    destruct (handleOrder_unrecognized bad item items
                ([{| relay_kind := kind p; relay_data := params (order p) |}], [rg])
                H14 H15 Ho) as (rb & Hb & Hhb & Htb).
    simpl in Hb.
    assert (Hfan : fanOut (handleOrder config) (orders response) ([], [])
                   = Normal ([{| relay_kind := kind p; relay_data := params (order p) |}],
                             [rg; rb])).
    { rewrite Hpage. simpl. rewrite Hg. simpl. rewrite Hb. reflexivity. }
    exists rg, rb, [rg; rb]. eexists.
    split; [by left|]. split; [done|]. split; [done|]. split; [done|].
    split.
    { rewrite (loop_step config side details round rest f url Hc Hu).
      rewrite (iteration_page url round f response _ [rg; rb] Hr Hfan); [|done..].
      reflexivity. }
    simpl. split; [done|]. split; [done|].
    split; [apply insert_covers; by left|].
    split; [apply insert_covers; by right; left|].
    intros F1 F2 Hne. by apply fresh_pair_stored.
  - destruct (handleOrder_unrecognized bad item items ([], []) H14 H15 Ho)
      as (rb & Hb & Hhb & Htb).
    simpl in Hb.
    destruct (handleOrder_parsed good p ([], [rb]) Hp Hwf) as (rg & Hg & Hhg).
    simpl in Hg.
    assert (Hfan : fanOut (handleOrder config) (orders response) ([], [])
                   = Normal ([{| relay_kind := kind p; relay_data := params (order p) |}],
                             [rb; rg])).
    { rewrite Hpage. simpl. rewrite Hb. simpl. rewrite Hg. reflexivity. }
    exists rg, rb, [rb; rg]. eexists.
    split; [by right|]. split; [done|]. split; [done|]. split; [done|].
    split.
    { rewrite (loop_step config side details round rest f url Hc Hu).
      rewrite (iteration_page url round f response _ [rb; rg] Hr Hfan); [|done..].
      reflexivity. }
    simpl. split; [done|]. split; [done|].
    split; [apply insert_covers; by right; left|].
    split; [apply insert_covers; by left|].
    intros F1 F2 Hne.
    destruct (fresh_pair_stored rb rg (store (world f)) F2 F1) as (Hs & Hlb & Hlg);
      [done|]. done.
Qed.

End ResilienceProperties.

Lemma parse_resilience_witness :
  ∃ values f',
    length values = 2%nat
    ∧ fetchOrders_loop (H := Fixture.sdk) Fixture.mainnet sell None
        [Fixture.page [Fixture.good; Fixture.unknown] (Some "c1")]
        (Fixture.first_page_frame Fixture.empty_world)
      = fetchOrders_loop (H := Fixture.sdk) Fixture.mainnet sell None [] f'
    ∧ List.filter is_insert (trace (world f')) = [EvInsert values]
    ∧ size (store (world f')) = 2%nat.
Proof.
  edestruct (parse_resilience (H := Fixture.sdk) Fixture.mainnet sell None
               (Fixture.page [Fixture.good; Fixture.unknown] (Some "c1")) []
               (Fixture.first_page_frame Fixture.empty_world) Fixture.first_page_url
               {| orders := [Fixture.good; Fixture.unknown]; next := Some "c1" |}
               Fixture.good Fixture.unknown)
    as (rg & rb & values & f' & Hv & Hhg & Hhb & _ & Hloop & Htr & _ & _ & _ & Hfresh).
  - reflexivity.
  - reflexivity.
  - reflexivity.
  - left. reflexivity.
  - reflexivity.
  - reflexivity.
  - vm_compute. reflexivity.
  - left. reflexivity.
  - vm_compute. congruence.
  - vm_compute. congruence.
  - reflexivity.
  - exists values, f'. split; [by destruct Hv as [->| ->]|].
    split; [exact Hloop|]. split; [by rewrite Htr|].
    destruct Hfresh as (Hsize & _ & _).
    + rewrite Hhg. reflexivity.
    + rewrite Hhb. reflexivity.
    + rewrite Hhg, Hhb. vm_compute. congruence.
    + exact Hsize.
Defined.

(** ** The hash column *)

Section HashProperties.
Context `{Sdk} (config : Config).

(** The handler shared by fetchOrders, fetchListingsBySlug and
    fetchCollectionOffers stores the hash in lower case. *)
Lemma handleOrder_hash_lowercased (o : SeaportOrder) (arrays arrays' : Arrays) :
  handleOrder config o arrays = Normal arrays' →
  ∃ row, arrays'.2 = arrays.2 ++ [row] ∧ hash row = toLowerCase (order_hash o).
Proof.
  destruct (parseSeaportOrder_total config o) as [parsed Hp].
  rewrite (handleOrder_unfold config o parsed arrays Hp). cbv zeta.
  destruct (truthy_opt (info_contract parsed)).
  - intros [= <-]. eexists. split; reflexivity.
  - destruct (offer (parameters (protocol_data o))); [discriminate|].
    intros [= <-]. eexists. split; reflexivity.
Qed.

(** The handler of fetchAllOrders stores the hash as the feed gave it. *)
Lemma handleOrder_all_hash_verbatim (o : SeaportOrder) (arrays arrays' : Arrays) :
  handleOrder_all config o arrays = Normal arrays' →
  ∃ row, arrays'.2 = arrays.2 ++ [row] ∧ hash row = order_hash o.
Proof.
  destruct (parseSeaportOrder_total config o) as [parsed Hp].
  rewrite (handleOrder_all_unfold config o parsed arrays Hp). cbv zeta.
  destruct (truthy_opt (info_contract parsed)).
  - intros [= <-]. eexists. split; reflexivity.
  - destruct (offer (parameters (protocol_data o))); [discriminate|].
    intros [= <-]. eexists. split; reflexivity.
Qed.

End HashProperties.

(** C3, at a record whose hash has capital letters.  fetchAllOrders stores
    the row of the record of hash "0xAA01" under "0xAA01": the lowercased
    hash "0xaa01" is not a key of the table afterwards.  On the same page
    fetchListingsBySlug stores it under "0xaa01". *)
Theorem fetchAllOrders_hash_not_lowercased :
  order_hash Fixture.good = "0xAA01"
  ∧ toLowerCase (order_hash Fixture.good) = "0xaa01"
  ∧ (∃ w row,
       fetchAllOrders (H := Fixture.sdk) Fixture.mainnet None None None
         (Fixture.page [Fixture.good] None) Fixture.empty_world
       = (Normal None, w)
       ∧ List.filter is_insert (trace w) = [EvInsert [row]]
       ∧ hash row = "0xAA01"
       ∧ store w !! "0xAA01" = Some row
       ∧ store w !! "0xaa01" = None)
  ∧ (∃ w row,
       fetchListingsBySlug (H := Fixture.sdk) Fixture.mainnet "slug"
         (Fixture.page [Fixture.good] None) Fixture.empty_world
       = (Normal (), w)
       ∧ List.filter is_insert (trace w) = [EvInsert [row]]
       ∧ hash row = "0xaa01"
       ∧ store w !! "0xaa01" = Some row).
Proof.
  split; [reflexivity|]. split; [reflexivity|]. split.
  - eexists _, _. split; [vm_compute; reflexivity|].
    repeat split; vm_compute; reflexivity.
  - eexists _, _. split; [vm_compute; reflexivity|].
    repeat split; vm_compute; reflexivity.
Qed.

(** ** The collection refresh *)

Section RefreshProperties.
Context (env : Indexer).

(** The requests of the pagination loop: at most as many as iterations
    are left, and every request that is followed by another got a full
    page.  When no page is longer than asked for, the loop adds at most 20
    collections per iteration. *)
Lemma collect_pages_trace (todo : nat) :
  ∀ (i : nat) (c : option string) (acc : list Collection)
    (t : list RefreshEvent) r t',
    collect_pages env todo i c acc t = (r, t') →
    ∃ conts : list (option string),
      t' = t ++ map (EvGetCollections 20) conts
      ∧ (length conts ≤ todo)%nat
      ∧ (∀ (j : nat) c',
           conts !! j = Some c' → (S j < length conts)%nat →
           ∃ resp, collections_v5 env (i + j) c' = Normal resp
                   ∧ (20 ≤ length (collections resp))%nat)
      ∧ ((∀ i c resp, collections_v5 env i c = Normal resp →
                      (length (collections resp) ≤ 20)%nat) →
         ∀ cs, r = Normal cs → (length cs ≤ length acc + 20 * todo)%nat).
Proof.
  induction todo as [|todo IH]; intros i c acc t r t' Hrun.
  - simpl in Hrun. injection Hrun as <- <-. exists [].
    split; [by rewrite app_nil_r|]. split; [done|]. split.
    + intros j c' Hj. by rewrite lookup_nil in Hj.
    + intros _ cs [= <-]. lia.
  - simpl in Hrun. unfold mbind, eff_bind, get_collections in Hrun.
    set (cN := if truthy_opt c then c else None) in *.
    destruct (collections_v5 env i cN) as [resp|e] eqn:Hresp.
    + destruct (Nat.ltb_spec (length (collections resp)) 20) as [Hshort|Hfull].
      * injection Hrun as <- <-. exists [cN].
        split; [done|]. split; [simpl; lia|]. split.
        -- intros j c' Hj Hlt. simpl in Hlt. lia.
        -- intros Hsize cs [= <-]. rewrite length_app. lia.
      * destruct (IH _ _ _ _ _ _ Hrun) as (conts & -> & Hlen & Hfullpages & Hbound).
        exists (cN :: conts).
        split; [by rewrite <- app_assoc|]. split; [simpl; lia|]. split.
        -- intros [|j] c' Hj Hlt.
           ++ injection Hj as <-. exists resp. by rewrite Nat.add_0_r.
           ++ simpl in Hj, Hlt.
              destruct (Hfullpages j c' Hj) as (resp' & Hresp' & Hlen'); [lia|].
              exists resp'. split; [|done].
              by replace (i + S j)%nat with (S i + j)%nat by lia.
        -- intros Hsize cs Hcs. specialize (Hbound Hsize cs Hcs).
           rewrite length_app in Hbound. specialize (Hsize _ _ _ Hresp). lia.
    + injection Hrun as <- <-. exists [cN].
      split; [done|]. split; [simpl; lia|]. split.
      * intros j c' Hj Hlt. simpl in Hlt. lia.
      * intros _ cs [=].
Qed.



End RefreshProperties.




(** ** The realtime worker *)

Section RealtimeProperties.
Import Realtime.

(** The processor never rejects; what it does is decided by where the
    first failure, if any, occurs. *)
Lemma processor_resolves (env : Env) (job : Job) (w : World) :
  ∃ evs c,
    processor env job w = (Normal (), {| cache := c; trace := trace w ++ evs |})
    ∧ (∀ name flag, EvReleaseLock name flag ∉ evs)
    ∧ (c = cache w
       ∨ ∃ t, get_fault env = None ∧ set_fault env = None
              ∧ fetchOrdersByPageToken env sell (default "" (cache w !! cacheKey))
                = Normal (Some t)
              ∧ truthy t = true
              ∧ c = <[cacheKey := t]> (cache w)).
Proof.
  unfold processor, try_catch_eff, redis_get, call_fetchOrdersByPageToken, redis_set,
    log_error, record.
  run_eff.
  destruct (get_fault env) as [ge|] eqn:Hget; simpl.
  { eexists [_; _], _. split; [by rewrite <- app_assoc|].
    split; [intros name flag; not_among|by left]. }
  destruct (fetchOrdersByPageToken env sell (default "" (cache w !! cacheKey)))
    as [[t|]|fe] eqn:Hfetch; simpl.
  - destruct (truthy t) eqn:Ht; simpl.
    + destruct (set_fault env) as [se|] eqn:Hset; simpl.
      * eexists [_; _; _; _], _. split; [by rewrite <- !app_assoc|].
        split; [intros name flag; not_among|by left].
      * eexists [_; _; _], _. split; [by rewrite <- !app_assoc|].
        split; [intros name flag; not_among|right; by exists t].
    + eexists [_; _], _. split; [by rewrite <- !app_assoc|].
      split; [intros name flag; not_among|by left].
  - eexists [_; _], _. split; [by rewrite <- !app_assoc|].
    split; [intros name flag; not_among|by left].
  - eexists [_; _; _], _. split; [by rewrite <- !app_assoc|].
    split; [intros name flag; not_among|by left].
Qed.

(** C7. A job taken by the realtime worker is completed whatever happens
    in the run: an exception of the fetch, or of the cache, is caught by
    the processor and logged, not thrown again.  The lock
    "coinbase-sync-lock" is released once, after everything the run has
    done. *)
Theorem realtime_lock_released_once (config : Config) (env : Env) (job : Job) (w : World) :
  doRealtimeWork config = true →
  (processor env job w).1 = Normal ()
  ∧ (∃ evs c,
       realtimeWorker config env job w
       = Some (completed,
               {| cache := c;
                  trace := trace w ++ evs ++ [EvReleaseLock "coinbase-sync-lock" false] |})
       ∧ ∀ name flag, EvReleaseLock name flag ∉ evs)
  ∧ (∀ e,
       get_fault env = None →
       fetchOrdersByPageToken env sell (default "" (cache w !! cacheKey)) = Throw e →
       realtimeWorker config env job w
       = Some (completed,
               {| cache := cache w;
                  trace := trace w
                           ++ [EvRedisGet cacheKey;
                               EvFetchOrdersByPageToken sell
                                 (default "" (cache w !! cacheKey));
                               EvLogError REALTIME_QUEUE_NAME;
                               EvReleaseLock "coinbase-sync-lock" false] |})).
Proof.
  intros Hwork.
  destruct (processor_resolves env job w) as (evs & c & Hp & Hno & _).
  split; [by rewrite Hp|]. split.
  - exists evs, c. split; [|exact Hno].
    unfold realtimeWorker, run_job. rewrite Hwork, Hp.
    unfold on_completed, releaseLock, record. simpl. by rewrite <- app_assoc.
  - intros e Hget Hfetch.
    unfold realtimeWorker, run_job. rewrite Hwork.
    unfold processor, try_catch_eff, redis_get, call_fetchOrdersByPageToken,
      log_error, record.
    unfold mbind, eff_bind. simpl. rewrite Hget. simpl. rewrite Hfetch. simpl.
    unfold on_completed, releaseLock, record. simpl. by rewrite <- !app_assoc.
Qed.

(** The start of a run when the cache can be read: the stored token is
    read and handed to the fetch. *)
Lemma run_job_starts (env : Env) (job : Job) (w : World) :
  get_fault env = None →
  ∃ evs,
    trace (run_job env job w).2
    = trace w
      ++ [EvRedisGet cacheKey;
          EvFetchOrdersByPageToken sell (default "" (cache w !! cacheKey))]
      ++ evs.
Proof.
  intros Hget. unfold run_job, processor, try_catch_eff, redis_get,
    call_fetchOrdersByPageToken, redis_set, log_error, on_completed, releaseLock, record.
  unfold mbind, eff_bind. simpl. rewrite Hget. simpl.
  destruct (fetchOrdersByPageToken env sell (default "" (cache w !! cacheKey)))
    as [[t|]|fe]; simpl.
  - destruct (truthy t); simpl.
    + destruct (set_fault env); simpl; eexists; rewrite <- !app_assoc; reflexivity.
    + eexists; rewrite <- !app_assoc; reflexivity.
  - eexists; rewrite <- !app_assoc; reflexivity.
  - eexists; rewrite <- !app_assoc; reflexivity.
Qed.

(** C8. A run whose fetch returns a non-empty token writes it to the
    cache under the key of the sync, over whatever was there, and the next
    run reads that token and starts the fetch from it.  A run whose fetch
    returns no token or the empty token, or which throws at the cache or
    in the fetch, leaves the cache as it was. *)
Theorem cursor_round_trip (env : Env) (job : Job) (w : World) :
  (∀ t,
     get_fault env = None →
     set_fault env = None →
     fetchOrdersByPageToken env sell (default "" (cache w !! cacheKey)) = Normal (Some t) →
     truthy t = true →
     cache (run_job env job w).2 = <[cacheKey := t]> (cache w)
     ∧ ∀ env' job',
         get_fault env' = None →
         ∃ evs,
           trace (run_job env' job' (run_job env job w).2).2
           = trace (run_job env job w).2
             ++ [EvRedisGet cacheKey; EvFetchOrdersByPageToken sell t] ++ evs)
  ∧ ((get_fault env ≠ None
      ∨ set_fault env ≠ None
      ∨ fetchOrdersByPageToken env sell (default "" (cache w !! cacheKey)) = Normal None
      ∨ fetchOrdersByPageToken env sell (default "" (cache w !! cacheKey))
        = Normal (Some "")
      ∨ ∃ e, fetchOrdersByPageToken env sell (default "" (cache w !! cacheKey)) = Throw e) →
     cache (run_job env job w).2 = cache w).
Proof.
  split.
  - intros t Hget Hset Hfetch Ht.
    assert (Hcache : cache (run_job env job w).2 = <[cacheKey := t]> (cache w)).
    { unfold run_job, processor, try_catch_eff, redis_get, call_fetchOrdersByPageToken,
        redis_set, on_completed, releaseLock, record.
      unfold mbind, eff_bind. simpl. rewrite Hget. simpl. rewrite Hfetch. simpl.
      rewrite Ht. rewrite Hset. reflexivity. }
    split; [exact Hcache|].
    intros env' job' Hget'.
    destruct (run_job_starts env' job' (run_job env job w).2 Hget') as [evs Hevs].
    exists evs. rewrite Hevs. rewrite Hcache. by rewrite lookup_insert_eq.
  - intros Hcase.
    unfold run_job, processor, try_catch_eff, redis_get, call_fetchOrdersByPageToken,
      redis_set, log_error, on_completed, releaseLock, record.
    unfold mbind, eff_bind. simpl.
    destruct (get_fault env) as [ge|] eqn:Hget; simpl; [done|].
    destruct (fetchOrdersByPageToken env sell (default "" (cache w !! cacheKey)))
      as [[t|]|fe] eqn:Hfetch; simpl; [|done..].
    destruct (truthy t) eqn:Ht; simpl; [|done].
    destruct (set_fault env) as [se|] eqn:Hset; simpl; [done|].
    destruct Hcase as [?|[?|[?|[Hempty|[e ?]]]]]; try done.
    injection Hempty as ->. discriminate.
Qed.

End RealtimeProperties.

Lemma realtime_lock_released_once_witness :
  Realtime.realtimeWorker Fixture.mainnet (Fixture.sync_env (Throw Fixture.error_500))
    Fixture.first_job Fixture.cold_cache
  = Some (Realtime.completed,
          {| Realtime.cache := ∅;
             Realtime.trace :=
               [] ++ [Realtime.EvRedisGet Realtime.cacheKey;
                      Realtime.EvFetchOrdersByPageToken sell "";
                      Realtime.EvLogError Realtime.REALTIME_QUEUE_NAME;
                      Realtime.EvReleaseLock "coinbase-sync-lock" false] |}).
Proof.
  destruct (realtime_lock_released_once Fixture.mainnet
              (Fixture.sync_env (Throw Fixture.error_500))
              Fixture.first_job Fixture.cold_cache eq_refl) as (_ & _ & Hthrow).
  apply (Hthrow Fixture.error_500); reflexivity.
Defined.

Lemma cursor_round_trip_witness :
  Realtime.cache
    (Realtime.run_job (Fixture.sync_env (Normal (Some "abc123")))
       Fixture.first_job Fixture.cold_cache).2
  = <[Realtime.cacheKey := "abc123"]> ∅
  ∧ Realtime.cache
      (Realtime.run_job (Fixture.sync_env (Normal (Some "")))
         Fixture.first_job Fixture.cold_cache).2
    = ∅.
Proof.
  destruct (cursor_round_trip (Fixture.sync_env (Normal (Some "abc123")))
              Fixture.first_job Fixture.cold_cache) as [Hset _].
  destruct (cursor_round_trip (Fixture.sync_env (Normal (Some "")))
              Fixture.first_job Fixture.cold_cache) as [_ Hkeep].
  split.
  - apply (Hset "abc123"); reflexivity.
  - apply Hkeep. right. right. right. left. reflexivity.
Defined.

(* ================================================================== *)
(** * Further properties of the code *)
(* ================================================================== *)

(** ** The parser and the URL builder *)

Section SeaportMore.
Context `{Sdk} (config : Config).

(** X1. [parseSeaportOrder] returns a parsed order exactly when the
    protocol address is the exchange of a protocol version on the chain
    and the constructor of that version completes; the version is 1.4
    whenever its address matches, 1.5 only when 1.4 does not match. *)
Theorem parseSeaportOrder_some_iff (o : SeaportOrder) (p : Parsed) :
  parseSeaportOrder config o = Normal (Some p) ↔
  (Exchange SeaportV14 (chainId config) = Some (protocol_address o)
   ∧ kind p = SeaportV14
   ∧ newOrder SeaportV14 (chainId config) (orderComponent o) = Normal (order p))
  ∨ (Exchange SeaportV14 (chainId config) ≠ Some (protocol_address o)
     ∧ Exchange SeaportV15 (chainId config) = Some (protocol_address o)
     ∧ kind p = SeaportV15
     ∧ newOrder SeaportV15 (chainId config) (orderComponent o) = Normal (order p)).
Proof.
  unfold parseSeaportOrder, parseSeaportOrder_try, try_catch.
  destruct (decide (Some (protocol_address o) = Exchange SeaportV14 (chainId config)))
    as [E14|N14].
  - destruct (newOrder SeaportV14 (chainId config) (orderComponent o)) as [ord|e] eqn:Hn;
      simpl; split.
    + intros [= <-]. left. by repeat split.
    + intros [(_ & Hk & Ho)|(Hne & _)]; [|by rewrite <- E14 in Hne].
      destruct p as [k ord']. simpl in *. congruence.
    + discriminate.
    + intros [(_ & _ & Ho)|(Hne & _)]; [discriminate|by rewrite <- E14 in Hne].
  - destruct (decide (Some (protocol_address o) = Exchange SeaportV15 (chainId config)))
      as [E15|N15].
    + destruct (newOrder SeaportV15 (chainId config) (orderComponent o)) as [ord|e] eqn:Hn;
        simpl; split.
      * intros [= <-]. right. repeat split; [congruence|done].
      * intros [(He & _)|(_ & _ & Hk & Ho)]; [congruence|].
        destruct p as [k ord']. simpl in *. congruence.
      * discriminate.
      * intros [(He & _)|(_ & _ & _ & Ho)]; [congruence|discriminate].
    + simpl. split; [discriminate|].
      intros [(He & _)|(_ & He & _)]; congruence.
Qed.

(** X2. [buildFetchOrdersURL] throws "Unsupported chain" on every chain
    other than 1, 5, 10, 137 and 42161, whatever the parameters.  On these
    five the result is [decodeURI] of the text built: the path (the
    override when one is given, the testnets host on chain 5 and the main
    host otherwise, then the network and the endpoint of the side), [?]
    and the serialised query.  The serialised query never stops
    [decodeURI]: the call returns exactly when the path decodes, with
    the decoded path, [?] and the decoded query; it throws nothing but
    the URIError, and without an override it returns the path as it
    is. *)
Theorem buildFetchOrdersURL_chains (params : FetchOrdersParams) :
  (chainId config ∈ [1; 5; 10; 137; 42161] →
   ∃ query,
     decodeURI (toString (queryParams params)) = Normal query
     ∧ buildFetchOrdersURL config params
       = (λ path, path +:+ "?" +:+ query)
         <$> decodeURI
               (baseApiUrl
                  (default (if decide (chainId config = 5)
                            then "https://testnets-api.opensea.io"
                            else "https://api.opensea.io")
                     (p_overrideBaseUrl params))
                  (if decide (chainId config = 1) then "ethereum"
                   else if decide (chainId config = 5) then "goerli"
                   else if decide (chainId config = 10) then "optimism"
                   else if decide (chainId config = 137) then "matic"
                   else "arbitrum")
                  (p_side params))
     ∧ (p_overrideBaseUrl params = None →
        buildFetchOrdersURL config params
        = Normal (baseApiUrl
                    (if decide (chainId config = 5)
                     then "https://testnets-api.opensea.io"
                     else "https://api.opensea.io")
                    (if decide (chainId config = 1) then "ethereum"
                     else if decide (chainId config = 5) then "goerli"
                     else if decide (chainId config = 10) then "optimism"
                     else if decide (chainId config = 137) then "matic"
                     else "arbitrum")
                    (p_side params)
                  +:+ "?" +:+ query))
     ∧ (∀ e, buildFetchOrdersURL config params = Throw e → e = URIError))
  ∧ (chainId config ∉ [1; 5; 10; 137; 42161] →
     buildFetchOrdersURL config params
     = Throw {| message := "Unsupported chain"; response_status := None |}).
Proof.
  split.
  - intros Hin.
    destruct (toString_decodes (queryParams params)) as [query Hq].
    exists query. split; [by apply decodes_decodeURI|].
    assert (Hb : buildFetchOrdersURL config params
       = (λ path, path +:+ "?" +:+ query)
         <$> decodeURI
               (baseApiUrl
                  (default (if decide (chainId config = 5)
                            then "https://testnets-api.opensea.io"
                            else "https://api.opensea.io")
                     (p_overrideBaseUrl params))
                  (if decide (chainId config = 1) then "ethereum"
                   else if decide (chainId config = 5) then "goerli"
                   else if decide (chainId config = 10) then "optimism"
                   else if decide (chainId config = 137) then "matic"
                   else "arbitrum")
                  (p_side params))).
    { unfold buildFetchOrdersURL.
      repeat (apply elem_of_cons in Hin as [Hin|Hin]);
        [..|by apply elem_of_nil in Hin]; rewrite Hin;
        repeat (destruct (decide (_ = _)) as [?|?]; try done);
        rewrite bind_Normal; apply (decodeURI_query _ _ _ Hq). }
    split; [exact Hb|]. split.
    + intros Ho. rewrite Hb, Ho. cbn [default].
      repeat (apply elem_of_cons in Hin as [Hin|Hin]);
        [..|by apply elem_of_nil in Hin]; rewrite Hin;
        repeat (destruct (decide (_ = _)) as [?|?]; try done);
        destruct (p_side params); reflexivity.
    + intros e. rewrite Hb.
      destruct (decodeURI (baseApiUrl _ _ _)) as [path|e'] eqn:Hp; [discriminate|].
      intros [= <-]. by eapply decodeURI_error.
  - intros Hnot. unfold buildFetchOrdersURL.
    repeat (destruct (decide _) as [E|_];
            [exfalso; apply Hnot; rewrite E; set_solver|]).
    reflexivity.
Qed.

(** X3. A falsy value of an optional parameter is the same to
    [buildFetchOrdersURL] as no value: an empty cursor, order field or
    contract, a limit of 0 and a time bound of 0 leave no trace in the
    URL. *)
Theorem buildFetchOrdersURL_drops_falsy (params : FetchOrdersParams) :
  buildFetchOrdersURL config params
  = buildFetchOrdersURL config
      {| p_overrideBaseUrl := p_overrideBaseUrl params;
         p_side := p_side params;
         p_orderBy := if truthy_opt (p_orderBy params) then p_orderBy params else None;
         p_orderDirection := p_orderDirection params;
         p_contract :=
           if truthy_opt (p_contract params) then p_contract params else None;
         p_limit := if truthy_num (p_limit params) then p_limit params else None;
         p_cursor := if truthy_opt (p_cursor params) then p_cursor params else None;
         p_listedBefore :=
           if truthy_num (p_listedBefore params) then p_listedBefore params else None;
         p_listedAfter :=
           if truthy_num (p_listedAfter params) then p_listedAfter params else None |}.
Proof.
  assert (Hs : ∀ v key, append_if v truthy_opt key (@Datatypes.id string)
                        = append_if (if truthy_opt v then v else None) truthy_opt key
                            (@Datatypes.id string)).
  { intros [s|] key; simpl; [|done]. destruct (truthy s) eqn:E; simpl; by rewrite ?E. }
  assert (Hn : ∀ v key, append_if v truthy_num key number_to_string
                        = append_if (if truthy_num v then v else None) truthy_num key
                            number_to_string).
  { intros [n|] key; simpl; [|done].
    destruct (negb (n =? 0)) eqn:E; simpl; by rewrite ?E. }
  unfold buildFetchOrdersURL, queryParams.
  cbn [p_overrideBaseUrl p_side p_orderBy p_orderDirection p_contract p_limit p_cursor
       p_listedBefore p_listedAfter].
  rewrite <- (Hs (p_orderBy params)), <- (Hs (p_cursor params)),
    <- (Hs (p_contract params)), <- (Hn (p_limit params)),
    <- (Hn (p_listedBefore params)), <- (Hn (p_listedAfter params)).
  reflexivity.
Qed.

End SeaportMore.

Lemma parseSeaportOrder_some_iff_witness :
  parseSeaportOrder (H := Fixture.sdk) Fixture.mainnet Fixture.good
  = Normal (Some (@mkParsed Fixture.sdk SeaportV15 (orderComponent Fixture.good))).
Proof.
  apply (parseSeaportOrder_some_iff (H := Fixture.sdk) Fixture.mainnet Fixture.good).
  right. repeat split; vm_compute; congruence.
Defined.

Lemma buildFetchOrdersURL_chains_witness :
  (buildFetchOrdersURL Fixture.mainnet Fixture.offers_by_contract
   = Normal "https://api.opensea.io/v2/orders/ethereum/seaport/offers?limit=50&cursor=a+b%41%2Fc&asset_contract_address=0xc0ffee"
   ∧ buildFetchOrdersURL Fixture.mainnet Fixture.stray_percent_override
     = Throw URIError)
  ∧ buildFetchOrdersURL {| chainId := 56; doRealtimeWork := false |}
      Fixture.offers_by_contract
    = Throw {| message := "Unsupported chain"; response_status := None |}.
Proof.
  split; [split|].
  - destruct (buildFetchOrdersURL_chains Fixture.mainnet Fixture.offers_by_contract)
      as [Hin _].
    destruct Hin as (query & Hq & _ & Hurl & _).
    { vm_compute. set_solver. }
    rewrite (Hurl eq_refl). vm_compute in Hq. injection Hq as <-. reflexivity.
  - destruct (buildFetchOrdersURL_chains Fixture.mainnet Fixture.stray_percent_override)
      as [Hin _].
    destruct Hin as (query & _ & Hb & _).
    { vm_compute. set_solver. }
    rewrite Hb. reflexivity.
  - apply buildFetchOrdersURL_chains.
    simpl. intros Hin. apply list_elem_of_In in Hin. simpl in Hin.
    intuition discriminate.
Defined.

(** ** Rows of a page *)

Lemma lower_ascii_idemp (c : ascii) : lower_ascii (lower_ascii c) = lower_ascii c.
Proof. destruct c as [[] [] [] [] [] [] [] []]; reflexivity. Qed.

Lemma toLowerCase_idemp (s : string) : toLowerCase (toLowerCase s) = toLowerCase s.
Proof. induction s as [|c s IH]; simpl; [done|]. by rewrite lower_ascii_idemp, IH. Qed.

(** A row read from the table after the statement was there before, or is
    a submitted row stored under its hash. *)
Lemma insert_origin (values : list Row) : ∀ (table : gmap string Row) n h r,
  (foldl insert_row (table, n) values).1 !! h = Some r →
  table !! h = Some r ∨ (table !! h = None ∧ r ∈ values ∧ hash r = h).
Proof.
  induction values as [|v values IH]; intros table n h r; simpl; [by left|].
  unfold insert_row at 2. simpl.
  destruct (table !! hash v) eqn:Hv.
  - intros Hl. apply IH in Hl as [?|(? & ? & ?)]; [by left|right].
    split; [done|]. split; [by right|done].
  - intros Hl. apply IH in Hl as [Hl|(Hn & Hin & Hh)].
    + destruct (decide (hash v = h)) as [<-|Hne].
      * rewrite lookup_insert_eq in Hl. injection Hl as <-. right.
        split; [done|]. split; [by left|done].
      * rewrite lookup_insert_ne in Hl by done. by left.
    + right. destruct (decide (hash v = h)) as [<-|Hne].
      * by rewrite lookup_insert_eq in Hn.
      * rewrite lookup_insert_ne in Hn by done. split; [done|]. split; [by right|done].
Qed.

Section RowsMore.
Context `{Sdk} (config : Config).

Lemma fanOut_rows (orders : list SeaportOrder) : ∀ arrays arrays',
  fanOut (handleOrder config) orders arrays = Normal arrays' →
  ∃ parsed rows,
    arrays' = (arrays.1 ++ parsed, arrays.2 ++ rows)
    ∧ hash <$> rows = (λ o, toLowerCase (order_hash o)) <$> orders
    ∧ data <$> rows = protocol_data <$> orders
    ∧ (length parsed ≤ length orders)%nat
    ∧ Forall row_lowercase rows.
Proof.
  induction orders as [|o orders IH]; intros arrays arrays'; simpl.
  - intros [= <-]. exists [], []. rewrite !app_nil_r. destruct arrays.
    repeat split; done.
  - destruct (parseSeaportOrder_total config o) as [parsed Hp].
    rewrite (handleOrder_unfold config o parsed arrays Hp). cbv zeta.
    assert (Hpush : ∃ one, push_parsed parsed arrays.1 = arrays.1 ++ one
                           ∧ (length one ≤ 1)%nat).
    { destruct parsed; simpl.
      - eexists [_]. split; [reflexivity|simpl; lia].
      - exists []. rewrite app_nil_r. split; [reflexivity|simpl; lia]. }
    destruct Hpush as (one & Hone & Hlen1).
    destruct (truthy_opt (info_contract parsed)); simpl.
    + intros Hf. apply IH in Hf as (ps & rows & -> & Hh & Hd & Hlen & Hlow). simpl.
      eexists (one ++ ps), (_ :: rows). rewrite Hone, <- !app_assoc.
      split; [reflexivity|]. rewrite !fmap_cons, Hh, Hd.
      split; [reflexivity|]. split; [reflexivity|].
      split; [rewrite length_app; simpl; lia|].
      constructor; [|done]. unfold row_lowercase, lowercase. simpl.
      by rewrite !toLowerCase_idemp.
    + destruct (offer (parameters (protocol_data o))); simpl; [discriminate|].
      intros Hf. apply IH in Hf as (ps & rows & -> & Hh & Hd & Hlen & Hlow). simpl.
      eexists (one ++ ps), (_ :: rows). rewrite Hone, <- !app_assoc.
      split; [reflexivity|]. rewrite !fmap_cons, Hh, Hd.
      split; [reflexivity|]. split; [reflexivity|].
      split; [rewrite length_app; simpl; lia|].
      constructor; [|done]. unfold row_lowercase, lowercase. simpl.
      by rewrite !toLowerCase_idemp.
Qed.

(** X4. When the handlers of a page complete, the batch has exactly one
    row per record, in page order: its hashes are the lowercased hashes
    of the records and its payloads their protocol data; target, maker and
    hash of every row are in lower case and its source is "opensea".  At
    most one parsed order per record is collected. *)
Theorem fanOut_one_row_per_record (orders : list SeaportOrder)
  (parsedOrders : list RelayOrder) (values : list Row) :
  fanOut (handleOrder config) orders ([], []) = Normal (parsedOrders, values) →
  hash <$> values = (λ o, toLowerCase (order_hash o)) <$> orders
  ∧ data <$> values = protocol_data <$> orders
  ∧ length values = length orders
  ∧ (length parsedOrders ≤ length orders)%nat
  ∧ Forall row_lowercase values.
Proof.
  intros Hf. apply fanOut_rows in Hf as (ps & rows & [= -> ->] & Hh & Hd & Hlen & Hlow).
  split; [done|]. split; [done|]. split; [|done].
  by rewrite <- (length_fmap hash), Hh, length_fmap.
Qed.

(** X5. The handler of fetchAllOrders and the handler of the other fetch
    operations throw on the same records, and on a record whose hash has
    no capital letter they push the same parsed order and the same row. *)
Theorem handlers_agree (o : SeaportOrder) (arrays : Arrays) :
  ((∃ e, handleOrder config o arrays = Throw e)
   ↔ (∃ e, handleOrder_all config o arrays = Throw e))
  ∧ (lowercase (order_hash o) →
     handleOrder_all config o arrays = handleOrder config o arrays).
Proof.
  destruct (parseSeaportOrder_total config o) as [parsed Hp].
  rewrite (handleOrder_unfold config o parsed arrays Hp).
  rewrite (handleOrder_all_unfold config o parsed arrays Hp). cbv zeta.
  split.
  - destruct (truthy_opt (info_contract parsed)); [split; intros [e ?]; discriminate|].
    destruct (offer (parameters (protocol_data o))); [done|].
    split; intros [e ?]; discriminate.
  - unfold lowercase. intros ->. reflexivity.
Qed.

End RowsMore.

(** ** The variables and requests of fetchOrders *)

Section LoopMore.
Context `{Sdk} (config : Config).
Implicit Types (f : Frame) (round : Round) (rest : list Round) (url : OrdersUrl).

Lemma append_if_truthy (v : option string) (key : string) :
  append_if v truthy_opt key (@Datatypes.id string)
  = if truthy_opt v then [(key, default "" v)] else [].
Proof. destruct v as [s|]; simpl; [destruct (truthy s)|]; reflexivity. Qed.

Lemma toString_last_decodes (name value tv : string) :
  all_safe name = true → decodes (urlencode value) tv →
  decodes (toString [(name, value)]) (name +:+ "=" +:+ tv).
Proof. intros Hn Hv. cbn [toString]. by apply decodes_pair. Qed.

Lemma toString_cons_decodes (name value tv tr : string) (p : string * string)
  (rest : list (string * string)) :
  all_safe name = true → decodes (urlencode value) tv →
  decodes (toString (p :: rest)) tr →
  decodes (toString ((name, value) :: p :: rest)) (name +:+ "=" +:+ tv +:+ "&" +:+ tr).
Proof.
  intros Hn Hv Hr. destruct p as [name' value'].
  change (toString ((name, value) :: (name', value') :: rest))
    with (urlencode name +:+ "=" +:+ urlencode value +:+ "&"
          +:+ toString ((name', value') :: rest)).
  rewrite (urlencode_safe name Hn).
  apply decodes_app; [by apply safe_decodes|].
  apply decodes_app; [by apply decodes_plain|].
  apply decodes_app; [done|].
  apply decodes_app; [by apply decodes_plain | done].
Qed.

Lemma literal_decodes (s : string) : all_safe s = true → decodes (urlencode s) s.
Proof. intros Hs. rewrite (urlencode_safe s Hs). by apply safe_decodes. Qed.

(** X6. The text of the page request of fetchOrders is the decoded path
    followed by [?order_by=created_date&limit=50&order_direction=desc],
    then [&cursor=] and the cursor when the run holds a non-empty one,
    then [&asset_contract_address=] and the contract when the details
    give a non-empty one: 50 records by creation date, descending, and
    never a time window.  The cursor and the contract stand in the text
    as [decodeURI] leaves what [URLSearchParams] wrote for them; a cursor
    of letters, digits and [*-._] stands as it is. *)
Theorem fetchOrders_url_query side details f url :
  fetchOrders_url config side details f = Normal url →
  ∃ path c a,
    (∃ baseUrl network, decodeURI (baseApiUrl baseUrl network side) = Normal path)
    ∧ decodeURI (urlencode (default "" (cursor f))) = Normal c
    ∧ decodeURI (urlencode (default "" (details ≫= d_contract))) = Normal a
    ∧ url = path +:+ "?order_by=created_date&limit=50&order_direction=desc"
            +:+ (if truthy_opt (cursor f) then "&cursor=" +:+ c else "")
            +:+ (if truthy_opt (details ≫= d_contract)
                 then "&asset_contract_address=" +:+ a else "")
    ∧ (all_safe (default "" (cursor f)) = true → c = default "" (cursor f)).
Proof.
  intros Hurl. unfold fetchOrders_url, buildFetchOrdersURL in Hurl.
  destruct (urlencode_decodes (default "" (cursor f))) as [c Hc].
  destruct (urlencode_decodes (default "" (details ≫= d_contract))) as [a Ha].
  assert (Hq : decodes
            (toString
               (queryParams
                  {| p_overrideBaseUrl := details ≫= overrideBaseUrl;
                     p_side := side;
                     p_orderBy := Some "created_date";
                     p_orderDirection := Some desc;
                     p_contract := details ≫= d_contract;
                     p_limit := Some limit;
                     p_cursor := cursor f;
                     p_listedBefore := None;
                     p_listedAfter := None |}))
            ("order_by=created_date&limit=50&order_direction=desc"
             +:+ (if truthy_opt (cursor f) then "&cursor=" +:+ c else "")
             +:+ (if truthy_opt (details ≫= d_contract)
                  then "&asset_contract_address=" +:+ a else ""))).
  { unfold queryParams.
    cbn [p_orderBy p_orderDirection p_contract p_limit p_cursor p_listedBefore
         p_listedAfter].
    rewrite !append_if_truthy.
    change (append_if (Some limit) truthy_num "limit" number_to_string)
      with [("limit", "50")].
    change (append_if (Some desc) (λ _, true) "order_direction" direction_to_string)
      with [("order_direction", "desc")].
    change (append_if None truthy_num "listed_before" number_to_string)
      with (@nil (string * string)).
    change (append_if None truthy_num "listed_after" number_to_string)
      with (@nil (string * string)).
    change (truthy_opt (Some "created_date")) with true. cbn iota.
    change (default "" (Some "created_date")) with "created_date".
    destruct (truthy_opt (cursor f)), (truthy_opt (details ≫= d_contract));
      cbn [app].
    - replace (_ +:+ _ +:+ _)
        with ("order_by" +:+ "=" +:+ "created_date" +:+ "&" +:+ "limit" +:+ "=" +:+ "50"
              +:+ "&" +:+ "order_direction" +:+ "=" +:+ "desc"
              +:+ "&" +:+ "cursor" +:+ "=" +:+ c
              +:+ "&" +:+ "asset_contract_address" +:+ "=" +:+ a) by reflexivity.
      apply (toString_cons_decodes "order_by" "created_date" "created_date" _ _ _
               eq_refl (literal_decodes "created_date" eq_refl)).
      apply (toString_cons_decodes "limit" "50" "50" _ _ _
               eq_refl (literal_decodes "50" eq_refl)).
      apply (toString_cons_decodes "order_direction" "desc" "desc" _ _ _
               eq_refl (literal_decodes "desc" eq_refl)).
      apply (toString_cons_decodes "cursor" _ c _ _ _ eq_refl Hc).
      exact (toString_last_decodes "asset_contract_address" _ a eq_refl Ha).
    - rewrite string_app_nil_r.
      replace (_ +:+ _ +:+ _)
        with ("order_by" +:+ "=" +:+ "created_date" +:+ "&" +:+ "limit" +:+ "=" +:+ "50"
              +:+ "&" +:+ "order_direction" +:+ "=" +:+ "desc"
              +:+ "&" +:+ "cursor" +:+ "=" +:+ c) by reflexivity.
      apply (toString_cons_decodes "order_by" "created_date" "created_date" _ _ _
               eq_refl (literal_decodes "created_date" eq_refl)).
      apply (toString_cons_decodes "limit" "50" "50" _ _ _
               eq_refl (literal_decodes "50" eq_refl)).
      apply (toString_cons_decodes "order_direction" "desc" "desc" _ _ _
               eq_refl (literal_decodes "desc" eq_refl)).
      exact (toString_last_decodes "cursor" _ c eq_refl Hc).
    - replace (_ +:+ _ +:+ _)
        with ("order_by" +:+ "=" +:+ "created_date" +:+ "&" +:+ "limit" +:+ "=" +:+ "50"
              +:+ "&" +:+ "order_direction" +:+ "=" +:+ "desc"
              +:+ "&" +:+ "asset_contract_address" +:+ "=" +:+ a) by reflexivity.
      apply (toString_cons_decodes "order_by" "created_date" "created_date" _ _ _
               eq_refl (literal_decodes "created_date" eq_refl)).
      apply (toString_cons_decodes "limit" "50" "50" _ _ _
               eq_refl (literal_decodes "50" eq_refl)).
      apply (toString_cons_decodes "order_direction" "desc" "desc" _ _ _
               eq_refl (literal_decodes "desc" eq_refl)).
      exact (toString_last_decodes "asset_contract_address" _ a eq_refl Ha).
    - replace (_ +:+ _ +:+ _)
        with ("order_by" +:+ "=" +:+ "created_date" +:+ "&" +:+ "limit" +:+ "=" +:+ "50"
              +:+ "&" +:+ "order_direction" +:+ "=" +:+ "desc") by reflexivity.
      apply (toString_cons_decodes "order_by" "created_date" "created_date" _ _ _
               eq_refl (literal_decodes "created_date" eq_refl)).
      apply (toString_cons_decodes "limit" "50" "50" _ _ _
               eq_refl (literal_decodes "50" eq_refl)).
      exact (toString_last_decodes "order_direction" "desc" "desc"
               eq_refl (literal_decodes "desc" eq_refl)). }
  assert (Hpath : ∀ baseUrl network,
            (λ path, path +:+ "?" +:+
               ("order_by=created_date&limit=50&order_direction=desc"
                +:+ (if truthy_opt (cursor f) then "&cursor=" +:+ c else "")
                +:+ (if truthy_opt (details ≫= d_contract)
                     then "&asset_contract_address=" +:+ a else "")))
            <$> decodeURI (baseApiUrl baseUrl network side) = Normal url →
            ∃ path,
              decodeURI (baseApiUrl baseUrl network side) = Normal path
              ∧ url = path +:+ "?order_by=created_date&limit=50&order_direction=desc"
                      +:+ (if truthy_opt (cursor f) then "&cursor=" +:+ c else "")
                      +:+ (if truthy_opt (details ≫= d_contract)
                           then "&asset_contract_address=" +:+ a else "")).
  { intros baseUrl network Hu.
    destruct (decodeURI (baseApiUrl baseUrl network side)) as [path|e]; [|discriminate].
    injection Hu as <-. by exists path. }
  assert (Hsafe : all_safe (default "" (cursor f)) = true → c = default "" (cursor f)).
  { intros Hs. pose proof (decodes_decodeURI _ _ Hc) as H1.
    pose proof (decodes_decodeURI _ _ (literal_decodes _ Hs)) as H2. congruence. }
  revert Hurl.
  repeat (destruct (decide _);
          [rewrite bind_Normal, (decodeURI_query _ _ _ Hq); cbn [p_overrideBaseUrl p_side];
           intros Hu; apply Hpath in Hu as (path & Hp & ->);
           exists path, c, a;
           (split; [by eexists _, _|]);
           (split; [by apply decodes_decodeURI|]);
           (split; [by apply decodes_decodeURI|]);
           split; [reflexivity|exact Hsafe]|]).
  discriminate.
Qed.

(** The [catch] block leaves the variables of the run and the table as
    they are. *)
Lemma catch_vars e f c f' :
  fetchOrders_catch e f = (c, f') →
  cursor f' = cursor f ∧ total f' = total f ∧ done f' = done f
  ∧ store (world f') = store (world f).
Proof.
  unfold fetchOrders_catch.
  destruct (decide (response_status e = Some 429)).
  - run_eff. destruct (truthy_opt (cursor f)); by intros [= <- <-].
  - by intros [= <- <-].
Qed.

(** X7. After a turn of the loop whose request was answered, the cursor of
    the run is the continuation token of that answer and the total has
    grown by the number of records of the page, whether the rest of the
    turn completes or fails; after a turn whose request failed, cursor and
    total are what they were. *)
Theorem iteration_cursor_total url round f c f' :
  try_catch_eff (fetchOrders_try config url round) fetchOrders_catch f = (c, f') →
  match reply round with
  | Normal response =>
      cursor f' = next response
      ∧ total f' = total f + Z.of_nat (length (orders response))
  | Throw _ => cursor f' = cursor f ∧ total f' = total f
  end.
Proof.
  unfold try_catch_eff, fetchOrders_try, in_world, axios_request, manyOrNone,
    addToRelayOrdersQueue, lift.
  run_eff.
  destruct (reply round) as [response|e]; simpl.
  2: { intros Hc. by apply catch_vars in Hc as (-> & -> & _). }
  destruct (fanOut (handleOrder config) (orders response) ([], []))
    as [[parsedOrders values]|e]; simpl.
  2: { intros Hc. by apply catch_vars in Hc as (-> & -> & _). }
  destruct values as [|v values]; simpl.
  - destruct parsedOrders as [|p parsedOrders]; simpl.
    + by intros [= <- <-].
    + destruct (queue_fault round); simpl.
      * intros Hc. by apply catch_vars in Hc as (-> & -> & _).
      * by intros [= <- <-].
  - destruct (db_fault round); simpl.
    + intros Hc. by apply catch_vars in Hc as (-> & -> & _).
    + destruct ((insertOnConflictDoNothing (v :: values) (store (world f))).2 =? 0)%nat;
        simpl; destruct parsedOrders as [|p parsedOrders]; simpl;
        try destruct (queue_fault round); simpl;
        try (by intros [= <- <-]);
        intros Hc; by apply catch_vars in Hc as (-> & -> & _).
Qed.

(** The [catch] block does nothing, or waits once. *)
Lemma catch_shape e f c f' :
  fetchOrders_catch e f = (c, f') → f' = f ∨ f' = after [EvSleep 5000] f.
Proof.
  unfold fetchOrders_catch.
  destruct (decide (response_status e = Some 429)).
  - run_eff. destruct (truthy_opt (cursor f)); intros [= <- <-]; [by right|by left].
  - intros [= <- <-]. by left.
Qed.

(** What a turn of the loop calls, and what it does to the table. *)
Lemma iteration_shape url round f c f' :
  try_catch_eff (fetchOrders_try config url round) fetchOrders_catch f = (c, f') →
  ∃ evs,
    trace (world f') = trace (world f) ++ EvRequest (GetOrders url) :: evs
    ∧ List.filter is_request evs = []
    ∧ (length (List.filter is_sleep evs) ≤ 1)%nat
    ∧ (length (List.filter is_insert evs) ≤ 1)%nat
    ∧ (length (List.filter is_enqueue evs) ≤ 1)%nat
    ∧ (store (world f') = store (world f)
       ∨ ∃ response parsedOrders values,
           reply round = Normal response
           ∧ fanOut (handleOrder config) (orders response) ([], [])
             = Normal (parsedOrders, values)
           ∧ store (world f') = (insertOnConflictDoNothing values (store (world f))).1).
Proof.
  unfold try_catch_eff, fetchOrders_try, in_world, axios_request, manyOrNone,
    addToRelayOrdersQueue, lift.
  run_eff.
  destruct (reply round) as [response|e]; simpl.
  2: { intros Hc. apply catch_shape in Hc as [->| ->]; simpl;
       eexists; (split; [rewrite <- ?app_assoc; simpl; reflexivity|]);
       simpl; repeat split; try lia; by left. }
  destruct (fanOut (handleOrder config) (orders response) ([], []))
    as [[parsedOrders values]|e] eqn:Hfan; simpl.
  2: { intros Hc. apply catch_shape in Hc as [->| ->]; simpl;
       eexists; (split; [rewrite <- ?app_assoc; simpl; reflexivity|]);
       simpl; repeat split; try lia; by left. }
  destruct values as [|v values]; simpl.
  - destruct parsedOrders as [|p parsedOrders]; simpl.
    + intros [= <- <-]. exists []. simpl. repeat split; try lia. by left.
    + destruct (queue_fault round); simpl.
      * intros Hc. apply catch_shape in Hc as [->| ->]; simpl;
          eexists; (split; [rewrite <- ?app_assoc; simpl; reflexivity|]);
          simpl; repeat split; try lia; by left.
      * intros [= <- <-]. simpl.
        eexists; (split; [rewrite <- ?app_assoc; simpl; reflexivity|]);
          simpl; repeat split; try lia; by left.
  - destruct (db_fault round); simpl.
    + intros Hc. apply catch_shape in Hc as [->| ->]; simpl;
        eexists; (split; [rewrite <- ?app_assoc; simpl; reflexivity|]);
        simpl; repeat split; try lia; by left.
    + destruct ((insertOnConflictDoNothing (v :: values) (store (world f))).2 =? 0)%nat;
        simpl; destruct parsedOrders as [|p parsedOrders]; simpl;
        try destruct (queue_fault round); simpl;
        intros Hc;
        try (apply catch_shape in Hc as [->| ->]);
        try (injection Hc as <- <-); simpl;
        eexists; (split; [rewrite <- ?app_assoc; simpl; reflexivity|]);
        simpl; repeat split; try lia; right; by eexists _, _, _.
Qed.

Lemma unsupported_chain_throws (params : FetchOrdersParams) :
  chainId config ∉ [1; 5; 10; 137; 42161] →
  buildFetchOrdersURL config params
  = Throw {| message := "Unsupported chain"; response_status := None |}.
Proof.
  intros Hnot. unfold buildFetchOrdersURL.
  repeat (destruct (decide _) as [E|_];
          [exfalso; apply Hnot; rewrite E; set_solver|]).
  reflexivity.
Qed.

(** X8. On a chain for which no URL can be built, fetchOrders and
    fetchAllOrders end before any call to the outside: fetchOrders throws
    "Unsupported chain" on entering the loop (or returns, when a negative
    cap keeps it out of the loop) with the world and the answers of the
    feed untouched, fetchAllOrders throws it with the world untouched. *)
Theorem unsupported_chain_no_request side details script w
  fromTimestamp toTimestamp c round :
  chainId config ∉ [1; 5; 10; 137; 42161] →
  fetchOrders config side details script w
  = (if loop_condition details {| cursor := None; total := 0; done := false; world := w |}
     then Threw {| message := "Unsupported chain"; response_status := None |}
     else Returned,
     {| cursor := None; total := 0; done := false; world := w |}, script)
  ∧ fetchAllOrders config fromTimestamp toTimestamp c round w
    = (Throw {| message := "Unsupported chain"; response_status := None |}, w).
Proof.
  intros Hnot. split.
  - unfold fetchOrders.
    destruct script; simpl; unfold fetchOrders_url;
      rewrite unsupported_chain_throws by done;
      by destruct (loop_condition _ _).
  - unfold fetchAllOrders, fetchAllOrders_url.
    rewrite unsupported_chain_throws by done. reflexivity.
Qed.

(** X9. The cap [maxOrders]: once the total has reached a non-zero cap the
    loop returns without a request, and a cap of 0 is no cap: the run is
    the run without [maxOrders]. *)
Theorem maxOrders_cap side (d : Details) script f :
  (∀ m, maxOrders d = Some m → m ≠ 0 → m ≤ total f →
        fetchOrders_loop config side (Some d) script f = (Returned, f, script))
  ∧ (maxOrders d = Some 0 →
     fetchOrders_loop config side (Some d) script f
     = fetchOrders_loop config side
         (Some {| apiKey := apiKey d; overrideBaseUrl := overrideBaseUrl d;
                  d_contract := d_contract d; maxOrders := None |})
         script f).
Proof.
  split.
  - intros m Hm Hne Hle.
    assert (Hc : loop_condition (Some d) f = false).
    { unfold loop_condition. simpl. rewrite Hm. simpl.
      destruct (m =? 0) eqn:E; [lia|]. simpl.
      destruct (total f <? m) eqn:E'; [lia|]. by rewrite andb_false_r. }
    destruct script; simpl; by rewrite Hc.
  - intros H0.
    set (d0 := {| apiKey := apiKey d; overrideBaseUrl := overrideBaseUrl d;
                  d_contract := d_contract d; maxOrders := None |}).
    assert (Hc : ∀ f, loop_condition (Some d) f = loop_condition (Some d0) f).
    { intros f0. unfold loop_condition. simpl. by rewrite H0. }
    assert (Hu : ∀ f, fetchOrders_url config side (Some d) f
                      = fetchOrders_url config side (Some d0) f) by done.
    revert f. induction script as [|round rest IH]; intros f; simpl;
      rewrite Hc, Hu; [done|].
    destruct (loop_condition (Some d0) f); [|done].
    destruct (fetchOrders_url config side (Some d0) f) as [url|e]; [|done].
    destruct (try_catch_eff (fetchOrders_try config url round) fetchOrders_catch f)
      as [[[]|e] f1]; [apply IH|done].
Qed.

(** X10. The loop returns normally only through the heuristic or the
    cap: at a normal return [done] is set, or a non-zero [maxOrders] has
    been reached by the total. *)
Theorem loop_returns_when side details script : ∀ f f' left,
  fetchOrders_loop config side details script f = (Returned, f', left) →
  done f' = true
  ∨ ∃ m, details ≫= maxOrders = Some m ∧ m ≠ 0 ∧ m ≤ total f'.
Proof.
  assert (Hcond : ∀ f, loop_condition details f = false →
            done f = true ∨ ∃ m, details ≫= maxOrders = Some m ∧ m ≠ 0 ∧ m ≤ total f).
  { intros f. unfold loop_condition. destruct (done f); [by left|]. simpl.
    destruct (details ≫= maxOrders) as [m|] eqn:Hm; simpl; [|done].
    destruct (m =? 0) eqn:E; simpl; [done|].
    intros Hlt. right. exists m. repeat split; lia. }
  induction script as [|round rest IH]; intros f f' left; simpl.
  - destruct (loop_condition details f) eqn:Hc.
    + by destruct (fetchOrders_url config side details f).
    + intros [= <- <-]. by apply Hcond.
  - destruct (loop_condition details f) eqn:Hc.
    + destruct (fetchOrders_url config side details f) as [url|e]; [|done].
      destruct (try_catch_eff (fetchOrders_try config url round) fetchOrders_catch f)
        as [[[]|e] f1]; [apply IH|done].
    + intros [= <- <-]. by apply Hcond.
Qed.

(** X11. Every answer of the feed that a run consumes is one request: a
    run ends with the unused answers as a suffix of those given, has made
    exactly as many requests as it used answers, and at most as many
    waits, inserts and enqueue calls. *)
Theorem one_request_per_round side details script : ∀ f outcome f' left,
  fetchOrders_loop config side details script f = (outcome, f', left) →
  ∃ used evs,
    script = used ++ left
    ∧ trace (world f') = trace (world f) ++ evs
    ∧ length (List.filter is_request evs) = length used
    ∧ (length (List.filter is_sleep evs) ≤ length used)%nat
    ∧ (length (List.filter is_insert evs) ≤ length used)%nat
    ∧ (length (List.filter is_enqueue evs) ≤ length used)%nat.
Proof.
  assert (Hstop : ∀ f (l : list Round), ∃ (used : list Round) (evs : list Event),
            l = used ++ l ∧ trace (world f) = trace (world f) ++ evs
            ∧ length (List.filter is_request evs) = length used
            ∧ (length (List.filter is_sleep evs) ≤ length used)%nat
            ∧ (length (List.filter is_insert evs) ≤ length used)%nat
            ∧ (length (List.filter is_enqueue evs) ≤ length used)%nat).
  { intros f l. exists [], []. by rewrite app_nil_r. }
  induction script as [|round rest IH]; intros f outcome f' left; simpl.
  - destruct (loop_condition details f);
      [destruct (fetchOrders_url config side details f)|];
      intros [= <- <- <-]; apply Hstop.
  - destruct (loop_condition details f);
      [destruct (fetchOrders_url config side details f) as [url|e]|];
      try (intros [= <- <- <-]; apply Hstop).
    destruct (try_catch_eff (fetchOrders_try config url round) fetchOrders_catch f)
      as [[[]|e] f1] eqn:Hit;
      apply iteration_shape in Hit as (evs1 & Htr & Hreq & Hsl & Hins & Henq & _).
    + intros Hl. apply IH in Hl as (used & evs & -> & -> & Hr' & Hs' & Hi' & He').
      exists (round :: used), (EvRequest (GetOrders url) :: evs1 ++ evs).
      split; [done|]. rewrite Htr, <- app_assoc. split; [done|].
      simpl. rewrite !List.filter_app, !length_app, Hreq. simpl. lia.
    + intros [= <- <- <-].
      exists [round], (EvRequest (GetOrders url) :: evs1).
      split; [done|]. split; [done|]. simpl. rewrite Hreq. simpl. lia.
Qed.

End LoopMore.

(** ** The one-page fetch operations *)

Section OnePageMore.
Context `{Sdk} (config : Config).

Lemma fetchListingsBySlug_shape slug round w c w' :
  fetchListingsBySlug config slug round w = (c, w') →
  one_page_shape (handleOrder config) round w w'.
Proof.
  unfold one_page_shape, fetchListingsBySlug, try_catch_eff, axios_request, manyOrNone,
    addToRelayOrdersQueue, lift, throw, record.
  run_eff.
  destruct (reply round) as [response|e]; simpl; [|intros [= <- <-]; page_calls].
  destruct (fanOut (handleOrder config) (orders response) ([], []))
    as [[parsedOrders values]|e] eqn:Hfan; simpl; [|intros [= <- <-]; page_calls].
  destruct values as [|v values]; simpl;
    [|destruct (db_fault round); simpl; [intros [= <- <-]; page_calls|]];
    (destruct parsedOrders as [|p parsedOrders]; simpl;
     [|destruct (queue_fault round); simpl]);
    intros [= <- <-]; page_calls.
Qed.

Lemma fetchCollectionOffers_shape contract tokenId apiKey round w c w' :
  fetchCollectionOffers config contract tokenId apiKey round w = (c, w') →
  one_page_shape (handleOrder config) round w w'.
Proof.
  unfold one_page_shape, fetchCollectionOffers, try_catch_eff, axios_request, manyOrNone,
    addToRelayOrdersQueue, lift, throw, record.
  run_eff.
  destruct (reply round) as [response|e]; simpl; [|intros [= <- <-]; page_calls].
  destruct (fanOut (handleOrder config) (orders response) ([], []))
    as [[parsedOrders values]|e] eqn:Hfan; simpl; [|intros [= <- <-]; page_calls].
  destruct values as [|v values]; simpl;
    [|destruct (db_fault round); simpl; [intros [= <- <-]; page_calls|]];
    (destruct parsedOrders as [|p parsedOrders]; simpl;
     [|destruct (queue_fault round); simpl]);
    intros [= <- <-]; page_calls.
Qed.

Lemma fetchAllOrders_shape fromTimestamp toTimestamp cursor round w c w' url :
  fetchAllOrders_url config fromTimestamp toTimestamp cursor = Normal url →
  fetchAllOrders config fromTimestamp toTimestamp cursor round w = (c, w') →
  one_page_shape (handleOrder_all config) round w w'.
Proof.
  intros Hu. unfold fetchAllOrders. unfold mbind at 1. unfold eff_bind, lift at 1.
  rewrite Hu.
  unfold one_page_shape, try_catch_eff, axios_request, manyOrNone,
    addToRelayOrdersQueue, lift, throw, record.
  run_eff.
  destruct (reply round) as [response|e]; simpl; [|intros [= <- <-]; page_calls].
  destruct (fanOut (handleOrder_all config) (orders response) ([], []))
    as [[parsedOrders values]|e] eqn:Hfan; simpl; [|intros [= <- <-]; page_calls].
  destruct values as [|v values]; simpl;
    [|destruct (db_fault round); simpl; [intros [= <- <-]; page_calls|]];
    (destruct parsedOrders as [|p parsedOrders]; simpl;
     [|destruct (queue_fault round); simpl]);
    intros [= <- <-]; page_calls.
Qed.


End OnePageMore.

(** ** What the fetch operations do to the table *)

Section TableMore.
Context `{Sdk} (config : Config).

(** The table after the rows of a page were inserted: old rows are kept,
    and a new row is a row of the page under its hash. *)
Lemma page_insert_rows (handle : SeaportOrder → Arrays → Completion Arrays)
  (round : Round) (table table' : gmap string Row) :
  (table' = table
   ∨ ∃ response parsedOrders values,
       reply round = Normal response
       ∧ fanOut handle (orders response) ([], []) = Normal (parsedOrders, values)
       ∧ table' = (insertOnConflictDoNothing values table).1) →
  ∀ h r,
    (table !! h = Some r → table' !! h = Some r)
    ∧ (table' !! h = Some r →
       table !! h = Some r
       ∨ (table !! h = None ∧ hash r = h
          ∧ ∃ response parsedOrders values,
              fanOut handle (orders response) ([], []) = Normal (parsedOrders, values)
              ∧ r ∈ values)).
Proof.
  intros [->|(response & parsedOrders & values & Hr & Hfan & ->)] h r.
  - split; [done|by left].
  - unfold insertOnConflictDoNothing. split.
    + apply insert_preserves.
    + intros Hl. apply insert_origin in Hl as [?|(Hn & Hin & Hh)]; [by left|].
      right. split; [done|]. split; [done|]. by eexists _, _, _.
Qed.

Lemma handled_rows_lowercase (orders : list SeaportOrder)
  (parsedOrders : list RelayOrder) (values : list Row) (r : Row) :
  fanOut (handleOrder config) orders ([], []) = Normal (parsedOrders, values) →
  r ∈ values → row_lowercase r.
Proof.
  intros Hf Hin.
  apply fanOut_rows in Hf as (ps & rows & [= -> ->] & _ & _ & _ & Hlow).
  rewrite Forall_forall in Hlow. by apply Hlow.
Qed.

Lemma loop_table side details script : ∀ f outcome f' left,
  fetchOrders_loop config side details script f = (outcome, f', left) →
  ∀ h r,
    (store (world f) !! h = Some r → store (world f') !! h = Some r)
    ∧ (store (world f') !! h = Some r →
       store (world f) !! h = Some r
       ∨ (store (world f) !! h = None ∧ hash r = h ∧ row_lowercase r)).
Proof.
  induction script as [|round rest IH]; intros f outcome f' left; simpl.
  - destruct (loop_condition details f);
      [destruct (fetchOrders_url config side details f)|];
      intros [= <- <- <-] h r; (split; [done|by left]).
  - destruct (loop_condition details f);
      [destruct (fetchOrders_url config side details f) as [url|e]|];
      try (intros [= <- <- <-] h r; (split; [done|by left])).
    destruct (try_catch_eff (fetchOrders_try config url round) fetchOrders_catch f)
      as [[[]|e] f1] eqn:Hit;
      apply iteration_shape in Hit as (evs1 & _ & _ & _ & _ & _ & Hst);
      pose proof (page_insert_rows (handleOrder config) round _ _ Hst) as Hpage.
    + intros Hl h r. destruct (IH _ _ _ _ Hl h r) as [Hkeep Hnew].
      destruct (Hpage h r) as [Hkeep1 Hnew1]. split; [auto|].
      intros Hl'. apply Hnew in Hl' as [Hold|(Hnone & Hh & Hlow)].
      * apply Hnew1 in Hold as [?|(? & ? & response & ps & vs & Hfan & Hin)];
          [by left|right].
        split; [done|]. split; [done|]. by eapply handled_rows_lowercase.
      * right. split; [|done].
        destruct (store (world f) !! h) as [r0|] eqn:E; [|done].
        destruct (Hpage h r0) as [Hk _]. rewrite Hk in Hnone; done.
    + intros [= <- <- <-] h r. destruct (Hpage h r) as [Hkeep1 Hnew1].
      split; [done|]. intros Hl'.
      apply Hnew1 in Hl' as [?|(? & ? & response & ps & vs & Hfan & Hin)];
        [by left|right].
      split; [done|]. split; [done|]. by eapply handled_rows_lowercase.
Qed.

(** X13. No fetch operation changes or removes a stored row: a row that
    is in the table before fetchOrders, fetchAllOrders,
    fetchListingsBySlug or fetchCollectionOffers is in it, unchanged,
    afterwards, however the operation ends. *)
Theorem fetch_keeps_stored_rows (h : string) (r : Row) round :
  (∀ side details script f outcome f' left,
     fetchOrders_loop config side details script f = (outcome, f', left) →
     store (world f) !! h = Some r → store (world f') !! h = Some r)
  ∧ (∀ fromTimestamp toTimestamp cursor w,
       store w !! h = Some r →
       store (fetchAllOrders config fromTimestamp toTimestamp cursor round w).2 !! h
       = Some r)
  ∧ (∀ slug w,
       store w !! h = Some r →
       store (fetchListingsBySlug config slug round w).2 !! h = Some r)
  ∧ (∀ contract tokenId apiKey w,
       store w !! h = Some r →
       store (fetchCollectionOffers config contract tokenId apiKey round w).2 !! h
       = Some r).
Proof.
  split; [|split; [|split]].
  - intros side details script f outcome f' left Hl. by apply (loop_table _ _ _ _ _ _ _ Hl).
  - intros fromTimestamp toTimestamp cursor w Hold.
    destruct (fetchAllOrders_url config fromTimestamp toTimestamp cursor) as [url|e] eqn:Hu.
    + destruct (fetchAllOrders_shape config fromTimestamp toTimestamp cursor round w
                  _ _ url Hu (surjective_pairing _))
        as (req & evs & _ & _ & _ & _ & _ & Hst).
      by apply (page_insert_rows (handleOrder_all config) round _ _ Hst).
    + unfold fetchAllOrders. unfold mbind at 1. unfold eff_bind, lift at 1.
      by rewrite Hu.
  - intros slug w Hold.
    destruct (fetchListingsBySlug_shape config slug round w _ _ (surjective_pairing _))
      as (req & evs & _ & _ & _ & _ & _ & Hst).
    by apply (page_insert_rows (handleOrder config) round _ _ Hst).
  - intros contract tokenId apiKey w Hold.
    destruct (fetchCollectionOffers_shape config contract tokenId apiKey round w _ _
                (surjective_pairing _))
      as (req & evs & _ & _ & _ & _ & _ & Hst).
    by apply (page_insert_rows (handleOrder config) round _ _ Hst).
Qed.

(** X14. Every row that fetchOrders, fetchListingsBySlug or
    fetchCollectionOffers adds to the table is stored under its own hash,
    with hash, target and maker in lower case and source "opensea". *)
Theorem fetch_writes_lowercase_rows (h : string) (r : Row) round :
  (∀ side details script f outcome f' left,
     fetchOrders_loop config side details script f = (outcome, f', left) →
     store (world f) !! h = None → store (world f') !! h = Some r →
     hash r = h ∧ row_lowercase r)
  ∧ (∀ slug w,
       store w !! h = None →
       store (fetchListingsBySlug config slug round w).2 !! h = Some r →
       hash r = h ∧ row_lowercase r)
  ∧ (∀ contract tokenId apiKey w,
       store w !! h = None →
       store (fetchCollectionOffers config contract tokenId apiKey round w).2 !! h
       = Some r →
       hash r = h ∧ row_lowercase r).
Proof.
  split; [|split].
  - intros side details script f outcome f' left Hl Hnone Hnew.
    destruct (loop_table _ _ _ _ _ _ _ Hl h r) as [_ Horigin].
    destruct (Horigin Hnew) as [Hold|(_ & ? & ?)]; [congruence|done].
  - intros slug w Hnone Hnew.
    destruct (fetchListingsBySlug_shape config slug round w _ _ (surjective_pairing _))
      as (req & evs & _ & _ & _ & _ & _ & Hst).
    destruct (page_insert_rows (handleOrder config) round _ _ Hst h r) as [_ Horigin].
    destruct (Horigin Hnew) as [Hold|(_ & ? & response & ps & vs & Hfan & Hin)];
      [congruence|].
    split; [done|]. by eapply handled_rows_lowercase.
  - intros contract tokenId apiKey w Hnone Hnew.
    destruct (fetchCollectionOffers_shape config contract tokenId apiKey round w _ _
                (surjective_pairing _))
      as (req & evs & _ & _ & _ & _ & _ & Hst).
    destruct (page_insert_rows (handleOrder config) round _ _ Hst h r) as [_ Horigin].
    destruct (Horigin Hnew) as [Hold|(_ & ? & response & ps & vs & Hfan & Hin)];
      [congruence|].
    split; [done|]. by eapply handled_rows_lowercase.
Qed.

End TableMore.

(** ** Pages without records, and pages fetched again *)

Section PagesMore.
Context `{Sdk} (config : Config).

Lemma empty_page_turn url round f c :
  reply round = Normal {| orders := []; next := c |} →
  try_catch_eff (fetchOrders_try config url round) fetchOrders_catch f
  = (Normal (),
     {| cursor := c; total := total f; done := done f;
        world := record (EvRequest (GetOrders url)) (world f) |}).
Proof.
  intros Hr. unfold try_catch_eff, fetchOrders_try, in_world, axios_request.
  run_eff. rewrite Hr. simpl. by rewrite Z.add_0_r.
Qed.

(** X15. A feed that answers every request with a page without records
    never ends a run: however many such pages are given, the loop has
    asked for each of them, has not touched the table, the total or
    [done], and is asking for one more. *)
Theorem empty_pages_never_end side details script : ∀ f url,
  Forall (λ round, ∃ c, reply round = Normal {| orders := []; next := c |}) script →
  loop_condition details f = true →
  fetchOrders_url config side details f = Normal url →
  ∃ f' evs,
    fetchOrders_loop config side details script f = (AwaitingPage, f', [])
    ∧ done f' = false
    ∧ total f' = total f
    ∧ store (world f') = store (world f)
    ∧ trace (world f') = trace (world f) ++ evs
    ∧ List.filter is_request evs = evs
    ∧ length evs = length script.
Proof.
  induction script as [|round rest IH]; intros f url Hall Hc Hu.
  - exists f, []. simpl. rewrite Hc, Hu, app_nil_r. repeat split.
    unfold loop_condition in Hc. by destruct (done f).
  - apply Forall_cons in Hall as [[c Hr] Hall].
    rewrite (loop_step config side details round rest f url Hc Hu).
    rewrite (empty_page_turn url round f c Hr).
    destruct (fetchOrders_url_builds config side details f
                {| cursor := c; total := total f; done := done f;
                   world := record (EvRequest (GetOrders url)) (world f) |} url Hu)
      as [url' Hu'].
    destruct (IH {| cursor := c; total := total f; done := done f;
                    world := record (EvRequest (GetOrders url)) (world f) |}
                url' Hall)
      as (f' & evs & Hl & Hd & Ht & Hs & Htr & Hreq & Hlen);
      [exact Hc|exact Hu'|].
    exists f', (EvRequest (GetOrders url) :: evs).
    split; [exact Hl|]. split; [done|]. split; [done|]. split; [done|].
    split; [rewrite Htr; simpl; by rewrite <- app_assoc|].
    split; [simpl; by rewrite Hreq|simpl; by rewrite Hlen].
Qed.

(** The statement run again on the table it has left returns no row. *)
Lemma insert_again (values : list Row) (table : gmap string Row) :
  insertOnConflictDoNothing values (insertOnConflictDoNothing values table).1
  = ((insertOnConflictDoNothing values table).1, 0%nat).
Proof.
  unfold insertOnConflictDoNothing.
  apply insert_all_present. intros r Hr. by apply insert_covers.
Qed.

(** X16. Fetching the same page of a collection a second time, with
    nothing failing, makes the same calls as the first time, the same
    enqueue of every parsed order of the page included, and leaves the
    table as the first fetch left it: the insert skips the rows, the queue
    gets the orders again. *)
Theorem refetch_repeats_enqueue round response parsedOrders values :
  reply round = Normal response →
  fanOut (handleOrder config) (orders response) ([], []) = Normal (parsedOrders, values) →
  db_fault round = None →
  queue_fault round = None →
  (∀ slug w, ∃ evs w1 w2,
     fetchListingsBySlug config slug round w = (Normal (), w1)
     ∧ fetchListingsBySlug config slug round w1 = (Normal (), w2)
     ∧ trace w1 = trace w ++ evs
     ∧ trace w2 = trace w1 ++ evs
     ∧ store w2 = store w1
     ∧ List.filter is_enqueue evs
       = match parsedOrders with [] => [] | _ => [EvEnqueue parsedOrders true] end)
  ∧ (∀ contract tokenId apiKey w, ∃ evs w1 w2,
       fetchCollectionOffers config contract tokenId apiKey round w = (Normal (), w1)
       ∧ fetchCollectionOffers config contract tokenId apiKey round w1 = (Normal (), w2)
       ∧ trace w1 = trace w ++ evs
       ∧ trace w2 = trace w1 ++ evs
       ∧ store w2 = store w1
       ∧ List.filter is_enqueue evs
         = match parsedOrders with [] => [] | _ => [EvEnqueue parsedOrders true] end).
Proof.
  intros Hr Hfan Hdb Hq. split.
  - intros slug w.
    unfold fetchListingsBySlug, try_catch_eff, axios_request, manyOrNone,
      addToRelayOrdersQueue, lift, record.
    run_eff. rewrite Hr. simpl. rewrite Hfan. simpl.
    destruct values as [|v values]; simpl; rewrite ?Hdb; simpl;
      destruct parsedOrders as [|p parsedOrders]; simpl; rewrite ?Hq; simpl;
      eexists _, _, _; (split; [reflexivity|]); (split; [reflexivity|]); simpl;
      rewrite ?insert_again; simpl;
      (split; [rewrite <- ?app_assoc; simpl; reflexivity|]);
      (split; [rewrite <- ?app_assoc; simpl; reflexivity|]); by split.
  - intros contract tokenId apiKey w.
    unfold fetchCollectionOffers, try_catch_eff, axios_request, manyOrNone,
      addToRelayOrdersQueue, lift, record.
    run_eff. rewrite Hr. simpl. rewrite Hfan. simpl.
    destruct values as [|v values]; simpl; rewrite ?Hdb; simpl;
      destruct parsedOrders as [|p parsedOrders]; simpl; rewrite ?Hq; simpl;
      eexists _, _, _; (split; [reflexivity|]); (split; [reflexivity|]); simpl;
      rewrite ?insert_again; simpl;
      (split; [rewrite <- ?app_assoc; simpl; reflexivity|]);
      (split; [rewrite <- ?app_assoc; simpl; reflexivity|]); by split.
Qed.

End PagesMore.

(** ** The probes of a refresh *)

Section ProbesMore.
Context (env : Indexer).

(** The loop over the gathered collections computes [probes_of], asks for
    the tokens of every collection, and calls neither the ranking source
    nor [add]. *)
Lemma sample_collections_probes (cs : list Collection) :
  ∀ (k : nat) (acc : list FetchOffersCollection) (t : list RefreshEvent),
    ∃ evs,
      sample_collections env k cs acc t = (Normal (acc ++ probes_of env k cs), t ++ evs)
      ∧ List.filter is_add evs = []
      ∧ List.filter is_get_collections evs = []
      ∧ List.filter is_get_token_ids evs = (λ c, EvGetTokenIds (id c) 50) <$> cs.
Proof.
  induction cs as [|c0 cs IH]; intros k acc t.
  - exists []. simpl. by rewrite !app_nil_r.
  - simpl. unfold mbind at 1. unfold eff_bind, try_catch_eff.
    unfold mbind at 1. unfold eff_bind, get_token_ids.
    destruct (tokens_ids_v1 env k (id c0)) as [tokens0|e0]; simpl.
    + destruct (IH (S k)
                  (acc ++ [{| collection := id c0; foc_contract := primaryContract c0;
                              tokenId := sample (random env k) tokens0 |}])
                  (t ++ [EvGetTokenIds (id c0) 50]))
        as (evs & -> & Hadd & Hget & Htok).
      exists (EvGetTokenIds (id c0) 50 :: evs).
      rewrite <- !app_assoc. simpl. by rewrite Hadd, Hget, Htok.
    + unfold log_error. simpl.
      destruct (IH (S k) acc
                  ((t ++ [EvGetTokenIds (id c0) 50])
                   ++ [EvLogError "refresh_collections"
                         ("Failed to refresh collection. collectionId=" +:+ id c0)]))
        as (evs & -> & Hadd & Hget & Htok).
      eexists (EvGetTokenIds (id c0) 50 :: _ :: evs).
      rewrite <- !app_assoc. simpl. by rewrite Hadd, Hget, Htok.
Qed.

Lemma collect_pages_calls (todo : nat) :
  ∀ (i : nat) (c : option string) (acc : list Collection) (t : list RefreshEvent) r t',
    collect_pages env todo i c acc t = (r, t') →
    ∃ evs, t' = t ++ evs
           ∧ List.filter is_add evs = []
           ∧ List.filter is_get_token_ids evs = [].
Proof.
  intros i c acc t r t' Hrun.
  destruct (collect_pages_trace env todo i c acc t r t' Hrun) as (conts & -> & _).
  exists (EvGetCollections 20 <$> conts). split; [done|]. clear Hrun.
  induction conts as [|c0 conts IH]; simpl; [done|]. exact IH.
Qed.

(** X17. When the ranking gave collections, the refresh asks for the
    tokens of each of them, in the order of the ranking, and calls [add]
    exactly once, with the probes of the collections whose token request
    succeeded, in that order, and the flag set. *)
Theorem refresh_adds_probes (cs : list Collection) (t1 : list RefreshEvent) :
  collect_pages env (Z.to_nat (ceil_div MAX_FETCH_OFFERS_COLLECTIONS 20))
    0%nat None [] [] = (Normal cs, t1) →
  cs ≠ [] →
  List.filter is_add (refreshCollectionsToFetchOffers env []).2
  = [EvAdd (probes_of env 0%nat cs) true]
  ∧ List.filter is_get_token_ids (refreshCollectionsToFetchOffers env []).2
    = (λ c, EvGetTokenIds (id c) 50) <$> cs.
Proof.
  intros Hrun Hne.
  destruct (collect_pages_calls _ _ _ _ _ _ _ Hrun) as (evs1 & Ht1 & Hadd1 & Htok1).
  simpl in Ht1. subst t1.
  destruct (sample_collections_probes cs 0%nat [] evs1) as (evs & Hs & Hadd & _ & Htok).
  assert (Hres : ∃ tail,
            refreshCollectionsToFetchOffers env []
            = (Normal (), evs1 ++ evs ++ EvAdd (probes_of env 0%nat cs) true :: tail)
            ∧ List.filter is_add tail = []
            ∧ List.filter is_get_token_ids tail = []).
  { unfold refreshCollectionsToFetchOffers, try_catch_eff.
    unfold mbind at 1. unfold eff_bind. rewrite Hrun.
    destruct cs as [|c cs]; [done|].
    change (0 <? length (c :: cs))%nat with true. cbv iota.
    unfold mbind, eff_bind. rewrite Hs. unfold add, log_error.
    destruct (add_fault env); simpl; eexists; rewrite <- !app_assoc; by split. }
  destruct Hres as (tail & -> & Hadd2 & Htok2). simpl.
  rewrite !List.filter_app. simpl.
  rewrite Hadd1, Hadd, Hadd2, Htok1, Htok, Htok2. simpl. by rewrite app_nil_r.
Qed.

(** X18. When a request to the ranking source throws, or the ranking is
    empty, the refresh completes without a token request and without
    calling [add]: what was stored stays, and what earlier pages gave is
    dropped. *)
Theorem refresh_without_ranking (r : Completion (list Collection))
  (t1 : list RefreshEvent) :
  collect_pages env (Z.to_nat (ceil_div MAX_FETCH_OFFERS_COLLECTIONS 20))
    0%nat None [] [] = (r, t1) →
  r = Normal [] ∨ (∃ e, r = Throw e) →
  (refreshCollectionsToFetchOffers env []).1 = Normal ()
  ∧ List.filter is_add (refreshCollectionsToFetchOffers env []).2 = []
  ∧ List.filter is_get_token_ids (refreshCollectionsToFetchOffers env []).2 = [].
Proof.
  intros Hrun Hcase.
  destruct (collect_pages_calls _ _ _ _ _ _ _ Hrun) as (evs1 & Ht1 & Hadd1 & Htok1).
  simpl in Ht1. subst t1.
  assert (Hres : ∃ tail,
            refreshCollectionsToFetchOffers env [] = (Normal (), evs1 ++ tail)
            ∧ List.filter is_add tail = []
            ∧ List.filter is_get_token_ids tail = []).
  { unfold refreshCollectionsToFetchOffers, try_catch_eff.
    unfold mbind at 1. unfold eff_bind. rewrite Hrun.
    destruct Hcase as [->|[e ->]]; simpl.
    - exists []. by rewrite app_nil_r.
    - eexists. by split. }
  destruct Hres as (tail & -> & Hadd2 & Htok2). simpl.
  rewrite !List.filter_app. by rewrite Hadd1, Hadd2, Htok1, Htok2.
Qed.

(** X19. When the token request of every gathered collection throws, the
    refresh still calls [add], with no probe and the flag set. *)
Theorem refresh_all_tokens_fail (cs : list Collection) (t1 : list RefreshEvent) :
  collect_pages env (Z.to_nat (ceil_div MAX_FETCH_OFFERS_COLLECTIONS 20))
    0%nat None [] [] = (Normal cs, t1) →
  cs ≠ [] →
  (∀ k c, ∃ e, tokens_ids_v1 env k c = Throw e) →
  List.filter is_add (refreshCollectionsToFetchOffers env []).2 = [EvAdd [] true].
Proof.
  intros Hrun Hne Hfail.
  assert (Hnone : ∀ l k, probes_of env k l = []).
  { induction l as [|c l IH]; intros k; simpl; [done|].
    destruct (Hfail k (id c)) as [e ->]. apply IH. }
  destruct (collect_pages_calls _ _ _ _ _ _ _ Hrun) as (evs1 & Ht1 & Hadd1 & Htok1).
  simpl in Ht1. subst t1.
  destruct (sample_collections_probes cs 0%nat [] evs1) as (evs & Hs & Hadd & _ & _).
  rewrite Hnone in Hs.
  assert (Hres : ∃ tail,
            refreshCollectionsToFetchOffers env []
            = (Normal (), evs1 ++ evs ++ EvAdd [] true :: tail)
            ∧ List.filter is_add tail = []).
  { unfold refreshCollectionsToFetchOffers, try_catch_eff.
    unfold mbind at 1. unfold eff_bind. rewrite Hrun.
    destruct cs as [|c cs]; [done|].
    change (0 <? length (c :: cs))%nat with true. cbv iota.
    unfold mbind, eff_bind. rewrite Hs. unfold add, log_error.
    destruct (add_fault env); simpl; eexists; rewrite <- !app_assoc; by split. }
  destruct Hres as (tail & -> & Hadd2). simpl.
  rewrite !List.filter_app. simpl. by rewrite Hadd1, Hadd, Hadd2.
Qed.

(** X20. The token of a probe is one of the tokens the request returned;
    it is absent exactly when the request returned none. *)
Theorem sample_is_a_token (r : nat) (tokens : list string) :
  (sample r tokens = None ↔ tokens = [])
  ∧ (∀ t, sample r tokens = Some t → t ∈ tokens).
Proof.
  unfold sample. destruct tokens as [|t0 tokens]; [by split|].
  change (length (t0 :: tokens)) with (S (length tokens)). cbv iota.
  assert (Hlt : (r mod S (length tokens) < length (t0 :: tokens))%nat).
  { change (length (t0 :: tokens)) with (S (length tokens)).
    apply Nat.mod_upper_bound. lia. }
  apply lookup_lt_is_Some_2 in Hlt as [t Ht].
  split.
  - split; [|done]. intros Hn. rewrite Hn in Ht. discriminate.
  - intros t' Ht'. apply list_elem_of_lookup. eauto.
Qed.

End ProbesMore.

(** ** getCollectionsToFetchOffers *)

Section CollectionsMore.
Context (ps : ProbeStore) (env : Indexer).

Lemma refresh_never_throws (t : list RefreshEvent) :
  (refreshCollectionsToFetchOffers env t).1 = Normal ().
Proof.
  unfold refreshCollectionsToFetchOffers, try_catch_eff.
  match goal with
  | |- context [match ?b with _ => _ end] => destruct b as [[[]|e] t']
  end; reflexivity.
Qed.

(** X21. [getCollectionsToFetchOffers] never throws.  It returns what
    [getAll] gives when [count] and [getAll] both succeed, and the empty
    list when either throws.  The refresh is run exactly when [count]
    gives 0, between the two calls, and [getAll] is called after it
    whatever the refresh did. *)
Theorem getCollectionsToFetchOffers_result (t : list CollectionsEvent) :
  ∃ res evs,
    getCollectionsToFetchOffers ps env t = (Normal res, t ++ evs)
    ∧ (∀ n l, count_answer ps = Normal n → getAll_answer ps = Normal l → res = l)
    ∧ ((∃ e, count_answer ps = Throw e) ∨ (∃ e, getAll_answer ps = Throw e) → res = [])
    ∧ (count_answer ps = Normal 0 →
       ∃ tail,
         evs = EvCount
               :: (EvRefresh <$> (refreshCollectionsToFetchOffers env []).2)
               ++ EvGetAll :: tail)
    ∧ (count_answer ps ≠ Normal 0 → ∀ ev, EvRefresh ev ∉ evs).
Proof.
  unfold getCollectionsToFetchOffers, try_catch_eff, count, getAll, refresh_within.
  unfold mbind, eff_bind.
  destruct (count_answer ps) as [n|ce] eqn:Hcount.
  - destruct (decide (n = 0)) as [->|Hn].
    + cbv zeta. rewrite refresh_never_throws.
      set (R := refreshCollectionsToFetchOffers env []).
      destruct (getAll_answer ps) as [l|ge] eqn:HgetAll;
        eexists _, _; (split; [rewrite <- ?app_assoc; simpl; reflexivity|]);
        (split; [by intros ? ? [= <-] [= <-] || by intros ? ? _ [=]|]);
        (split; [by intros [[? [=]]|[? [=]]] || done|]);
        (split; [intros _; by eexists|]); by intros [].
    + simpl.
      destruct (getAll_answer ps) as [l|ge] eqn:HgetAll;
        eexists _, _; (split; [rewrite <- ?app_assoc; simpl; reflexivity|]);
        (split; [by intros ? ? [= <-] [= <-] || by intros ? ? _ [=]|]);
        (split; [by intros [[? [=]]|[? [=]]] || done|]);
        (split; [intros [=]; done|]); intros _ ev; not_among.
  - eexists _, _. split; [rewrite <- ?app_assoc; simpl; reflexivity|].
    split; [by intros ? ? [=]|]. split; [done|].
    split; [by intros [=]|]. intros _ ev. not_among.
Qed.

End CollectionsMore.

(** ** More on the realtime worker *)

Section RealtimeMore.
Import Realtime.

Lemma run_job_cache (env : Env) (job : Job) (w : World) :
  cache (run_job env job w).2 = cache (processor env job w).2.
Proof.
  unfold run_job.
  destruct (processor_resolves env job w) as (evs & c & -> & _). reflexivity.
Qed.

(** X22. A run touches one key of the cache only, and under that key the
    value is what it was or a non-empty token the fetch returned in this
    run: no run stores an empty cursor or removes the cursor. *)
Theorem realtime_cache_frame (env : Env) (job : Job) (w : World) :
  (∀ key, key ≠ cacheKey →
          cache (run_job env job w).2 !! key = cache w !! key)
  ∧ (cache (run_job env job w).2 !! cacheKey = cache w !! cacheKey
     ∨ ∃ t, truthy t = true
            ∧ fetchOrdersByPageToken env sell (default "" (cache w !! cacheKey))
              = Normal (Some t)
            ∧ cache (run_job env job w).2 !! cacheKey = Some t).
Proof.
  rewrite run_job_cache.
  destruct (processor_resolves env job w) as (evs & c & -> & _ & Hc). simpl.
  destruct Hc as [->|(t & _ & _ & Hf & Ht & ->)].
  - split; [done|by left].
  - split.
    + intros key Hne. by rewrite lookup_insert_ne.
    + right. exists t. by rewrite lookup_insert_eq.
Qed.

(** X23. A run whose fetch throws, or returns no token or the empty one,
    is followed by a run that starts the fetch from the very token the
    first one started from. *)
Theorem realtime_retries_from_same_token (env env' : Env) (job job' : Job) (w : World) :
  (∀ t, fetchOrdersByPageToken env sell (default "" (cache w !! cacheKey))
        = Normal (Some t) → truthy t = false) →
  get_fault env' = None →
  ∃ evs,
    trace (run_job env' job' (run_job env job w).2).2
    = trace (run_job env job w).2
      ++ [EvRedisGet cacheKey;
          EvFetchOrdersByPageToken sell (default "" (cache w !! cacheKey))]
      ++ evs.
Proof.
  intros Hno Hget'.
  destruct (run_job_starts env' job' (run_job env job w).2 Hget') as [evs Hevs].
  exists evs. rewrite Hevs. do 4 f_equal.
  rewrite run_job_cache.
  destruct (processor_resolves env job w) as (evs0 & c & -> & _ & Hc). simpl.
  destruct Hc as [->|(t & _ & _ & Hf & Ht & _)]; [done|].
  apply Hno in Hf. congruence.
Qed.

(** X24. When the fetch returns the token the run started from, the run
    still writes it: the cache is what it was, and the write is made. *)
Theorem realtime_stalled_token (env : Env) (job : Job) (w : World) (t : string) :
  get_fault env = None →
  set_fault env = None →
  cache w !! cacheKey = Some t →
  truthy t = true →
  fetchOrdersByPageToken env sell t = Normal (Some t) →
  run_job env job w
  = (completed,
     {| cache := cache w;
        trace := trace w
                 ++ [EvRedisGet cacheKey; EvFetchOrdersByPageToken sell t;
                     EvRedisSet cacheKey t;
                     EvReleaseLock "coinbase-sync-lock" false] |}).
Proof.
  intros Hget Hset Hc Ht Hf.
  unfold run_job, processor, try_catch_eff, redis_get, call_fetchOrdersByPageToken,
    redis_set, on_completed, releaseLock, record.
  run_eff. rewrite Hget. simpl. rewrite Hc. simpl. rewrite Hf. simpl.
  rewrite Ht, Hset. simpl. rewrite insert_id by done.
  by rewrite <- !app_assoc.
Qed.

(** X25. The calls of a run, in order: the cache is read once, first;
    the fetch is called at most once, for side sell, from the stored token
    or from the empty token when none is stored; the cache is written at
    most once, after a fetch that returned a non-empty token; at most one
    error is logged; the lock is released last. *)
Theorem realtime_run_calls (env : Env) (job : Job) (w : World) :
  let start := default "" (cache w !! cacheKey) in
  ∃ evs,
    trace (run_job env job w).2
    = trace w ++ EvRedisGet cacheKey :: evs ++ [EvReleaseLock "coinbase-sync-lock" false]
    ∧ (evs = [EvLogError REALTIME_QUEUE_NAME]
       ∨ evs = [EvFetchOrdersByPageToken sell start]
       ∨ evs = [EvFetchOrdersByPageToken sell start; EvLogError REALTIME_QUEUE_NAME]
       ∨ ∃ t, truthy t = true
              ∧ (evs = [EvFetchOrdersByPageToken sell start; EvRedisSet cacheKey t]
                 ∨ evs = [EvFetchOrdersByPageToken sell start; EvRedisSet cacheKey t;
                          EvLogError REALTIME_QUEUE_NAME])).
Proof.
  cbv zeta.
  unfold run_job, processor, try_catch_eff, redis_get, call_fetchOrdersByPageToken,
    redis_set, log_error, on_completed, releaseLock, record.
  run_eff.
  destruct (get_fault env) as [ge|]; simpl.
  { exists [EvLogError REALTIME_QUEUE_NAME].
    split; [by rewrite <- !app_assoc|by left]. }
  destruct (fetchOrdersByPageToken env sell (default "" (cache w !! cacheKey)))
    as [[t|]|fe]; simpl.
  - destruct (truthy t) eqn:Ht; simpl.
    + destruct (set_fault env); simpl.
      * exists [EvFetchOrdersByPageToken sell (default "" (cache w !! cacheKey));
                EvRedisSet cacheKey t; EvLogError REALTIME_QUEUE_NAME].
        split; [by rewrite <- !app_assoc|].
        right; right; right. exists t. split; [done|by right].
      * exists [EvFetchOrdersByPageToken sell (default "" (cache w !! cacheKey));
                EvRedisSet cacheKey t].
        split; [by rewrite <- !app_assoc|].
        right; right; right. exists t. split; [done|by left].
    + exists [EvFetchOrdersByPageToken sell (default "" (cache w !! cacheKey))].
      split; [by rewrite <- !app_assoc|]. right. by left.
  - exists [EvFetchOrdersByPageToken sell (default "" (cache w !! cacheKey))].
    split; [by rewrite <- !app_assoc|]. right. by left.
  - exists [EvFetchOrdersByPageToken sell (default "" (cache w !! cacheKey));
            EvLogError REALTIME_QUEUE_NAME].
    split; [by rewrite <- !app_assoc|]. right. right. by left.
Qed.

End RealtimeMore.

(** ** The properties above at concrete inputs *)

Lemma fetchOrders_url_query_witness :
  (∃ path c a,
     (∃ baseUrl network, decodeURI (baseApiUrl baseUrl network sell) = Normal path)
     ∧ decodeURI (urlencode "c1") = Normal c
     ∧ decodeURI (urlencode "") = Normal a
     ∧ Fixture.page_url "c1"
       = path +:+ "?order_by=created_date&limit=50&order_direction=desc"
         +:+ ("&cursor=" +:+ c) +:+ ""
     ∧ (all_safe "c1" = true → c = "c1"))
  ∧ (∃ path c a,
       (∃ baseUrl network, decodeURI (baseApiUrl baseUrl network sell) = Normal path)
       ∧ decodeURI (urlencode "a b%41/c") = Normal c
       ∧ decodeURI (urlencode "") = Normal a
       ∧ Fixture.page_url "a+b%41%2Fc"
         = path +:+ "?order_by=created_date&limit=50&order_direction=desc"
           +:+ ("&cursor=" +:+ c) +:+ ""
       ∧ (all_safe "a b%41/c" = true → c = "a b%41/c")).
Proof.
  split.
  - apply (fetchOrders_url_query Fixture.mainnet sell None Fixture.second_page_frame
             (Fixture.page_url "c1")).
    reflexivity.
  - apply (fetchOrders_url_query Fixture.mainnet sell None Fixture.escaped_cursor_frame
             (Fixture.page_url "a+b%41%2Fc")).
    reflexivity.
Defined.

Lemma iteration_cursor_total_witness :
  cursor
    (try_catch_eff
       (fetchOrders_try (H := Fixture.sdk) Fixture.mainnet Fixture.first_page_url
          (Fixture.page [Fixture.good; Fixture.unknown_empty] (Some "c1")))
       fetchOrders_catch (Fixture.first_page_frame Fixture.empty_world)).2
  = Some "c1"
  ∧ total
      (try_catch_eff
         (fetchOrders_try (H := Fixture.sdk) Fixture.mainnet Fixture.first_page_url
            (Fixture.page [Fixture.good; Fixture.unknown_empty] (Some "c1")))
         fetchOrders_catch (Fixture.first_page_frame Fixture.empty_world)).2
    = 0 + Z.of_nat 2.
Proof.
  exact (iteration_cursor_total (H := Fixture.sdk) Fixture.mainnet Fixture.first_page_url
           (Fixture.page [Fixture.good; Fixture.unknown_empty] (Some "c1"))
           (Fixture.first_page_frame Fixture.empty_world) _ _ (surjective_pairing _)).
Defined.

Lemma fanOut_one_row_per_record_witness :
  ∃ parsedOrders values,
    fanOut (handleOrder (H := Fixture.sdk) Fixture.mainnet)
      [Fixture.good; Fixture.unknown] ([], []) = Normal (parsedOrders, values)
    ∧ hash <$> values = ["0xaa01"; "0xbb02"]
    ∧ length parsedOrders = 1%nat.
Proof.
  eexists _, _. split; [vm_compute; reflexivity|].
  split; [|reflexivity].
  eapply (fanOut_one_row_per_record (H := Fixture.sdk) Fixture.mainnet
            [Fixture.good; Fixture.unknown]).
  vm_compute. reflexivity.
Defined.

Lemma handlers_agree_witness :
  handleOrder_all (H := Fixture.sdk) Fixture.mainnet
    (Fixture.record_of "0xaa01" Fixture.exchange_v15 [Fixture.nft "0xC0FFEE"]) ([], [])
  = handleOrder (H := Fixture.sdk) Fixture.mainnet
      (Fixture.record_of "0xaa01" Fixture.exchange_v15 [Fixture.nft "0xC0FFEE"]) ([], []).
Proof.
  apply (handlers_agree (H := Fixture.sdk) Fixture.mainnet). reflexivity.
Defined.

Lemma unsupported_chain_no_request_witness :
  fetchOrders (H := Fixture.sdk) Fixture.bsc sell None
    [Fixture.page [Fixture.good] None] Fixture.empty_world
  = (Threw {| message := "Unsupported chain"; response_status := None |},
     Fixture.first_page_frame Fixture.empty_world,
     [Fixture.page [Fixture.good] None]).
Proof.
  apply (unsupported_chain_no_request (H := Fixture.sdk) Fixture.bsc sell None
           [Fixture.page [Fixture.good] None] Fixture.empty_world None None None
           (Fixture.page [Fixture.good] None)).
  intros Hin. apply list_elem_of_In in Hin. simpl in Hin. intuition discriminate.
Defined.

Lemma maxOrders_cap_witness :
  fetchOrders_loop (H := Fixture.sdk) Fixture.mainnet sell (Some Fixture.capped)
    [Fixture.page [Fixture.good] None] Fixture.second_page_frame
  = (Returned, Fixture.second_page_frame, [Fixture.page [Fixture.good] None])
  ∧ fetchOrders_loop (H := Fixture.sdk) Fixture.mainnet sell
      (Some (Fixture.uncapped (Some 0)))
      [Fixture.page [] None] Fixture.second_page_frame
    = fetchOrders_loop (H := Fixture.sdk) Fixture.mainnet sell
        (Some (Fixture.uncapped None))
        [Fixture.page [] None] Fixture.second_page_frame.
Proof.
  split.
  - apply (maxOrders_cap (H := Fixture.sdk) Fixture.mainnet sell Fixture.capped
             [Fixture.page [Fixture.good] None] Fixture.second_page_frame) with (m := 50);
      [reflexivity|discriminate|reflexivity].
  - apply (maxOrders_cap (H := Fixture.sdk) Fixture.mainnet sell
             (Fixture.uncapped (Some 0)) [Fixture.page [] None]
             Fixture.second_page_frame).
    reflexivity.
Defined.

Lemma loop_returns_when_witness :
  done
    (fetchOrders_loop (H := Fixture.sdk) Fixture.mainnet sell None
       [Fixture.page [Fixture.good; Fixture.unknown] (Some "c1"); Fixture.server_error]
       (Fixture.first_page_frame Fixture.synced_world)).1.2
  = true.
Proof.
  edestruct (loop_returns_when (H := Fixture.sdk) Fixture.mainnet sell None
               [Fixture.page [Fixture.good; Fixture.unknown] (Some "c1");
                Fixture.server_error]
               (Fixture.first_page_frame Fixture.synced_world))
    as [Hd|(m & Hm & _)].
  - vm_compute. reflexivity.
  - exact Hd.
  - discriminate.
Defined.

Lemma one_request_per_round_witness :
  ∃ used evs,
    [Fixture.page [Fixture.good] (Some "c1"); Fixture.rate_limited; Fixture.server_error;
     Fixture.page [] None]
    = used ++ [Fixture.page [] None]
    ∧ length (List.filter is_request evs) = length used.
Proof.
  destruct (one_request_per_round (H := Fixture.sdk) Fixture.mainnet sell None
              [Fixture.page [Fixture.good] (Some "c1"); Fixture.rate_limited;
               Fixture.server_error; Fixture.page [] None]
              (Fixture.first_page_frame Fixture.empty_world)
              (Threw Fixture.error_500)
              (after [EvRequest (GetOrders Fixture.first_page_url);
                      EvInsert [Fixture.row_of "0xaa01" "0xc0ffee"];
                      EvEnqueue [{| relay_kind := SeaportV15;
                                    relay_data := orderComponent Fixture.good |}] true;
                      EvRequest (GetOrders (Fixture.page_url "c1"));
                      EvSleep 5000;
                      EvRequest (GetOrders (Fixture.page_url "c1"))]
                 {| cursor := Some "c1"; total := 1; done := false;
                    world := {| store := Fixture.one_row_table; trace := [] |} |})
              [Fixture.page [] None])
    as (used & evs & Hused & _ & Hreq & _).
  - vm_compute. reflexivity.
  - exists used, evs. split; [exact Hused|exact Hreq].
Defined.


Lemma fetch_keeps_stored_rows_witness :
  store
    (fetchListingsBySlug (H := Fixture.sdk) Fixture.mainnet "azuki"
       (Fixture.page [Fixture.good; Fixture.unknown] None)
       {| store := Fixture.one_row_table; trace := [] |}).2 !! "0xaa01"
  = Some (Fixture.row_of "0xaa01" "0xc0ffee").
Proof.
  destruct (fetch_keeps_stored_rows (H := Fixture.sdk) Fixture.mainnet "0xaa01"
              (Fixture.row_of "0xaa01" "0xc0ffee")
              (Fixture.page [Fixture.good; Fixture.unknown] None))
    as (_ & _ & Hslug & _).
  apply Hslug. reflexivity.
Defined.

Lemma fetch_writes_lowercase_rows_witness :
  hash (Fixture.row_of "0xaa01" "0xc0ffee") = "0xaa01"
  ∧ row_lowercase (Fixture.row_of "0xaa01" "0xc0ffee").
Proof.
  destruct (fetch_writes_lowercase_rows (H := Fixture.sdk) Fixture.mainnet "0xaa01"
              (Fixture.row_of "0xaa01" "0xc0ffee") (Fixture.page [Fixture.good] None))
    as (_ & Hslug & _).
  apply (Hslug "azuki" Fixture.empty_world); vm_compute; reflexivity.
Defined.

Lemma empty_pages_never_end_witness :
  ∃ f' evs,
    fetchOrders_loop (H := Fixture.sdk) Fixture.mainnet sell (Some Fixture.capped)
      (replicate 3 (Fixture.page [] None)) (Fixture.first_page_frame Fixture.empty_world)
    = (AwaitingPage, f', [])
    ∧ total f' = 0
    ∧ trace (world f') = [] ++ evs
    ∧ length evs = 3%nat.
Proof.
  destruct (empty_pages_never_end (H := Fixture.sdk) Fixture.mainnet sell
              (Some Fixture.capped) (replicate 3 (Fixture.page [] None))
              (Fixture.first_page_frame Fixture.empty_world) Fixture.first_page_url)
    as (f' & evs & Hrun & _ & Htotal & _ & Htr & _ & Hlen).
  - repeat constructor; by exists None.
  - reflexivity.
  - reflexivity.
  - exists f', evs. split; [exact Hrun|]. split; [exact Htotal|].
    split; [exact Htr|exact Hlen].
Defined.

Lemma refetch_repeats_enqueue_witness :
  ∃ evs w1 w2,
    fetchListingsBySlug (H := Fixture.sdk) Fixture.mainnet "azuki"
      (Fixture.page [Fixture.good] None) Fixture.empty_world = (Normal (), w1)
    ∧ fetchListingsBySlug (H := Fixture.sdk) Fixture.mainnet "azuki"
        (Fixture.page [Fixture.good] None) w1 = (Normal (), w2)
    ∧ store w2 = store w1
    ∧ List.filter is_enqueue evs
      = [EvEnqueue [{| relay_kind := SeaportV15;
                       relay_data := orderComponent Fixture.good |}] true].
Proof.
  edestruct (refetch_repeats_enqueue (H := Fixture.sdk) Fixture.mainnet
               (Fixture.page [Fixture.good] None)
               {| orders := [Fixture.good]; next := None |}) as [Hslug _].
  - reflexivity.
  - vm_compute. reflexivity.
  - reflexivity.
  - reflexivity.
  - destruct (Hslug "azuki" Fixture.empty_world)
      as (evs & w1 & w2 & H1 & H2 & _ & _ & Hs & He).
    exists evs, w1, w2. repeat split; assumption.
Defined.

Lemma refresh_adds_probes_witness :
  List.filter is_add (refreshCollectionsToFetchOffers Fixture.indexer []).2
  = [EvAdd [Fixture.azuki_probe] true].
Proof.
  apply (refresh_adds_probes Fixture.indexer Fixture.ranked [EvGetCollections 20 None]).
  - reflexivity.
  - discriminate.
Defined.

Lemma refresh_without_ranking_witness :
  (refreshCollectionsToFetchOffers Fixture.ranking_down []).1 = Normal ()
  ∧ List.filter is_add (refreshCollectionsToFetchOffers Fixture.ranking_down []).2 = [].
Proof.
  destruct (refresh_without_ranking Fixture.ranking_down (Throw Fixture.error_500)
              [EvGetCollections 20 None] eq_refl) as (Hok & Hadd & _).
  - right. by exists Fixture.error_500.
  - split; [exact Hok|exact Hadd].
Defined.

Lemma refresh_all_tokens_fail_witness :
  List.filter is_add (refreshCollectionsToFetchOffers Fixture.tokens_down []).2
  = [EvAdd [] true].
Proof.
  apply (refresh_all_tokens_fail Fixture.tokens_down Fixture.ranked
           [EvGetCollections 20 None]).
  - reflexivity.
  - discriminate.
  - intros k c. by exists Fixture.error_500.
Defined.

Lemma sample_is_a_token_witness :
  "8" ∈ ["7"; "8"] ∧ sample 5 [] = None.
Proof.
  destruct (sample_is_a_token 5 ["7"; "8"]) as [_ Hin].
  destruct (sample_is_a_token 5 []) as [[_ Hnone] _].
  split; [apply Hin; reflexivity|apply Hnone; reflexivity].
Defined.

Lemma getCollectionsToFetchOffers_result_witness :
  ∃ res evs,
    getCollectionsToFetchOffers (Fixture.probe_store 3) Fixture.indexer []
    = (Normal res, [] ++ evs)
    ∧ res = [Fixture.azuki_probe]
    ∧ ∀ ev, EvRefresh ev ∉ evs.
Proof.
  destruct (getCollectionsToFetchOffers_result (Fixture.probe_store 3) Fixture.indexer [])
    as (res & evs & Hrun & Hres & _ & _ & Hnone).
  exists res, evs. split; [exact Hrun|]. split.
  - apply (Hres 3 [Fixture.azuki_probe]); reflexivity.
  - apply Hnone. discriminate.
Defined.

Lemma realtime_cache_frame_witness :
  Realtime.cache
    (Realtime.run_job (Fixture.sync_env (Normal (Some "def456")))
       Fixture.first_job Fixture.warm_cache).2 !! "other"
  = Some "kept".
Proof.
  destruct (realtime_cache_frame (Fixture.sync_env (Normal (Some "def456")))
              Fixture.first_job Fixture.warm_cache) as [Hframe _].
  rewrite Hframe; [reflexivity|discriminate].
Defined.

Lemma realtime_retries_from_same_token_witness :
  ∃ evs,
    Realtime.trace
      (Realtime.run_job (Fixture.sync_env (Normal (Some "def456"))) Fixture.first_job
         (Realtime.run_job (Fixture.sync_env (Throw Fixture.error_500))
            Fixture.first_job Fixture.warm_cache).2).2
    = Realtime.trace
        (Realtime.run_job (Fixture.sync_env (Throw Fixture.error_500))
           Fixture.first_job Fixture.warm_cache).2
      ++ [Realtime.EvRedisGet Realtime.cacheKey;
          Realtime.EvFetchOrdersByPageToken sell
            (default "" (Realtime.cache Fixture.warm_cache !! Realtime.cacheKey))]
      ++ evs.
Proof.
  apply (realtime_retries_from_same_token (Fixture.sync_env (Throw Fixture.error_500))
           (Fixture.sync_env (Normal (Some "def456")))
           Fixture.first_job Fixture.first_job Fixture.warm_cache).
  - intros t. discriminate.
  - reflexivity.
Defined.

Lemma realtime_stalled_token_witness :
  Realtime.run_job (Fixture.sync_env (Normal (Some "abc123")))
    Fixture.first_job Fixture.warm_cache
  = (Realtime.completed,
     {| Realtime.cache := Realtime.cache Fixture.warm_cache;
        Realtime.trace :=
          Realtime.trace Fixture.warm_cache
          ++ [Realtime.EvRedisGet Realtime.cacheKey;
              Realtime.EvFetchOrdersByPageToken sell "abc123";
              Realtime.EvRedisSet Realtime.cacheKey "abc123";
              Realtime.EvReleaseLock "coinbase-sync-lock" false] |}).
Proof.
  apply (realtime_stalled_token (Fixture.sync_env (Normal (Some "abc123")))
           Fixture.first_job Fixture.warm_cache "abc123"); reflexivity.
Defined.
